(** * Hypnos: the permission ledger and its event reconcilers

    A shallow embedding of

    - [contracts/contracts/HypnosExecutor.sol]: the capability ledger
      (grant, revoke, gated execution, token transfer, revert-reason
      extraction), in [Module Evm] (bytes, Keccak-256, ABI packing and
      decoding) and [Module HypnosExecutor];
    - the Envio handlers registered with
      [HypnosExecutor.<Event>.handler], in [Module Envio];
    - the handlers [handlePermissionGranted], [handlePermissionRevoked],
      [handlePermissionUsed] and [handleExecutionRecorded] written
      against graph-ts entities, in [Module Subgraph];

    followed by the properties of the specification, each stated over
    these definitions. *)

From Stdlib Require Import ZArith List String Ascii Lia Bool.
From stdpp Require Import gmap strings list fin_maps pretty.
Local Open Scope Z_scope.

(** ** EVM data: bytes, words, Keccak-256 and the ABI *)

Module Evm.

(** A byte string is a list of bytes, each a [Z] in [0, 256). *)
Definition bytes := list Z.

Definition bytes_of_string (s : string) : bytes :=
  map (fun c => Z.of_N (N_of_ascii c)) (list_ascii_of_string s).

Definition string_of_bytes (bs : bytes) : string :=
  string_of_list_ascii (map (fun b => ascii_of_N (Z.to_N b)) bs).

(** Big-endian value of a byte string, and the [n] big-endian bytes of
    a value (truncated to [8 n] bits, as [abi.encodePacked] lays out an
    [address] in 20 bytes, a [bytes4] in 4 and a [uint256] in 32). *)
Definition be_word (bs : bytes) : Z :=
  fold_left (fun acc b => acc * 256 + b) bs 0.

Fixpoint le_bytes (n : nat) (z : Z) : bytes :=
  match n with
  | O => []
  | S n' => z mod 256 :: le_bytes n' (z / 256)
  end.

Definition be_bytes (n : nat) (z : Z) : bytes := rev (le_bytes n z).

Fixpoint le_word (bs : bytes) : Z :=
  match bs with
  | [] => 0
  | b :: rest => b + 256 * le_word rest
  end.

(** *** Keccak-256 (rate 136 bytes, padding 0x01 .. 0x80) *)

Definition mask64 : Z := 2 ^ 64 - 1.

Definition rotl64 (x n : Z) : Z :=
  Z.land (Z.lor (Z.shiftl x n) (Z.shiftr x (64 - n))) mask64.

Definition lane (st : list Z) (x y : nat) : Z := nth (x + 5 * y)%nat st 0.

Definition round_constants : list Z :=
  [0x0000000000000001; 0x0000000000008082; 0x800000000000808A;
   0x8000000080008000; 0x000000000000808B; 0x0000000080000001;
   0x8000000080008081; 0x8000000000008009; 0x000000000000008A;
   0x0000000000000088; 0x0000000080008009; 0x000000008000000A;
   0x000000008000808B; 0x800000000000008B; 0x8000000000008089;
   0x8000000000008003; 0x8000000000008002; 0x8000000000000080;
   0x000000000000800A; 0x800000008000000A; 0x8000000080008081;
   0x8000000000008080; 0x0000000080000001; 0x8000000080008008].

Definition rotation_offsets : list Z :=
  [0; 1; 62; 28; 27;  36; 44; 6; 55; 20;  3; 10; 43; 25; 39;
   41; 45; 15; 21; 8;  18; 2; 61; 56; 14].

Definition coords : list (nat * nat) :=
  flat_map (fun y => map (fun x => (x, y)) (seq 0 5)) (seq 0 5).

Definition theta (st : list Z) : list Z :=
  let C x := fold_right Z.lxor 0 (map (lane st x) (seq 0 5)) in
  let D x := Z.lxor (C ((x + 4) mod 5)%nat)
                    (rotl64 (C ((x + 1) mod 5)%nat) 1) in
  map (fun '(x, y) => Z.lxor (lane st x y) (D x)) coords.

Definition rho_pi (st : list Z) : list Z :=
  map (fun '(X, Y) =>
         let x := ((X + 3 * Y) mod 5)%nat in
         rotl64 (lane st x X) (nth (x + 5 * X)%nat rotation_offsets 0))
      coords.

Definition chi (st : list Z) : list Z :=
  map (fun '(x, y) =>
         Z.lxor (lane st x y)
                (Z.land (Z.lxor (lane st ((x + 1) mod 5)%nat y) mask64)
                        (lane st ((x + 2) mod 5)%nat y)))
      coords.

Definition iota (rc : Z) (st : list Z) : list Z :=
  match st with
  | a :: rest => Z.lxor a rc :: rest
  | [] => []
  end.

Definition keccak_f (st : list Z) : list Z :=
  fold_left (fun s rc => iota rc (chi (rho_pi (theta s)))) round_constants st.

Fixpoint lanes_of (n : nat) (bs : bytes) : list Z :=
  match n with
  | O => []
  | S n' => le_word (firstn 8 bs) :: lanes_of n' (skipn 8 bs)
  end.

Definition xor_block (st : list Z) (blk : bytes) : list Z :=
  map (fun '(a, b) => Z.lxor a b) (combine st (lanes_of 17 blk ++ repeat 0 8)).

Fixpoint absorb (fuel : nat) (st : list Z) (bs : bytes) : list Z :=
  match fuel with
  | O => st
  | S fuel' =>
      match bs with
      | [] => st
      | _ => absorb fuel' (keccak_f (xor_block st (firstn 136 bs)))
                    (skipn 136 bs)
      end
  end.

Definition keccak_pad (len : nat) : bytes :=
  let q := (136 - len mod 136)%nat in
  if (q =? 1)%nat then [0x81] else [0x01] ++ repeat 0 (q - 2) ++ [0x80].

Definition keccak256_bytes (msg : bytes) : bytes :=
  let padded := msg ++ keccak_pad (length msg) in
  let st := absorb (length padded) (repeat 0 25) padded in
  flat_map (le_bytes 8) (firstn 4 st).

(** [keccak256(...)] as a [bytes32] value. *)
Definition keccak256 (msg : bytes) : Z := be_word (keccak256_bytes msg).

(** [bytes4(b)] for a byte string [b]: its first four bytes, padded
    with zero bytes on the right when [b] is shorter. *)
Definition bytes4_of_bytes (b : bytes) : Z :=
  be_word (firstn 4 (b ++ [0; 0; 0; 0])).

(** [bytes4(h)] for a [bytes32] value [h]: its four leading bytes. *)
Definition bytes4_of_bytes32 (h : Z) : Z := Z.shiftr h 224.

(** *** Memory reads of the ABI decoder

    [mread mem o n] is the [n] bytes at offset [o] of [mem]; memory that
    was never written reads as zero. *)
Definition mread (mem : bytes) (o n : Z) : bytes :=
  firstn (Z.to_nat n) (skipn (Z.to_nat o) mem ++ repeat 0 (Z.to_nat n)).

Definition mload (mem : bytes) (o : Z) : Z := be_word (mread mem o 32).

(** Signed comparison of two 256-bit words. *)
Definition signed256 (x : Z) : Z := if x <? 2 ^ 255 then x else x - 2 ^ 256.
Definition slt (x y : Z) : bool := signed256 x <? signed256 y.

End Evm.

Import Evm.

(** ** The capability ledger: [HypnosExecutor.sol] *)

Module HypnosExecutor.

(** *** Failures and the result of a call *)

Inductive Failure :=
| Error (message : string)         (* a failed [require(cond, message)] *)
| ReentrancyGuardReentrantCall     (* the [nonReentrant] modifier *)
| AbiDecodeRevert                  (* [abi.decode] on malformed data *)
| Panic (code : Z)                 (* a compiler-inserted [Panic(code)] *)
| SafeERC20FailedOperation         (* SafeERC20: the token returned false *)
| RevertData (data : bytes).       (* a callee's other revert data, passed on *)

#[global] Instance Failure_eq_dec : EqDecision Failure.
Proof. solve_decision. Defined.

Inductive result (A : Type) :=
| Ok (a : A)
| Revert (f : Failure).
Arguments Ok {A} a.
Arguments Revert {A} f.

Definition bind {A B} (r : result A) (k : A -> result B) : result B :=
  match r with
  | Ok a => k a
  | Revert f => Revert f
  end.

Notation "'do' x <- r ; k" := (bind r (fun x => k))
  (at level 10, x name, r at level 100, k at level 200).
Notation "'check' c 'else' msg ; k" :=
  (if c then k else Revert (Error msg))
  (at level 10, c at level 100, msg at level 0, k at level 200).

(** The revert strings of the contract, named as the specification names
    the failure modes. *)
Definition InvalidTarget := Error "HypnosExecutor: invalid target".
Definition ExpiredGrant := Error "HypnosExecutor: expired".
Definition NotFound := Error "HypnosExecutor: permission not found".
Definition Inactive := Error "HypnosExecutor: permission inactive".
Definition TargetMismatch := Error "HypnosExecutor: target mismatch".
Definition Expired := Error "HypnosExecutor: permission expired".
Definition SelectorMismatch := Error "HypnosExecutor: selector mismatch".
Definition ValueExceeded := Error "HypnosExecutor: value exceeds limit".
Definition TokenMismatch := Error "HypnosExecutor: token mismatch".
Definition AmountExceeded := Error "HypnosExecutor: amount exceeds limit".

(** *** Storage *)

Module Permission.
Record t := mk {
  target : Z;            (* address *)
  selector : Z;          (* bytes4, 0 for any *)
  maxValue : Z;
  maxTokenAmount : Z;
  tokenAddress : Z;
  expiry : Z;            (* 0 = no expiry *)
  active : bool }.

(** The value a mapping holds at a key that was never written. *)
Definition zero : t := mk 0 0 0 0 0 0 false.

Definition set_active (b : bool) (p : t) : t :=
  mk (target p) (selector p) (maxValue p) (maxTokenAmount p)
     (tokenAddress p) (expiry p) b.
End Permission.

Module ExecutionRecord.
Record t := mk {
  executor : Z;
  target : Z;
  selector : Z;
  value : Z;
  data : bytes;
  timestamp : Z;
  permissionId : Z;
  success : bool;
  reason : string }.
End ExecutionRecord.

Inductive Event :=
| PermissionGranted
    (user permissionId target selector maxValue maxTokenAmount
     tokenAddress expiry : Z)
| PermissionRevoked (user permissionId : Z)
| PermissionUsed
    (user permissionId executionId target selector value : Z)
    (success : bool)
| ExecutionRecorded
    (executionId executor target selector value permissionId : Z)
    (success : bool) (reason : string).

(** [_status] of OpenZeppelin's [ReentrancyGuard]. *)
Inductive Status := NOT_ENTERED | ENTERED.

(** The contract's storage and the log of emitted events.
    [permissions] is the nested mapping
    [address => bytes32 => Permission], keyed here by the pair. *)
Record Ledger := mkLedger {
  roles : gset (Z * Z);                      (* AccessControl: (role, account) *)
  status : Status;
  permissions : gmap (Z * Z) Permission.t;
  userPermissions : gmap Z (list Z);
  executions : gmap Z ExecutionRecord.t;
  executionHistory : list Z;
  logs : list Event }.

Definition with_status (st : Status) (s : Ledger) : Ledger :=
  mkLedger (roles s) st (permissions s) (userPermissions s)
           (executions s) (executionHistory s) (logs s).

Definition with_permissions (m : gmap (Z * Z) Permission.t) (s : Ledger) : Ledger :=
  mkLedger (roles s) (status s) m (userPermissions s)
           (executions s) (executionHistory s) (logs s).

Definition with_userPermissions (m : gmap Z (list Z)) (s : Ledger) : Ledger :=
  mkLedger (roles s) (status s) (permissions s) m
           (executions s) (executionHistory s) (logs s).

Definition with_executions (m : gmap Z ExecutionRecord.t) (s : Ledger) : Ledger :=
  mkLedger (roles s) (status s) (permissions s) (userPermissions s)
           m (executionHistory s) (logs s).

Definition with_executionHistory (h : list Z) (s : Ledger) : Ledger :=
  mkLedger (roles s) (status s) (permissions s) (userPermissions s)
           (executions s) h (logs s).

Definition emit (e : Event) (s : Ledger) : Ledger :=
  mkLedger (roles s) (status s) (permissions s) (userPermissions s)
           (executions s) (executionHistory s) (logs s ++ [e]).

Definition DEFAULT_ADMIN_ROLE : Z := 0.
Definition EXECUTOR_ROLE : Z := keccak256 (bytes_of_string "EXECUTOR_ROLE").

(** [constructor()]: the deployer receives the admin role. *)
Definition constructor (msg_sender : Z) : Ledger :=
  mkLedger {[ (DEFAULT_ADMIN_ROLE, msg_sender) ]} NOT_ENTERED ∅ ∅ ∅ [] [].

Record Block := mkBlock { timestamp : Z; number : Z }.

(** *** Read accessors *)

Definition getPermission (s : Ledger) (executor permissionId : Z) : Permission.t :=
  default Permission.zero (permissions s !! (executor, permissionId)).

Definition getUserPermissions (s : Ledger) (executor : Z) : list Z :=
  default [] (userPermissions s !! executor).

Definition getExecution (s : Ledger) (executionId : Z) : option ExecutionRecord.t :=
  executions s !! executionId.

Definition getExecutionCount (s : Ledger) : Z :=
  Z.of_nat (length (executionHistory s)).

(** *** The derived identifiers

    [keccak256(abi.encodePacked(...))] over the values each function
    packs: an [address] takes 20 bytes, a [bytes4] 4, a [uint256] 32, and
    [bytes] as many as it has. *)

(** The [permissionId] of [grantPermission]. *)
Definition permissionIdOf (blk : Block)
    (executor target selector maxValue maxTokenAmount tokenAddress expiry : Z) : Z :=
  keccak256 (be_bytes 20 executor ++ be_bytes 20 target ++
             be_bytes 4 selector ++ be_bytes 32 maxValue ++
             be_bytes 32 maxTokenAmount ++ be_bytes 20 tokenAddress ++
             be_bytes 32 expiry ++ be_bytes 32 (timestamp blk) ++
             be_bytes 32 (number blk)).

(** The [executionId] of [executeWithPermission]. *)
Definition executionIdOf (blk : Block) (msg_sender target : Z) (data : bytes)
    (value : Z) : Z :=
  keccak256 (be_bytes 20 msg_sender ++ be_bytes 20 target ++ data ++
             be_bytes 32 value ++ be_bytes 32 (timestamp blk) ++
             be_bytes 32 (number blk)).

(** The [executionId] of [executeTokenTransfer]. *)
Definition transferIdOf (blk : Block) (msg_sender tokenAddress to amount : Z) : Z :=
  keccak256 (be_bytes 20 msg_sender ++ be_bytes 20 tokenAddress ++
             be_bytes 20 to ++ be_bytes 32 amount ++
             be_bytes 32 (timestamp blk)).

(** *** grantPermission *)

Definition grantPermission (msg_sender : Z) (blk : Block)
    (executor target selector maxValue maxTokenAmount tokenAddress expiry : Z)
    (s : Ledger) : result (Ledger * Z) :=
  check negb (target =? 0) else "HypnosExecutor: invalid target";
  check (expiry =? 0) || (expiry >? timestamp blk) else "HypnosExecutor: expired";
  let permissionId :=
    permissionIdOf blk executor target selector maxValue maxTokenAmount
      tokenAddress expiry in
  let s := with_permissions
             (<[(executor, permissionId) :=
                  Permission.mk target selector maxValue maxTokenAmount
                                tokenAddress expiry true]> (permissions s)) s in
  let s := with_userPermissions
             (<[executor := getUserPermissions s executor ++ [permissionId]]>
                (userPermissions s)) s in
  let s := emit (PermissionGranted executor permissionId target selector
                   maxValue maxTokenAmount tokenAddress expiry) s in
  Ok (s, permissionId).

(** *** revokePermission *)

Definition revokePermission (msg_sender : Z) (permissionId : Z)
    (s : Ledger) : result (Ledger * unit) :=
  let perm := getPermission s msg_sender permissionId in
  check negb (Permission.target perm =? 0)
    else "HypnosExecutor: permission not found";
  let s := with_permissions
             (<[(msg_sender, permissionId) := Permission.set_active false perm]>
                (permissions s)) s in
  let s := emit (PermissionRevoked msg_sender permissionId) s in
  Ok (s, tt).

(** *** The [nonReentrant] modifier *)

Definition nonReentrant {A} (body : Ledger -> result (Ledger * A))
    (s : Ledger) : result (Ledger * A) :=
  match status s with
  | ENTERED => Revert ReentrancyGuardReentrantCall
  | NOT_ENTERED =>
      do r <- body (with_status ENTERED s);
      Ok (with_status NOT_ENTERED (fst r), snd r)
  end.

(** *** abi.decode(returnData, (string))

    The decoder the compiler emits for a [bytes memory] argument, over
    offsets relative to the first byte of the array: [len] is the array's
    length word and [mem] the memory from its first byte on. The checks
    are, in order: the head holds 32 bytes; the offset of the string is
    at most [2^64 - 1]; the string's length word lies inside the array;
    the length is at most [2^64 - 1] (else [Panic(0x41)]); the string's
    bytes lie inside the array. Gas is not modelled. *)
Definition abi_decode_string (len : Z) (mem : bytes) : result bytes :=
  if slt len 32 then Revert AbiDecodeRevert else
  let offset := mload mem 0 in
  if offset >? 0xffffffffffffffff then Revert AbiDecodeRevert else
  if negb (offset + 31 <? len) then Revert AbiDecodeRevert else
  let length := mload mem offset in
  if length >? 0xffffffffffffffff then Revert (Panic 0x41) else
  if offset + 32 + length >? len then Revert AbiDecodeRevert else
  Ok (mread mem (offset + 32) length).

(** *** _extractRevertReason

    [returnData] is the returned byte string. The assembly block moves
    the array pointer four bytes forward: the array then starts at the
    fifth byte of [returnData], and its length word is made of the low
    28 bytes of the old length word followed by the four selector bytes.
    With that length the array extends past the returned bytes into the
    memory behind them, [residue], whose content depends on how the
    compiler lays memory out and is left open. *)
Definition _extractRevertReason (returnData residue : bytes) : result string :=
  if (length returnData =? 0)%nat then Ok "unknown error"%string else
  if (68 <=? length returnData)%nat
     && (nth 0 returnData 0 =? 0x08) && (nth 1 returnData 0 =? 0xc3)
     && (nth 2 returnData 0 =? 0x79) && (nth 3 returnData 0 =? 0xa0)
  then
    let len := (Z.of_nat (length returnData) mod 2 ^ 224) * 2 ^ 32
               + be_word (firstn 4 returnData) in
    do reason <- abi_decode_string len (skipn 4 returnData ++ residue);
    Ok (string_of_bytes reason)
  else Ok "execution reverted"%string.

(** *** External calls

    What [target.call{value: value}(data)] hands back: the success flag,
    the returned bytes, the memory left behind them, and the ledger as
    the callee's own calls into it left it. *)
Record CallResult := mkCallResult {
  call_success : bool;
  call_returnData : bytes;
  call_residue : bytes;
  call_ledger : Ledger }.

(** A failed call frame rolls back whatever it did to the ledger. *)
Definition low_level_call (callee : Ledger -> CallResult) (s : Ledger) : CallResult :=
  let r := callee s in
  if call_success r then r
  else mkCallResult false (call_returnData r) (call_residue r) s.

(** *** executeWithPermission *)

Definition executeWithPermission_body (msg_sender : Z) (blk : Block)
    (permissionId target : Z) (data : bytes) (value : Z)
    (callee : Ledger -> CallResult)
    (s : Ledger) : result (Ledger * (bool * bytes)) :=
  let perm := getPermission s msg_sender permissionId in
  check negb (Permission.target perm =? 0)
    else "HypnosExecutor: permission not found";
  check Permission.active perm else "HypnosExecutor: permission inactive";
  check Permission.target perm =? target else "HypnosExecutor: target mismatch";
  check (Permission.expiry perm =? 0) || (Permission.expiry perm >=? timestamp blk)
    else "HypnosExecutor: permission expired";
  let selector := bytes4_of_bytes data in
  check (Permission.selector perm =? 0) || (Permission.selector perm =? selector)
    else "HypnosExecutor: selector mismatch";
  check value <=? Permission.maxValue perm
    else "HypnosExecutor: value exceeds limit";
  let executionId := executionIdOf blk msg_sender target data value in
  let r := low_level_call callee s in
  let success := call_success r in
  let returnData := call_returnData r in
  do reason <- (if success then Ok "success"%string
                else _extractRevertReason returnData (call_residue r));
  let s := call_ledger r in
  let s := with_executions
             (<[executionId :=
                  ExecutionRecord.mk msg_sender target selector value data
                    (timestamp blk) permissionId success reason]>
                (executions s)) s in
  let s := with_executionHistory (executionHistory s ++ [executionId]) s in
  let s := emit (ExecutionRecorded executionId msg_sender target selector
                   value permissionId success reason) s in
  let s := emit (PermissionUsed msg_sender permissionId executionId target
                   selector value success) s in
  Ok (s, (success, returnData)).

Definition executeWithPermission (msg_sender : Z) (blk : Block)
    (permissionId target : Z) (data : bytes) (value : Z)
    (callee : Ledger -> CallResult) : Ledger -> result (Ledger * (bool * bytes)) :=
  nonReentrant
    (executeWithPermission_body msg_sender blk permissionId target data value callee).

(** *** executeTokenTransfer

    [transfer] stands for [token.safeTransferFrom(msg.sender, to, amount)]:
    when it reverts, the failure it reverts with, else the ledger the
    token contract left. The library passes the token's own revert data
    on as it is (a [require] message, a custom error such as
    [ERC20InsufficientAllowance], a panic), and reverts with an error of
    its own when the token returns false or has no code; the call does
    not catch any of these, so it reverts with the same failure. *)
Definition transfer_selector : Z :=
  Eval vm_compute in
    bytes4_of_bytes32 (keccak256 (bytes_of_string "transfer(address,uint256)")).

Definition executeTokenTransfer_body (msg_sender : Z) (blk : Block)
    (permissionId tokenAddress to amount : Z)
    (transfer : Ledger -> result Ledger)
    (s : Ledger) : result (Ledger * bool) :=
  let perm := getPermission s msg_sender permissionId in
  check negb (Permission.target perm =? 0)
    else "HypnosExecutor: permission not found";
  check Permission.active perm else "HypnosExecutor: permission inactive";
  check Permission.tokenAddress perm =? tokenAddress
    else "HypnosExecutor: token mismatch";
  check amount <=? Permission.maxTokenAmount perm
    else "HypnosExecutor: amount exceeds limit";
  check (Permission.expiry perm =? 0) || (Permission.expiry perm >=? timestamp blk)
    else "HypnosExecutor: permission expired";
  let executionId := transferIdOf blk msg_sender tokenAddress to amount in
  match transfer s with
  | Revert failure => Revert failure
  | Ok s =>
      let s := with_executions
                 (<[executionId :=
                      ExecutionRecord.mk msg_sender tokenAddress transfer_selector 0
                        (be_bytes 4 transfer_selector ++ be_bytes 32 to ++
                         be_bytes 32 amount)
                        (timestamp blk) permissionId true "success"]>
                    (executions s)) s in
      let s := with_executionHistory (executionHistory s ++ [executionId]) s in
      let s := emit (ExecutionRecorded executionId msg_sender tokenAddress
                       transfer_selector 0 permissionId true "success") s in
      let s := emit (PermissionUsed msg_sender permissionId executionId
                       tokenAddress transfer_selector amount true) s in
      Ok (s, true)
  end.

Definition executeTokenTransfer (msg_sender : Z) (blk : Block)
    (permissionId tokenAddress to amount : Z)
    (transfer : Ledger -> result Ledger) : Ledger -> result (Ledger * bool) :=
  nonReentrant
    (executeTokenTransfer_body msg_sender blk permissionId tokenAddress to
       amount transfer).

(** *** Calls, transactions and runs

    A call into the ledger, with what its environment decides: for a
    gated execution the outcome of the inner call (success flag,
    returned bytes, memory behind them) and the calls the callee makes
    back into the ledger while it runs; for a token transfer the failure
    [safeTransferFrom] reverts with, if it does, and the token contract's
    calls back. *)
Unset Elimination Schemes.
Inductive Call :=
| CallGrant (msg_sender executor target selector maxValue maxTokenAmount
             tokenAddress expiry : Z)
| CallRevoke (msg_sender permissionId : Z)
| CallExecute (msg_sender permissionId target : Z) (data : bytes) (value : Z)
              (inner_success : bool) (inner_returnData inner_residue : bytes)
              (reentrant : list Call)
| CallTokenTransfer (msg_sender permissionId tokenAddress to amount : Z)
                    (failure : option Failure) (reentrant : list Call).
Set Elimination Schemes.

(** The ledger after a call: a revert leaves it as it was. *)
Definition settle {A} (s : Ledger) (r : result (Ledger * A)) : Ledger :=
  match r with
  | Ok (s', _) => s'
  | Revert _ => s
  end.

Definition forget {A} (r : result (Ledger * A)) : result (Ledger * unit) :=
  do x <- r; Ok (fst x, tt).

Fixpoint invoke (blk : Block) (c : Call) (s : Ledger) {struct c}
    : result (Ledger * unit) :=
  match c with
  | CallGrant sender executor target selector maxValue maxTokenAmount
              tokenAddress expiry =>
      forget (grantPermission sender blk executor target selector maxValue
                maxTokenAmount tokenAddress expiry s)
  | CallRevoke sender permissionId => revokePermission sender permissionId s
  | CallExecute sender permissionId target data value ok ret residue cs =>
      forget
        (executeWithPermission sender blk permissionId target data value
           (fun s1 =>
              mkCallResult ok ret residue
                ((fix callbacks (cs : list Call) (s : Ledger) : Ledger :=
                    match cs with
                    | [] => s
                    | c' :: cs' => callbacks cs' (settle s (invoke blk c' s))
                    end) cs s1))
           s)
  | CallTokenTransfer sender permissionId tokenAddress to amount failed cs =>
      forget
        (executeTokenTransfer sender blk permissionId tokenAddress to amount
           (fun s1 =>
              match failed with
              | Some failure => Revert failure
              | None =>
                  Ok ((fix callbacks (cs : list Call) (s : Ledger) : Ledger :=
                         match cs with
                         | [] => s
                         | c' :: cs' => callbacks cs' (settle s (invoke blk c' s))
                         end) cs s1)
              end)
           s)
  end.

(** The callee's calls back into the ledger, in order; each one that
    reverts is undone on its own and the callee goes on. *)
Definition callbacks (blk : Block) (cs : list Call) (s : Ledger) : Ledger :=
  fold_left (fun s c => settle s (invoke blk c s)) cs s.

(** A top-level transaction and a run of them. *)
Definition transact (s : Ledger) (tx : Block * Call) : Ledger :=
  settle s (invoke (fst tx) (snd tx) s).

Definition run (txs : list (Block * Call)) (s : Ledger) : Ledger :=
  fold_left transact txs s.

End HypnosExecutor.

(** ** Text helpers of the indexers *)

Module Text.

(** [String.prototype.toLowerCase] on the ASCII letters of a hex string. *)
Definition lower_ascii (c : ascii) : ascii :=
  let n := N_of_ascii c in
  if ((65 <=? n) && (n <=? 90))%N then ascii_of_N (n + 32) else c.

Fixpoint toLowerCase (s : string) : string :=
  match s with
  | EmptyString => EmptyString
  | String c rest => String (lower_ascii c) (toLowerCase rest)
  end.

Definition hex_digit (d : Z) : ascii :=
  if d <? 10 then ascii_of_N (Z.to_N (48 + d)) else ascii_of_N (Z.to_N (87 + d)).

Fixpoint hex_of_bytes (bs : bytes) : string :=
  match bs with
  | [] => EmptyString
  | b :: rest => String (hex_digit (b / 16)) (String (hex_digit (b mod 16)) (hex_of_bytes rest))
  end.

(** [Bytes.toHexString()] and [Address.toHexString()] of graph-ts. *)
Definition toHexString (bs : bytes) : string := "0x" ++ hex_of_bytes bs.

(** The audit rows' key: transaction hash, a dash, the log index. *)
Definition eventId (transaction_hash : string) (logIndex : N) : string :=
  transaction_hash ++ "-" ++ pretty logIndex.

End Text.

Import Text.

(** ** Tables written by keyed upserts

    Both indexers write their tables through two primitives: [set] (or
    [save]) stores a row under its id, and a read-modify-write rewrites
    the row under an id when there is one. *)

Module Table.

Section Writes.

Context {A U : Type} (upd : U -> A -> A).

Inductive write :=
| Skip
| Put (k : string) (v : A)
| Upd (k : string) (u : U).

Definition apply_write (w : write) (m : gmap string A) : gmap string A :=
  match w with
  | Skip => m
  | Put k v => <[k := v]> m
  | Upd k u =>
      match m !! k with
      | Some a => <[k := upd u a]> m
      | None => m
      end
  end.

Definition apply_writes (ws : list write) (m : gmap string A) : gmap string A :=
  fold_left (fun m w => apply_write w m) ws m.

(** What one write does to the cell under key [k]. *)
Definition cell_step (k : string) (w : write) (x : option A) : option A :=
  match w with
  | Skip => x
  | Put k' v => if decide (k' = k) then Some v else x
  | Upd k' u => if decide (k' = k) then upd u <$> x else x
  end.

Definition cell (k : string) (ws : list write) (x : option A) : option A :=
  fold_left (fun x w => cell_step k w x) ws x.

End Writes.

Arguments write : clear implicits.

(** For a table that is only ever written by [Put]. *)
Definition no_update {A : Type} (u : unit) (a : A) : A := a.

End Table.

(** ** The Envio handlers ([HypnosExecutor.<Event>.handler])

    [context.<Entity>.set] stores a row under its id and
    [context.<Entity>.get] reads the row under an id; [context.log.info]
    writes to the indexer's log and has no part in the tables. *)

Module Envio.

Module Permission.
Record t := mk {
  id : string;
  user : string;
  target : string;
  selector : string;
  maxValue : Z;
  maxTokenAmount : Z;
  tokenAddress : string;
  expiry : Z;
  active : bool;
  grantedAt : Z;
  grantedAtBlock : Z;
  revokedAt : option Z;
  revokedAtBlock : option Z }.

(** [{ ...existingPermission, active: false, revokedAt, revokedAtBlock }] *)
Definition revoke (at_ : Z * Z) (p : t) : t :=
  mk (id p) (user p) (target p) (selector p) (maxValue p) (maxTokenAmount p)
     (tokenAddress p) (expiry p) false (grantedAt p) (grantedAtBlock p)
     (Some (fst at_)) (Some (snd at_)).
End Permission.

Module PermissionGrantedEvent.
Record t := mk {
  id : string;
  user : string;
  permissionId : string;
  target : string;
  selector : string;
  maxValue : Z;
  maxTokenAmount : Z;
  tokenAddress : string;
  expiry : Z;
  timestamp : Z;
  blockNumber : Z;
  transactionHash : string }.
End PermissionGrantedEvent.

Module PermissionRevokedEvent.
Record t := mk {
  id : string;
  user : string;
  permissionId : string;
  timestamp : Z;
  blockNumber : Z;
  transactionHash : string }.
End PermissionRevokedEvent.

Module PermissionUsedEvent.
Record t := mk {
  id : string;
  user : string;
  permissionId : string;
  executionId : string;
  target : string;
  selector : string;
  value : Z;
  success : bool;
  timestamp : Z;
  blockNumber : Z;
  transactionHash : string }.
End PermissionUsedEvent.

Module Execution.
Record t := mk {
  id : string;
  executor : string;
  target : string;
  selector : string;
  value : Z;
  data : string;
  timestamp : Z;
  blockNumber : Z;
  transactionHash : string;
  permission_id : string;
  permissionId : string;
  success : bool;
  reason : string }.
End Execution.

(** The entity tables behind [context]. *)
Record Mirror := mkMirror {
  Permissions : gmap string Permission.t;
  PermissionGrantedEvents : gmap string PermissionGrantedEvent.t;
  PermissionRevokedEvents : gmap string PermissionRevokedEvent.t;
  PermissionUsedEvents : gmap string PermissionUsedEvent.t;
  Executions : gmap string Execution.t }.

Definition empty : Mirror := mkMirror ∅ ∅ ∅ ∅ ∅.

(** [event.args], as the SDK decodes them: addresses, identifiers and
    selectors are text, amounts are big integers. *)
Inductive Args :=
| PermissionGranted (user permissionId target selector : string)
    (maxValue maxTokenAmount : Z) (tokenAddress : string) (expiry : Z)
| PermissionRevoked (user permissionId : string)
| PermissionUsed (user permissionId executionId target selector : string)
    (value : Z) (success : bool)
| ExecutionRecorded (executionId executor target selector : string) (value : Z)
    (permissionId : string) (success : bool) (reason : string).

Record Event := mkEvent {
  args : Args;
  block_timestamp : Z;
  block_number : Z;
  transaction_hash : string;
  logIndex : N }.

Definition PermissionGranted_handler (event : Event)
    (user permissionId target selector : string) (maxValue maxTokenAmount : Z)
    (tokenAddress : string) (expiry : Z) (context : Mirror) : Mirror :=
  let id := permissionId in
  let permission :=
    Permission.mk id (toLowerCase user) (toLowerCase target) selector maxValue
      maxTokenAmount (toLowerCase tokenAddress) expiry true
      (block_timestamp event) (block_number event) None None in
  let eventId := eventId (transaction_hash event) (logIndex event) in
  let grantedEvent :=
    PermissionGrantedEvent.mk eventId (toLowerCase user) id (toLowerCase target)
      selector maxValue maxTokenAmount (toLowerCase tokenAddress) expiry
      (block_timestamp event) (block_number event) (transaction_hash event) in
  mkMirror (<[Permission.id permission := permission]> (Permissions context))
           (<[PermissionGrantedEvent.id grantedEvent := grantedEvent]>
              (PermissionGrantedEvents context))
           (PermissionRevokedEvents context) (PermissionUsedEvents context)
           (Executions context).

Definition PermissionRevoked_handler (event : Event)
    (user permissionId : string) (context : Mirror) : Mirror :=
  let id := permissionId in
  let permissions :=
    match Permissions context !! id with
    | Some existingPermission =>
        let updatedPermission :=
          Permission.revoke (block_timestamp event, block_number event)
                            existingPermission in
        <[Permission.id updatedPermission := updatedPermission]> (Permissions context)
    | None => Permissions context
    end in
  let eventId := eventId (transaction_hash event) (logIndex event) in
  let revokedEvent :=
    PermissionRevokedEvent.mk eventId (toLowerCase user) id
      (block_timestamp event) (block_number event) (transaction_hash event) in
  mkMirror permissions (PermissionGrantedEvents context)
           (<[PermissionRevokedEvent.id revokedEvent := revokedEvent]>
              (PermissionRevokedEvents context))
           (PermissionUsedEvents context) (Executions context).

Definition PermissionUsed_handler (event : Event)
    (user permissionId executionId target selector : string) (value : Z)
    (success : bool) (context : Mirror) : Mirror :=
  let eventId := eventId (transaction_hash event) (logIndex event) in
  let usedEvent :=
    PermissionUsedEvent.mk eventId (toLowerCase user) permissionId executionId
      (toLowerCase target) selector value success
      (block_timestamp event) (block_number event) (transaction_hash event) in
  mkMirror (Permissions context) (PermissionGrantedEvents context)
           (PermissionRevokedEvents context)
           (<[PermissionUsedEvent.id usedEvent := usedEvent]>
              (PermissionUsedEvents context))
           (Executions context).

Definition ExecutionRecorded_handler (event : Event)
    (executionId executor target selector : string) (value : Z)
    (permissionId : string) (success : bool) (reason : string)
    (context : Mirror) : Mirror :=
  let id := executionId in
  let execution :=
    Execution.mk id (toLowerCase executor) (toLowerCase target) selector value
      "" (block_timestamp event) (block_number event) (transaction_hash event)
      permissionId permissionId success reason in
  mkMirror (Permissions context) (PermissionGrantedEvents context)
           (PermissionRevokedEvents context) (PermissionUsedEvents context)
           (<[Execution.id execution := execution]> (Executions context)).

(** The handler registered for the event's kind. *)
Definition handle (context : Mirror) (event : Event) : Mirror :=
  match args event with
  | PermissionGranted user permissionId target selector maxValue maxTokenAmount
                      tokenAddress expiry =>
      PermissionGranted_handler event user permissionId target selector maxValue
        maxTokenAmount tokenAddress expiry context
  | PermissionRevoked user permissionId =>
      PermissionRevoked_handler event user permissionId context
  | PermissionUsed user permissionId executionId target selector value success =>
      PermissionUsed_handler event user permissionId executionId target selector
        value success context
  | ExecutionRecorded executionId executor target selector value permissionId
                      success reason =>
      ExecutionRecorded_handler event executionId executor target selector value
        permissionId success reason context
  end.

(** The stream applied in arrival order. *)
Definition reconcile (stream : list Event) (context : Mirror) : Mirror :=
  fold_left handle stream context.

(** Every row of [Permission] sits under its own id, as [set] stores it. *)
Definition well_keyed (context : Mirror) : Prop :=
  forall k p, Permissions context !! k = Some p -> Permission.id p = k.

(** What each handler does to each table, as one keyed write. *)
Definition permission_write (event : Event) : Table.write Permission.t (Z * Z) :=
  match args event with
  | PermissionGranted user permissionId target selector maxValue maxTokenAmount
                      tokenAddress expiry =>
      Table.Put permissionId
        (Permission.mk permissionId (toLowerCase user) (toLowerCase target)
           selector maxValue maxTokenAmount (toLowerCase tokenAddress) expiry
           true (block_timestamp event) (block_number event) None None)
  | PermissionRevoked _ permissionId =>
      Table.Upd permissionId (block_timestamp event, block_number event)
  | _ => Table.Skip
  end.

Definition granted_write (event : Event)
    : Table.write PermissionGrantedEvent.t unit :=
  match args event with
  | PermissionGranted user permissionId target selector maxValue maxTokenAmount
                      tokenAddress expiry =>
      Table.Put (eventId (transaction_hash event) (logIndex event))
        (PermissionGrantedEvent.mk
           (eventId (transaction_hash event) (logIndex event))
           (toLowerCase user) permissionId (toLowerCase target) selector
           maxValue maxTokenAmount (toLowerCase tokenAddress) expiry
           (block_timestamp event) (block_number event)
           (transaction_hash event))
  | _ => Table.Skip
  end.

Definition revoked_write (event : Event)
    : Table.write PermissionRevokedEvent.t unit :=
  match args event with
  | PermissionRevoked user permissionId =>
      Table.Put (eventId (transaction_hash event) (logIndex event))
        (PermissionRevokedEvent.mk
           (eventId (transaction_hash event) (logIndex event))
           (toLowerCase user) permissionId (block_timestamp event)
           (block_number event) (transaction_hash event))
  | _ => Table.Skip
  end.

Definition used_write (event : Event) : Table.write PermissionUsedEvent.t unit :=
  match args event with
  | PermissionUsed user permissionId executionId target selector value success =>
      Table.Put (eventId (transaction_hash event) (logIndex event))
        (PermissionUsedEvent.mk
           (eventId (transaction_hash event) (logIndex event))
           (toLowerCase user) permissionId executionId (toLowerCase target)
           selector value success (block_timestamp event) (block_number event)
           (transaction_hash event))
  | _ => Table.Skip
  end.

Definition execution_write (event : Event) : Table.write Execution.t unit :=
  match args event with
  | ExecutionRecorded executionId executor target selector value permissionId
                      success reason =>
      Table.Put executionId
        (Execution.mk executionId (toLowerCase executor) (toLowerCase target)
           selector value "" (block_timestamp event) (block_number event)
           (transaction_hash event) permissionId permissionId success reason)
  | _ => Table.Skip
  end.

(** The tables after the writes of a stream. *)
Definition written (stream : list Event) (context : Mirror) : Mirror :=
  mkMirror
    (Table.apply_writes Permission.revoke
       (map permission_write stream) (Permissions context))
    (Table.apply_writes Table.no_update
       (map granted_write stream) (PermissionGrantedEvents context))
    (Table.apply_writes Table.no_update
       (map revoked_write stream) (PermissionRevokedEvents context))
    (Table.apply_writes Table.no_update
       (map used_write stream) (PermissionUsedEvents context))
    (Table.apply_writes Table.no_update
       (map execution_write stream) (Executions context)).

End Envio.

(** ** The graph-ts handlers ([handlePermissionGranted] and the others) *)

Module Subgraph.

(** Modelled from the spec: the entity classes of [../generated/schema]
    ([Permission], [Execution] and the three audit entities, with their
    [load] and [save]) are not among the sources. They are taken as the
    specification describes the Mirror: [save] is an upsert keyed by the
    entity's id, which replaces the row stored there, and [load] returns
    the row under an id, or null. Fields the handlers never assign stay
    null and are left out of the rows. *)
Definition save {A : Type} (id : A -> string) (entity : A)
    (table : gmap string A) : gmap string A :=
  <[id entity := entity]> table.

Definition load {A : Type} (k : string) (table : gmap string A) : option A :=
  table !! k.

Module Permission.
Record t := mk {
  id : string;
  user : string;
  active : bool;
  grantedAt : Z;
  grantedAtBlock : Z;
  revokedAt : option Z;
  revokedAtBlock : option Z }.

(** [permission.active = false; permission.revokedAt = ...;
     permission.revokedAtBlock = ...] *)
Definition revoke (at_ : Z * Z) (p : t) : t :=
  mk (id p) (user p) false (grantedAt p) (grantedAtBlock p)
     (Some (fst at_)) (Some (snd at_)).
End Permission.

Module AuditEvent.
(** [PermissionGrantedEvent], [PermissionRevokedEvent] and
    [PermissionUsedEvent]; only the last assigns [executionId]. *)
Record t := mk {
  id : string;
  user : string;
  permissionId : string;
  executionId : option string;
  timestamp : Z;
  blockNumber : Z;
  transactionHash : string }.
End AuditEvent.

Module Execution.
Record t := mk {
  id : string;
  executor : string;
  permission : string;
  permissionId : string;
  timestamp : Z;
  blockNumber : Z;
  transactionHash : string }.
End Execution.

Record Mirror := mkMirror {
  Permissions : gmap string Permission.t;
  PermissionGrantedEvents : gmap string AuditEvent.t;
  PermissionRevokedEvents : gmap string AuditEvent.t;
  PermissionUsedEvents : gmap string AuditEvent.t;
  Executions : gmap string Execution.t }.

Definition empty : Mirror := mkMirror ∅ ∅ ∅ ∅ ∅.

(** An [ethereum.Event]: [parameters] are the event's decoded parameters,
    in the order the contract declares them. *)
Record Event := mkEvent {
  parameters : HypnosExecutor.Event;
  block_timestamp : Z;
  block_number : Z;
  transaction_hash : bytes;
  logIndex : N }.

Definition address_text (a : Z) : string := toHexString (be_bytes 20 a).
Definition bytes32_text (b : Z) : string := toHexString (be_bytes 32 b).

Definition audit_id (event : Event) : string :=
  toHexString (transaction_hash event) ++ "-" ++ pretty (logIndex event).

Definition handlePermissionGranted (event : Event)
    (parameter0 parameter1 : Z) (store : Mirror) : Mirror :=
  let permissionId := bytes32_text parameter1 in
  let user := address_text parameter0 in
  let permission :=
    Permission.mk permissionId user true (block_timestamp event)
                  (block_number event) None None in
  let eventEntity :=
    AuditEvent.mk (audit_id event) user permissionId None
      (block_timestamp event) (block_number event)
      (toHexString (transaction_hash event)) in
  mkMirror (save Permission.id permission (Permissions store))
           (save AuditEvent.id eventEntity (PermissionGrantedEvents store))
           (PermissionRevokedEvents store) (PermissionUsedEvents store)
           (Executions store).

Definition handlePermissionRevoked (event : Event)
    (parameter0 parameter1 : Z) (store : Mirror) : Mirror :=
  let permissionId := bytes32_text parameter1 in
  let user := address_text parameter0 in
  let permissions :=
    match load permissionId (Permissions store) with
    | Some permission =>
        save Permission.id
          (Permission.revoke (block_timestamp event, block_number event) permission)
          (Permissions store)
    | None => Permissions store
    end in
  let eventEntity :=
    AuditEvent.mk (audit_id event) user permissionId None
      (block_timestamp event) (block_number event)
      (toHexString (transaction_hash event)) in
  mkMirror permissions (PermissionGrantedEvents store)
           (save AuditEvent.id eventEntity (PermissionRevokedEvents store))
           (PermissionUsedEvents store) (Executions store).

Definition handlePermissionUsed (event : Event)
    (parameter0 parameter1 parameter2 : Z) (store : Mirror) : Mirror :=
  let user := address_text parameter0 in
  let permissionId := bytes32_text parameter1 in
  let executionId := bytes32_text parameter2 in
  let eventEntity :=
    AuditEvent.mk (audit_id event) user permissionId (Some executionId)
      (block_timestamp event) (block_number event)
      (toHexString (transaction_hash event)) in
  mkMirror (Permissions store) (PermissionGrantedEvents store)
           (PermissionRevokedEvents store)
           (save AuditEvent.id eventEntity (PermissionUsedEvents store))
           (Executions store).

Definition handleExecutionRecorded (event : Event)
    (parameter0 parameter1 parameter5 : Z) (store : Mirror) : Mirror :=
  let executionId := bytes32_text parameter0 in
  let executor := address_text parameter1 in
  let permissionId := bytes32_text parameter5 in
  match load permissionId (Permissions store) with
  | None => store
  | Some permission =>
      let execution :=
        Execution.mk executionId executor (Permission.id permission) permissionId
          (block_timestamp event) (block_number event)
          (toHexString (transaction_hash event)) in
      mkMirror (Permissions store) (PermissionGrantedEvents store)
               (PermissionRevokedEvents store) (PermissionUsedEvents store)
               (save Execution.id execution (Executions store))
  end.

(** [handleHypnosExecutor]: the router on the event's name. *)
Definition handleHypnosExecutor (store : Mirror) (event : Event) : Mirror :=
  match parameters event with
  | HypnosExecutor.PermissionGranted user permissionId _ _ _ _ _ _ =>
      handlePermissionGranted event user permissionId store
  | HypnosExecutor.PermissionRevoked user permissionId =>
      handlePermissionRevoked event user permissionId store
  | HypnosExecutor.PermissionUsed user permissionId executionId _ _ _ _ =>
      handlePermissionUsed event user permissionId executionId store
  | HypnosExecutor.ExecutionRecorded executionId executor _ _ _ permissionId _ _ =>
      handleExecutionRecorded event executionId executor permissionId store
  end.

Definition reconcile (stream : list Event) (store : Mirror) : Mirror :=
  fold_left handleHypnosExecutor stream store.

(** The streams the ledger can produce are causal: an execution is
    recorded only after the grant of the permission it used. [granted]
    holds the permission identifiers granted so far. *)
Fixpoint causal_from (granted : list Z) (stream : list Event) : bool :=
  match stream with
  | [] => true
  | event :: rest =>
      match parameters event with
      | HypnosExecutor.PermissionGranted _ permissionId _ _ _ _ _ _ =>
          causal_from (permissionId :: granted) rest
      | HypnosExecutor.ExecutionRecorded _ _ _ _ _ permissionId _ _ =>
          bool_decide (permissionId ∈ granted) && causal_from granted rest
      | _ => causal_from granted rest
      end
  end.

Definition causal (stream : list Event) : bool := causal_from [] stream.

(** Every row of [Permission] sits under its own id, as [save] stores it. *)
Definition well_keyed (store : Mirror) : Prop :=
  forall k p, Permissions store !! k = Some p -> Permission.id p = k.

(** What each handler does to each table, as one keyed write; for
    [Execution] the write [handleExecutionRecorded] makes when it finds
    the permission. *)
Definition permission_write (event : Event) : Table.write Permission.t (Z * Z) :=
  match parameters event with
  | HypnosExecutor.PermissionGranted user permissionId _ _ _ _ _ _ =>
      Table.Put (bytes32_text permissionId)
        (Permission.mk (bytes32_text permissionId) (address_text user) true
           (block_timestamp event) (block_number event) None None)
  | HypnosExecutor.PermissionRevoked _ permissionId =>
      Table.Upd (bytes32_text permissionId)
        (block_timestamp event, block_number event)
  | _ => Table.Skip
  end.

Definition audit_row (event : Event) (user permissionId : Z)
    (executionId : option string) : AuditEvent.t :=
  AuditEvent.mk (audit_id event) (address_text user) (bytes32_text permissionId)
    executionId (block_timestamp event) (block_number event)
    (toHexString (transaction_hash event)).

Definition granted_write (event : Event) : Table.write AuditEvent.t unit :=
  match parameters event with
  | HypnosExecutor.PermissionGranted user permissionId _ _ _ _ _ _ =>
      Table.Put (audit_id event) (audit_row event user permissionId None)
  | _ => Table.Skip
  end.

Definition revoked_write (event : Event) : Table.write AuditEvent.t unit :=
  match parameters event with
  | HypnosExecutor.PermissionRevoked user permissionId =>
      Table.Put (audit_id event) (audit_row event user permissionId None)
  | _ => Table.Skip
  end.

Definition used_write (event : Event) : Table.write AuditEvent.t unit :=
  match parameters event with
  | HypnosExecutor.PermissionUsed user permissionId executionId _ _ _ _ =>
      Table.Put (audit_id event)
        (audit_row event user permissionId (Some (bytes32_text executionId)))
  | _ => Table.Skip
  end.

(** Whether [handleExecutionRecorded] finds the permission the event
    refers to (true for the other events). *)
Definition permission_found (store : Mirror) (event : Event) : bool :=
  match parameters event with
  | HypnosExecutor.ExecutionRecorded _ _ _ _ _ permissionId _ _ =>
      bool_decide (is_Some (Permissions store !! bytes32_text permissionId))
  | _ => true
  end.

Definition execution_write (event : Event) : Table.write Execution.t unit :=
  match parameters event with
  | HypnosExecutor.ExecutionRecorded executionId executor _ _ _ permissionId _ _ =>
      Table.Put (bytes32_text executionId)
        (Execution.mk (bytes32_text executionId) (address_text executor)
           (bytes32_text permissionId) (bytes32_text permissionId)
           (block_timestamp event) (block_number event)
           (toHexString (transaction_hash event)))
  | _ => Table.Skip
  end.

(** The tables after the writes of a stream, when every
    [ExecutionRecorded] of it finds its permission. *)
Definition written (stream : list Event) (store : Mirror) : Mirror :=
  mkMirror
    (Table.apply_writes Permission.revoke
       (map permission_write stream) (Permissions store))
    (Table.apply_writes Table.no_update
       (map granted_write stream)
       (PermissionGrantedEvents store))
    (Table.apply_writes Table.no_update
       (map revoked_write stream)
       (PermissionRevokedEvents store))
    (Table.apply_writes Table.no_update
       (map used_write stream) (PermissionUsedEvents store))
    (Table.apply_writes Table.no_update
       (map execution_write stream) (Executions store)).

End Subgraph.

(** ** Streams with redelivered events *)

(** [redeliver counts stream]: the stream with its [i]-th event delivered
    [1 + counts[i]] times in a row (once when [counts] is too short). *)
Fixpoint redeliver {E : Type} (counts : list nat) (stream : list E)
    {struct stream} : list E :=
  match stream with
  | [] => []
  | e :: rest =>
      match counts with
      | [] => e :: rest
      | n :: counts' => repeat e (S n) ++ redeliver counts' rest
      end
  end.

(** ** The gate as the specification words it *)

Module Spec.

Import HypnosExecutor.

(** The six preconditions of a gated execution in the order the
    specification lists them, each with the failure it reports. *)
Definition preconditions (perm : Permission.t) (target : Z) (data : bytes)
    (value now : Z) : list (bool * Failure) :=
  [ (negb (Permission.target perm =? 0), NotFound);
    (Permission.active perm, Inactive);
    (Permission.target perm =? target, TargetMismatch);
    ((Permission.expiry perm =? 0) || (Permission.expiry perm >=? now), Expired);
    ((Permission.selector perm =? 0)
     || (Permission.selector perm =? bytes4_of_bytes data), SelectorMismatch);
    (value <=? Permission.maxValue perm, ValueExceeded) ].

(** The failure of the first precondition that does not hold. *)
Fixpoint earliest_violation (checks : list (bool * Failure)) : option Failure :=
  match checks with
  | [] => None
  | (holds, failure) :: rest =>
      if holds then earliest_violation rest else Some failure
  end.

(** The ABI encoding of a revert with [Error(reason)]: the selector, the
    offset of the string, its length, its bytes, zero padding to a
    multiple of 32. *)
Definition encode_Error (reason : string) : bytes :=
  let body := bytes_of_string reason in
  let n := length body in
  [0x08; 0xc3; 0x79; 0xa0] ++ be_bytes 32 32 ++ be_bytes 32 (Z.of_nat n)
  ++ body ++ repeat 0 ((32 - n mod 32) mod 32)%nat.

(** How many of the events are [ExecutionRecorded], how many
    [PermissionUsed]. *)
Definition is_ExecutionRecorded (e : Event) : bool :=
  match e with ExecutionRecorded _ _ _ _ _ _ _ _ => true | _ => false end.

Definition is_PermissionUsed (e : Event) : bool :=
  match e with PermissionUsed _ _ _ _ _ _ _ => true | _ => false end.

(** The (executor, identifier) keys a call writes as a grant: its own when
    it is a grant, those of the grants the callee makes while a gated
    execution or a token transfer runs. *)
Definition own_grant (blk : Block) (c : Call) : list (Z * Z) :=
  match c with
  | CallGrant _ executor target selector maxValue maxTokenAmount tokenAddress
              expiry =>
      [(executor, permissionIdOf blk executor target selector maxValue
                  maxTokenAmount tokenAddress expiry)]
  | _ => []
  end.

Definition grants_of (tx : Block * Call) : list (Z * Z) :=
  match snd tx with
  | CallExecute _ _ _ _ _ _ _ _ cs => flat_map (own_grant (fst tx)) cs
  | CallTokenTransfer _ _ _ _ _ _ cs => flat_map (own_grant (fst tx)) cs
  | c => own_grant (fst tx) c
  end.

End Spec.

(** ** Concrete ledgers and calls used to evaluate the code *)

Module Scenario.

Import HypnosExecutor.

Definition deployer : Z := 0xD0.
Definition grantee : Z := 0xA1.
Definition target : Z := 0x71.
Definition block : Block := mkBlock 1000 7.

(** A wildcard capability for [grantee] on [target]: at most 100 wei per
    call, no expiry. *)
Definition grant : Call := CallGrant deployer grantee target 0 100 0 0 0.
Definition granted : Ledger :=
  Eval vm_compute in run [(block, grant)] (constructor deployer).
Definition capability : Z :=
  Eval vm_compute in permissionIdOf block grantee target 0 100 0 0 0.

Definition revoked : Ledger :=
  Eval vm_compute in run [(block, CallRevoke grantee capability)] granted.

(** The same capability with expiry 2000. *)
Definition grant_until : Call := CallGrant deployer grantee target 0 100 0 0 2000.
Definition granted_until : Ledger :=
  Eval vm_compute in run [(block, grant_until)] (constructor deployer).
Definition capability_until : Z :=
  Eval vm_compute in permissionIdOf block grantee target 0 100 0 0 2000.

(** Revert data that opens with the [Error(string)] selector and is 68
    bytes long, whose string offset does not fit 64 bits. *)
Definition malformed_reason : bytes :=
  [0x08; 0xc3; 0x79; 0xa0] ++ repeat 0xff 32 ++ repeat 0 32.

Definition payload : bytes := [0x12; 0x34; 0x56; 0x78].

(** The inner call fails and returns [malformed_reason], whatever the
    memory behind the returned bytes holds and whatever the callee did. *)
Definition failing_execute (residue : bytes) (reentrant : list Call) : Call :=
  CallExecute grantee capability target payload 0 false malformed_reason
    residue reentrant.

(** An inner call that succeeds and makes no call back. *)
Definition quiet_callee (s : Ledger) : CallResult := mkCallResult true [] [] s.

(** An execution recorded against the capability, delivered ahead of the
    grant it refers to, as the graph-ts handlers receive it. *)
Definition execution : Z :=
  Eval vm_compute in executionIdOf block grantee target payload 0.

Definition recorded_event : Subgraph.Event :=
  Subgraph.mkEvent
    (ExecutionRecorded execution grantee target 0x12345678 0 capability true
       "success")
    1000 7 (be_bytes 32 0xABCD) 1.

Definition granted_event : Subgraph.Event :=
  Subgraph.mkEvent
    (PermissionGranted grantee capability target 0 100 0 0 0)
    1000 7 (be_bytes 32 0xABCC) 0.

Definition acausal_stream : list Subgraph.Event := [recorded_event; granted_event].

(** The same recorded execution as the Envio handler receives it. *)
Definition envio_recorded_event : Envio.Event :=
  Envio.mkEvent
    (Envio.ExecutionRecorded "0xe1" "0xA1" "0x71" "0x12345678" 0 "0xc1" true
       "success")
    1000 7 "0xabcd" 1.

End Scenario.


(** ** Reading the ledger's history *)

Module Trace.

Import HypnosExecutor.

(** The calls that write the capability store. *)
Definition is_write (c : Call) : bool :=
  match c with
  | CallGrant _ _ _ _ _ _ _ _ | CallRevoke _ _ => true
  | _ => false
  end.

(** The grants and revokes of a transaction that can take effect: the
    call itself, or the ones the callee makes while a gated execution or a
    token transfer runs. *)
Definition writes_of (tx : Block * Call) : list Call :=
  match snd tx with
  | CallExecute _ _ _ _ _ _ _ _ cs => List.filter is_write cs
  | CallTokenTransfer _ _ _ _ _ _ cs => List.filter is_write cs
  | c => [c]
  end.

(** Whether a call is the revoke of [id] by [a]. *)
Definition revokes (a id : Z) (c : Call) : bool :=
  match c with
  | CallRevoke sender permissionId => (sender =? a) && (permissionId =? id)
  | _ => false
  end.

(** The capability store rebuilt from the events alone: a grant stores
    the capability it announces and lists its identifier, a revoke clears
    the active flag of the capability it names. *)
Definition replay_event
    (store : gmap (Z * Z) Permission.t * gmap Z (list Z)) (e : Event)
    : gmap (Z * Z) Permission.t * gmap Z (list Z) :=
  match e with
  | PermissionGranted user permissionId target selector maxValue
                      maxTokenAmount tokenAddress expiry =>
      (<[(user, permissionId) :=
           Permission.mk target selector maxValue maxTokenAmount tokenAddress
             expiry true]> (fst store),
       <[user := default [] (snd store !! user) ++ [permissionId]]> (snd store))
  | PermissionRevoked user permissionId =>
      (match fst store !! (user, permissionId) with
       | Some perm =>
           <[(user, permissionId) := Permission.set_active false perm]> (fst store)
       | None => fst store
       end,
       snd store)
  | _ => store
  end.

Definition replay (events : list Event)
    : gmap (Z * Z) Permission.t * gmap Z (list Z) :=
  fold_left replay_event events (∅, ∅).

(** The five preconditions of a token transfer in the order the code
    checks them, each with the failure it reports. *)
Definition token_preconditions (perm : Permission.t) (tokenAddress amount now : Z)
    : list (bool * Failure) :=
  [ (negb (Permission.target perm =? 0), NotFound);
    (Permission.active perm, Inactive);
    (Permission.tokenAddress perm =? tokenAddress, TokenMismatch);
    (amount <=? Permission.maxTokenAmount perm, AmountExceeded);
    ((Permission.expiry perm =? 0) || (Permission.expiry perm >=? now), Expired) ].

(** A gated execution whose callee succeeds, returns nothing and makes
    no call back: [(block, payload, value)] sent by [sender] under
    [permissionId] to [target]. *)
Definition quiet (sender permissionId target : Z) (c : Block * bytes * Z)
    : Block * Call :=
  (fst (fst c),
   CallExecute sender permissionId target (snd (fst c)) (snd c) true [] [] []).

(** The record and the two events of a gated execution. *)
Definition recorded (sender permissionId target : Z) (blk : Block) (data : bytes)
    (value : Z) (success : bool) (reason : string) (s : Ledger) : Ledger :=
  let executionId := executionIdOf blk sender target data value in
  emit (PermissionUsed sender permissionId executionId target
          (bytes4_of_bytes data) value success)
    (emit (ExecutionRecorded executionId sender target (bytes4_of_bytes data)
             value permissionId success reason)
       (with_executionHistory (executionHistory s ++ [executionId])
          (with_executions
             (<[executionId :=
                  ExecutionRecord.mk sender target (bytes4_of_bytes data) value
                    data (timestamp blk) permissionId success reason]>
                (executions s)) s))).

End Trace.


(** ** Further ledgers and calls used to evaluate the code *)

Module Cases.

Import HypnosExecutor.

Definition outsider : Z := 0xB2.
Definition token : Z := 0x70.

(** Revert data of a token: a custom error's selector and three words. *)
Definition token_error : bytes :=
  [0xfb; 0x8f; 0x41; 0xb2] ++ be_bytes 32 outsider ++ be_bytes 32 0
  ++ be_bytes 32 1.
Definition later : Block := mkBlock 1001 8.

(** A capability for [Scenario.grantee] bound to the selector
    [0x12345678] on [Scenario.target], at most 100 wei per call. *)
Definition bound_grant : Call :=
  CallGrant Scenario.deployer Scenario.grantee Scenario.target 0x12345678 100 0
    0 0.
Definition bound : Ledger :=
  Eval vm_compute in
    run [(Scenario.block, bound_grant)] (constructor Scenario.deployer).
Definition bound_capability : Z :=
  Eval vm_compute in
    permissionIdOf Scenario.block Scenario.grantee Scenario.target 0x12345678
      100 0 0 0.

(** What other accounts do around the grantee's capability: a revoke
    under the same identifier by another account, a revoke of another
    identifier by the grantee, a grant to another account, and a gated
    execution whose callee revokes as the other account. *)
Definition others : list (Block * Call) :=
  [(later, CallRevoke outsider Scenario.capability);
   (later, CallRevoke Scenario.grantee 0x1234);
   (later, CallGrant outsider outsider Scenario.target 0 100 0 0 0);
   (later,
    CallExecute Scenario.grantee Scenario.capability Scenario.target
      Scenario.payload 5 true [] []
      [CallRevoke outsider Scenario.capability])].

(** Two gated executions of 60 wei each under the capability of
    [Scenario.granted], whose limit is 100 wei. *)
Definition two_of_sixty : list (Block * bytes * Z) :=
  [(Scenario.block, Scenario.payload, 60); (later, Scenario.payload, 60)].

(** A grant and its revocation, and the two events as the graph-ts
    handlers receive them. *)
Definition lifecycle : list (Block * Call) :=
  [(Scenario.block, Scenario.grant);
   (later, CallRevoke Scenario.grantee Scenario.capability)].

Definition revoked_event : Subgraph.Event :=
  Subgraph.mkEvent (PermissionRevoked Scenario.grantee Scenario.capability)
    1001 8 (be_bytes 32 0xABCE) 0.

Definition lifecycle_stream : list Subgraph.Event :=
  [Scenario.granted_event; revoked_event].

End Cases.


(** ** The demo target: [HypnosDemo] *)

Module HypnosDemo.

Import (notations) HypnosExecutor.
Import HypnosExecutor(Failure(..), result(..), bind, Block(..), timestamp, number).

(** A [uint256] is a natural number; the arithmetic of Solidity 0.8 is
    checked, and panics with code 0x11 when the result does not fit. *)
Definition MAX_UINT256 : N := 2 ^ 256 - 1.

Definition checked_add (a b : N) : result N :=
  if (a + b <=? MAX_UINT256)%N then Ok (a + b)%N else Revert (Panic 0x11).

Definition checked_sub (a b : N) : result N :=
  if (b <=? a)%N then Ok (a - b)%N else Revert (Panic 0x11).

Definition MustSendETH := Error "HypnosDemo: must send ETH".
Definition InsufficientBalance := Error "HypnosDemo: insufficient balance".
Definition WithdrawalFailed := Error "HypnosDemo: withdrawal failed".

Inductive Event :=
| CounterIncremented (caller : Z) (oldValue newValue : N) (timestamp : Z)
| MessageUpdated (caller : Z) (oldMessage newMessage : string) (timestamp : Z)
| BalanceDeposited (depositor : Z) (amount newBalance : N) (timestamp : Z)
| BalanceWithdrawn (withdrawer : Z) (amount newBalance : N) (timestamp : Z)
| StateSnapshot (caller : Z) (counter : N) (message : string) (timestamp : Z).

Record State := mkState {
  counter : N;
  message : string;
  lastCaller : Z;
  lastUpdate : Z;
  callerCounts : gmap Z N }.

(** The contract's storage, the ether it holds ([address(this).balance])
    and the log of emitted events. *)
Record Demo := mkDemo {
  state : State;
  balances : gmap Z N;
  funds : N;
  logs : list Event }.

Definition with_counter (c : N) (s : Demo) : Demo :=
  mkDemo (mkState c (message (state s)) (lastCaller (state s))
            (lastUpdate (state s)) (callerCounts (state s)))
         (balances s) (funds s) (logs s).

Definition with_message (m : string) (s : Demo) : Demo :=
  mkDemo (mkState (counter (state s)) m (lastCaller (state s))
            (lastUpdate (state s)) (callerCounts (state s)))
         (balances s) (funds s) (logs s).

Definition with_lastCaller (a : Z) (s : Demo) : Demo :=
  mkDemo (mkState (counter (state s)) (message (state s)) a
            (lastUpdate (state s)) (callerCounts (state s)))
         (balances s) (funds s) (logs s).

Definition with_lastUpdate (t : Z) (s : Demo) : Demo :=
  mkDemo (mkState (counter (state s)) (message (state s)) (lastCaller (state s))
            t (callerCounts (state s)))
         (balances s) (funds s) (logs s).

Definition with_callerCounts (m : gmap Z N) (s : Demo) : Demo :=
  mkDemo (mkState (counter (state s)) (message (state s)) (lastCaller (state s))
            (lastUpdate (state s)) m)
         (balances s) (funds s) (logs s).

Definition with_balances (m : gmap Z N) (s : Demo) : Demo :=
  mkDemo (state s) m (funds s) (logs s).

Definition with_funds (f : N) (s : Demo) : Demo :=
  mkDemo (state s) (balances s) f (logs s).

Definition emit (e : Event) (s : Demo) : Demo :=
  mkDemo (state s) (balances s) (funds s) (logs s ++ [e]).

(** [constructor()], at an address that holds [held] wei. *)
Definition constructor (blk : Block) (held : N) : Demo :=
  mkDemo (mkState 0 "Initialized" 0 (timestamp blk) ∅) ∅ held [].

(** *** Read accessors *)

Definition balanceOf (s : Demo) (account : Z) : N :=
  default 0%N (balances s !! account).

Definition getCallerCount (s : Demo) (caller : Z) : N :=
  default 0%N (callerCounts (state s) !! caller).

Definition getState (s : Demo) : N * string * Z * Z :=
  (counter (state s), message (state s), lastCaller (state s),
   lastUpdate (state s)).

(** *** incrementCounter *)

Definition incrementCounter (msg_sender : Z) (blk : Block) (s : Demo)
    : result (Demo * N) :=
  let oldValue := counter (state s) in
  do c <- checked_add (counter (state s)) 1;
  let s := with_counter c s in
  let s := with_lastCaller msg_sender s in
  let s := with_lastUpdate (timestamp blk) s in
  do n <- checked_add (getCallerCount s msg_sender) 1;
  let s := with_callerCounts (<[msg_sender := n]> (callerCounts (state s))) s in
  let s := emit (CounterIncremented msg_sender oldValue (counter (state s))
                   (timestamp blk)) s in
  Ok (s, counter (state s)).

(** *** updateMessage *)

Definition updateMessage (msg_sender : Z) (blk : Block) (newMessage : string)
    (s : Demo) : result (Demo * unit) :=
  let oldMessage := message (state s) in
  let s := with_message newMessage s in
  let s := with_lastCaller msg_sender s in
  let s := with_lastUpdate (timestamp blk) s in
  do n <- checked_add (getCallerCount s msg_sender) 1;
  let s := with_callerCounts (<[msg_sender := n]> (callerCounts (state s))) s in
  let s := emit (MessageUpdated msg_sender oldMessage newMessage
                   (timestamp blk)) s in
  Ok (s, tt).

(** *** deposit

    The function is payable: the value sent is in the contract's hands
    when the body starts, and goes back with a revert. *)
Definition deposit (msg_sender : Z) (msg_value : N) (blk : Block) (s : Demo)
    : result (Demo * unit) :=
  let s := with_funds (funds s + msg_value) s in
  check (0 <? msg_value)%N else "HypnosDemo: must send ETH";
  do b <- checked_add (balanceOf s msg_sender) msg_value;
  let s := with_balances (<[msg_sender := b]> (balances s)) s in
  let s := with_lastCaller msg_sender s in
  let s := with_lastUpdate (timestamp blk) s in
  do n <- checked_add (getCallerCount s msg_sender) 1;
  let s := with_callerCounts (<[msg_sender := n]> (callerCounts (state s))) s in
  let s := emit (BalanceDeposited msg_sender msg_value (balanceOf s msg_sender)
                   (timestamp blk)) s in
  Ok (s, tt).

(** *** withdraw

    [recipient] stands for the code of [msg.sender] run by
    [msg.sender.call{value: amount}("")]: [None] when it reverts, else the
    contract as the recipient's own calls into it left it. The call fails
    without running the recipient when the contract holds less than
    [amount]; a failed call gives the ether back and undoes what the
    recipient did. *)
Definition send_value (amount : N) (recipient : Demo -> option Demo) (s : Demo)
    : bool * Demo :=
  if (funds s <? amount)%N then (false, s)
  else match recipient (with_funds (funds s - amount) s) with
       | Some s' => (true, s')
       | None => (false, s)
       end.

Definition withdraw (msg_sender : Z) (amount : N) (blk : Block)
    (recipient : Demo -> option Demo) (s : Demo) : result (Demo * unit) :=
  check (amount <=? balanceOf s msg_sender)%N
    else "HypnosDemo: insufficient balance";
  do b <- checked_sub (balanceOf s msg_sender) amount;
  let s := with_balances (<[msg_sender := b]> (balances s)) s in
  let s := with_lastCaller msg_sender s in
  let s := with_lastUpdate (timestamp blk) s in
  do n <- checked_add (getCallerCount s msg_sender) 1;
  let s := with_callerCounts (<[msg_sender := n]> (callerCounts (state s))) s in
  let sent := send_value amount recipient s in
  check fst sent else "HypnosDemo: withdrawal failed";
  let s := snd sent in
  let s := emit (BalanceWithdrawn msg_sender amount (balanceOf s msg_sender)
                   (timestamp blk)) s in
  Ok (s, tt).

(** *** snapshot *)

Definition snapshot (msg_sender : Z) (blk : Block) (s : Demo)
    : result (Demo * unit) :=
  do n <- checked_add (getCallerCount s msg_sender) 1;
  let s := with_callerCounts (<[msg_sender := n]> (callerCounts (state s))) s in
  let s := emit (StateSnapshot msg_sender (counter (state s)) (message (state s))
                   (timestamp blk)) s in
  Ok (s, tt).

(** *** Calls, transactions and runs

    A call into the contract with what its environment decides: for a
    withdrawal whether the recipient accepts the ether, and the calls it
    makes back into the contract while it holds control (the contract has
    no re-entrancy guard). *)
Unset Elimination Schemes.
Inductive Call :=
| CallIncrementCounter (msg_sender : Z)
| CallUpdateMessage (msg_sender : Z) (newMessage : string)
| CallDeposit (msg_sender : Z) (msg_value : N)
| CallWithdraw (msg_sender : Z) (amount : N) (accepts : bool)
               (reentrant : list Call)
| CallSnapshot (msg_sender : Z).
Set Elimination Schemes.

Definition settle {A} (s : Demo) (r : result (Demo * A)) : Demo :=
  match r with
  | Ok (s', _) => s'
  | Revert _ => s
  end.

Definition forget {A} (r : result (Demo * A)) : result (Demo * unit) :=
  do x <- r; Ok (fst x, tt).

Fixpoint invoke (blk : Block) (c : Call) (s : Demo) {struct c}
    : result (Demo * unit) :=
  match c with
  | CallIncrementCounter sender => forget (incrementCounter sender blk s)
  | CallUpdateMessage sender newMessage => updateMessage sender blk newMessage s
  | CallDeposit sender value => deposit sender value blk s
  | CallWithdraw sender amount accepts cs =>
      withdraw sender amount blk
        (fun s1 =>
           if accepts then
             Some ((fix callbacks (cs : list Call) (s : Demo) : Demo :=
                      match cs with
                      | [] => s
                      | c' :: cs' => callbacks cs' (settle s (invoke blk c' s))
                      end) cs s1)
           else None)
        s
  | CallSnapshot sender => snapshot sender blk s
  end.

(** The recipient's calls back into the contract, in order; each one that
    reverts is undone on its own and the recipient goes on. *)
Definition callbacks (blk : Block) (cs : list Call) (s : Demo) : Demo :=
  fold_left (fun s c => settle s (invoke blk c s)) cs s.

Definition transact (s : Demo) (tx : Block * Call) : Demo :=
  settle s (invoke (fst tx) (snd tx) s).

Definition run (txs : list (Block * Call)) (s : Demo) : Demo :=
  fold_left transact txs s.

(** *** Reading the state and the log *)

(** The sum of all balances. *)
Definition total (m : gmap Z N) : N :=
  map_fold (fun _ v acc => (v + acc)%N) 0%N m.

(** The account an event names as its caller. *)
Definition caller_of (e : Event) : Z :=
  match e with
  | CounterIncremented caller _ _ _ => caller
  | MessageUpdated caller _ _ _ => caller
  | BalanceDeposited depositor _ _ _ => depositor
  | BalanceWithdrawn withdrawer _ _ _ => withdrawer
  | StateSnapshot caller _ _ _ => caller
  end.

Definition is_CounterIncremented (e : Event) : bool :=
  match e with CounterIncremented _ _ _ _ => true | _ => false end.

(** Whether an event names [account] as its caller. *)
Definition called_by (account : Z) (e : Event) : bool :=
  bool_decide (caller_of e = account).

(** What an event says [account] deposited, and withdrew; and the sums
    over a log. *)
Definition credit (account : Z) (e : Event) : N :=
  match e with
  | BalanceDeposited depositor amount _ _ =>
      if decide (depositor = account) then amount else 0%N
  | _ => 0%N
  end.

Definition debit (account : Z) (e : Event) : N :=
  match e with
  | BalanceWithdrawn withdrawer amount _ _ =>
      if decide (withdrawer = account) then amount else 0%N
  | _ => 0%N
  end.

Definition deposited (account : Z) (events : list Event) : N :=
  fold_left (fun acc e => (acc + credit account e)%N) events 0%N.

Definition withdrawn (account : Z) (events : list Event) : N :=
  fold_left (fun acc e => (acc + debit account e)%N) events 0%N.

(** The contract as [withdraw] leaves it when it hands control to the
    recipient: the balance debited, the caller noted, the ether sent. *)
Definition debited (msg_sender : Z) (amount : N) (blk : Block) (s : Demo) : Demo :=
  mkDemo (mkState (counter (state s)) (message (state s)) msg_sender
            (timestamp blk)
            (<[msg_sender := (getCallerCount s msg_sender + 1)%N]>
               (callerCounts (state s))))
         (<[msg_sender := (balanceOf s msg_sender - amount)%N]> (balances s))
         (funds s - amount)%N
         (logs s).

End HypnosDemo.


(** ** The ledger and its mirror side by side *)

Module Agreement.

Import HypnosExecutor.

(** A byte. *)
Definition byte_range (b : Z) : Prop := 0 <= b < 256.

(** The (executor, identifier) pairs the [PermissionGranted] events of a
    log name. *)
Definition grants_in (events : list Event) : list (Z * Z) :=
  flat_map (fun e =>
              match e with
              | PermissionGranted user permissionId _ _ _ _ _ _ =>
                  [(user, permissionId)]
              | _ => []
              end) events.

(** No identifier was granted to two executors (the identifier is a hash
    over the executor among others). *)
Definition single_owner (events : list Event) : Prop :=
  forall user user' permissionId,
    In (user, permissionId) (grants_in events) ->
    In (user', permissionId) (grants_in events) ->
    user = user'.

(** The mirror has, for every capability the ledger stores, a Permission
    row under the identifier's text, with the executor as its user and
    the ledger's active flag. *)
Definition agrees (s : Ledger) (store : Subgraph.Mirror) : Prop :=
  forall executor permissionId,
    Permission.target (getPermission s executor permissionId) <> 0 ->
    exists row,
      Subgraph.Permissions store !! Subgraph.bytes32_text permissionId = Some row
      /\ Subgraph.Permission.id row = Subgraph.bytes32_text permissionId
      /\ Subgraph.Permission.user row = Subgraph.address_text executor
      /\ Subgraph.Permission.active row
         = Permission.active (getPermission s executor permissionId).

End Agreement.


(** ** Concrete states and calls of the demo target *)

Module DemoCases.

Import HypnosDemo.

Definition saver : Z := 0xA1.

(** The contract after [saver] deposited 100 wei. *)
Definition deposits : list (HypnosExecutor.Block * Call) :=
  [(Scenario.block, CallDeposit saver 100)].

Definition funded : Demo :=
  Eval vm_compute in run deposits (constructor Scenario.block 0).

End DemoCases.


(** ** Reading a stream of the Envio handlers *)

Module Stream.

(** Whether an event is a grant or a revoke of the permission [id]. *)
Definition names (id : string) (event : Envio.Event) : bool :=
  match Envio.args event with
  | Envio.PermissionGranted _ permissionId _ _ _ _ _ _ =>
      bool_decide (permissionId = id)
  | Envio.PermissionRevoked _ permissionId => bool_decide (permissionId = id)
  | _ => false
  end.

(** Whether an event is another log than [event], with a transaction
    hash of the same length. *)
Definition other_log (event other : Envio.Event) : Prop :=
  String.length (Envio.transaction_hash other)
  = String.length (Envio.transaction_hash event)
  /\ (Envio.transaction_hash other, Envio.logIndex other)
     <> (Envio.transaction_hash event, Envio.logIndex event).

(** The key of the audit row an event writes. *)
Definition audit_key (event : Envio.Event) : string :=
  eventId (Envio.transaction_hash event) (Envio.logIndex event).

End Stream.


(** ** The Envio handlers of the demo target ([HypnosDemo.<Event>.handler]) *)

Module EnvioDemo.

Module CounterIncrementedEvent.
Record t := mk {
  id : string;
  caller : string;
  oldValue : Z;
  newValue : Z;
  timestamp : Z;
  blockNumber : Z;
  transactionHash : string }.
End CounterIncrementedEvent.

Module MessageUpdatedEvent.
Record t := mk {
  id : string;
  caller : string;
  oldMessage : string;
  newMessage : string;
  timestamp : Z;
  blockNumber : Z;
  transactionHash : string }.
End MessageUpdatedEvent.

Module BalanceDepositedEvent.
Record t := mk {
  id : string;
  depositor : string;
  amount : Z;
  newBalance : Z;
  timestamp : Z;
  blockNumber : Z;
  transactionHash : string }.
End BalanceDepositedEvent.

Module BalanceWithdrawnEvent.
Record t := mk {
  id : string;
  withdrawer : string;
  amount : Z;
  newBalance : Z;
  timestamp : Z;
  blockNumber : Z;
  transactionHash : string }.
End BalanceWithdrawnEvent.

Module StateSnapshotEvent.
Record t := mk {
  id : string;
  caller : string;
  counter : Z;
  message : string;
  timestamp : Z;
  blockNumber : Z;
  transactionHash : string }.
End StateSnapshotEvent.

(** The entity tables behind [context]. *)
Record Mirror := mkMirror {
  CounterIncrementedEvents : gmap string CounterIncrementedEvent.t;
  MessageUpdatedEvents : gmap string MessageUpdatedEvent.t;
  BalanceDepositedEvents : gmap string BalanceDepositedEvent.t;
  BalanceWithdrawnEvents : gmap string BalanceWithdrawnEvent.t;
  StateSnapshotEvents : gmap string StateSnapshotEvent.t }.

Definition empty : Mirror := mkMirror ∅ ∅ ∅ ∅ ∅.

(** The fields of [event.args] the handlers read. *)
Inductive Args :=
| CounterIncremented (caller : string) (oldValue newValue : Z)
| MessageUpdated (caller oldMessage newMessage : string)
| BalanceDeposited (depositor : string) (amount newBalance : Z)
| BalanceWithdrawn (withdrawer : string) (amount newBalance : Z)
| StateSnapshot (caller : string) (counter : Z) (message : string).

Record Event := mkEvent {
  args : Args;
  block_timestamp : Z;
  block_number : Z;
  transaction_hash : string;
  logIndex : N }.

Definition CounterIncremented_handler (event : Event) (caller : string)
    (oldValue newValue : Z) (context : Mirror) : Mirror :=
  let eventId := eventId (transaction_hash event) (logIndex event) in
  let counterEvent :=
    CounterIncrementedEvent.mk eventId (toLowerCase caller) oldValue newValue
      (block_timestamp event) (block_number event) (transaction_hash event) in
  mkMirror (<[CounterIncrementedEvent.id counterEvent := counterEvent]>
              (CounterIncrementedEvents context))
           (MessageUpdatedEvents context) (BalanceDepositedEvents context)
           (BalanceWithdrawnEvents context) (StateSnapshotEvents context).

Definition MessageUpdated_handler (event : Event)
    (caller oldMessage newMessage : string) (context : Mirror) : Mirror :=
  let eventId := eventId (transaction_hash event) (logIndex event) in
  let messageEvent :=
    MessageUpdatedEvent.mk eventId (toLowerCase caller) oldMessage newMessage
      (block_timestamp event) (block_number event) (transaction_hash event) in
  mkMirror (CounterIncrementedEvents context)
           (<[MessageUpdatedEvent.id messageEvent := messageEvent]>
              (MessageUpdatedEvents context))
           (BalanceDepositedEvents context) (BalanceWithdrawnEvents context)
           (StateSnapshotEvents context).

Definition BalanceDeposited_handler (event : Event) (depositor : string)
    (amount newBalance : Z) (context : Mirror) : Mirror :=
  let eventId := eventId (transaction_hash event) (logIndex event) in
  let depositEvent :=
    BalanceDepositedEvent.mk eventId (toLowerCase depositor) amount newBalance
      (block_timestamp event) (block_number event) (transaction_hash event) in
  mkMirror (CounterIncrementedEvents context) (MessageUpdatedEvents context)
           (<[BalanceDepositedEvent.id depositEvent := depositEvent]>
              (BalanceDepositedEvents context))
           (BalanceWithdrawnEvents context) (StateSnapshotEvents context).

Definition BalanceWithdrawn_handler (event : Event) (withdrawer : string)
    (amount newBalance : Z) (context : Mirror) : Mirror :=
  let eventId := eventId (transaction_hash event) (logIndex event) in
  let withdrawEvent :=
    BalanceWithdrawnEvent.mk eventId (toLowerCase withdrawer) amount newBalance
      (block_timestamp event) (block_number event) (transaction_hash event) in
  mkMirror (CounterIncrementedEvents context) (MessageUpdatedEvents context)
           (BalanceDepositedEvents context)
           (<[BalanceWithdrawnEvent.id withdrawEvent := withdrawEvent]>
              (BalanceWithdrawnEvents context))
           (StateSnapshotEvents context).

Definition StateSnapshot_handler (event : Event) (caller : string)
    (counter : Z) (message : string) (context : Mirror) : Mirror :=
  let eventId := eventId (transaction_hash event) (logIndex event) in
  let snapshotEvent :=
    StateSnapshotEvent.mk eventId (toLowerCase caller) counter message
      (block_timestamp event) (block_number event) (transaction_hash event) in
  mkMirror (CounterIncrementedEvents context) (MessageUpdatedEvents context)
           (BalanceDepositedEvents context) (BalanceWithdrawnEvents context)
           (<[StateSnapshotEvent.id snapshotEvent := snapshotEvent]>
              (StateSnapshotEvents context)).

(** The handler registered for the event's kind. *)
Definition handle (context : Mirror) (event : Event) : Mirror :=
  match args event with
  | CounterIncremented caller oldValue newValue =>
      CounterIncremented_handler event caller oldValue newValue context
  | MessageUpdated caller oldMessage newMessage =>
      MessageUpdated_handler event caller oldMessage newMessage context
  | BalanceDeposited depositor amount newBalance =>
      BalanceDeposited_handler event depositor amount newBalance context
  | BalanceWithdrawn withdrawer amount newBalance =>
      BalanceWithdrawn_handler event withdrawer amount newBalance context
  | StateSnapshot caller counter message =>
      StateSnapshot_handler event caller counter message context
  end.

Definition reconcile (stream : list Event) (context : Mirror) : Mirror :=
  fold_left handle stream context.

(** What each handler does to each table, as one keyed write. *)
Definition key (event : Event) : string :=
  eventId (transaction_hash event) (logIndex event).

Definition counter_write (event : Event)
    : Table.write CounterIncrementedEvent.t unit :=
  match args event with
  | CounterIncremented caller oldValue newValue =>
      Table.Put (key event)
        (CounterIncrementedEvent.mk (key event) (toLowerCase caller) oldValue
           newValue (block_timestamp event) (block_number event)
           (transaction_hash event))
  | _ => Table.Skip
  end.

Definition message_write (event : Event)
    : Table.write MessageUpdatedEvent.t unit :=
  match args event with
  | MessageUpdated caller oldMessage newMessage =>
      Table.Put (key event)
        (MessageUpdatedEvent.mk (key event) (toLowerCase caller) oldMessage
           newMessage (block_timestamp event) (block_number event)
           (transaction_hash event))
  | _ => Table.Skip
  end.

Definition deposit_write (event : Event)
    : Table.write BalanceDepositedEvent.t unit :=
  match args event with
  | BalanceDeposited depositor amount newBalance =>
      Table.Put (key event)
        (BalanceDepositedEvent.mk (key event) (toLowerCase depositor) amount
           newBalance (block_timestamp event) (block_number event)
           (transaction_hash event))
  | _ => Table.Skip
  end.

Definition withdraw_write (event : Event)
    : Table.write BalanceWithdrawnEvent.t unit :=
  match args event with
  | BalanceWithdrawn withdrawer amount newBalance =>
      Table.Put (key event)
        (BalanceWithdrawnEvent.mk (key event) (toLowerCase withdrawer) amount
           newBalance (block_timestamp event) (block_number event)
           (transaction_hash event))
  | _ => Table.Skip
  end.

Definition snapshot_write (event : Event)
    : Table.write StateSnapshotEvent.t unit :=
  match args event with
  | StateSnapshot caller counter message =>
      Table.Put (key event)
        (StateSnapshotEvent.mk (key event) (toLowerCase caller) counter message
           (block_timestamp event) (block_number event)
           (transaction_hash event))
  | _ => Table.Skip
  end.

(** The tables after the writes of a stream. *)
Definition written (stream : list Event) (context : Mirror) : Mirror :=
  mkMirror
    (Table.apply_writes Table.no_update
       (map counter_write stream) (CounterIncrementedEvents context))
    (Table.apply_writes Table.no_update
       (map message_write stream) (MessageUpdatedEvents context))
    (Table.apply_writes Table.no_update
       (map deposit_write stream) (BalanceDepositedEvents context))
    (Table.apply_writes Table.no_update
       (map withdraw_write stream) (BalanceWithdrawnEvents context))
    (Table.apply_writes Table.no_update
       (map snapshot_write stream) (StateSnapshotEvents context)).

End EnvioDemo.

(** ** The graph-ts handlers of the demo target ([handleCounterIncremented]
    and the others) *)

Module SubgraphDemo.

(** Modelled from the spec: the entity classes of [../generated/schema]
    are not among the sources; as for the ledger's entities, [save] is an
    upsert keyed by the entity's id. The rows hold the fields the
    handlers assign: the account the event names first ([caller],
    [depositor] or [withdrawer]) and where the event was logged. *)
Module CallerEvent.
(** [CounterIncrementedEvent], [MessageUpdatedEvent], [StateSnapshotEvent]. *)
Record t := mk {
  id : string;
  caller : string;
  timestamp : Z;
  blockNumber : Z;
  transactionHash : string }.
End CallerEvent.

Module BalanceDepositedEvent.
Record t := mk {
  id : string;
  depositor : string;
  timestamp : Z;
  blockNumber : Z;
  transactionHash : string }.
End BalanceDepositedEvent.

Module BalanceWithdrawnEvent.
Record t := mk {
  id : string;
  withdrawer : string;
  timestamp : Z;
  blockNumber : Z;
  transactionHash : string }.
End BalanceWithdrawnEvent.

Record Mirror := mkMirror {
  CounterIncrementedEvents : gmap string CallerEvent.t;
  MessageUpdatedEvents : gmap string CallerEvent.t;
  BalanceDepositedEvents : gmap string BalanceDepositedEvent.t;
  BalanceWithdrawnEvents : gmap string BalanceWithdrawnEvent.t;
  StateSnapshotEvents : gmap string CallerEvent.t }.

Definition empty : Mirror := mkMirror ∅ ∅ ∅ ∅ ∅.

(** An [ethereum.Event] of the demo target. *)
Record Event := mkEvent {
  parameters : HypnosDemo.Event;
  block_timestamp : Z;
  block_number : Z;
  transaction_hash : bytes;
  logIndex : N }.

Definition audit_id (event : Event) : string :=
  toHexString (transaction_hash event) ++ "-" ++ pretty (logIndex event).

Definition handleCounterIncremented (event : Event) (parameter0 : Z)
    (store : Mirror) : Mirror :=
  let caller := Subgraph.address_text parameter0 in
  let eventEntity :=
    CallerEvent.mk (audit_id event) caller (block_timestamp event)
      (block_number event) (toHexString (transaction_hash event)) in
  mkMirror (Subgraph.save CallerEvent.id eventEntity
              (CounterIncrementedEvents store))
           (MessageUpdatedEvents store) (BalanceDepositedEvents store)
           (BalanceWithdrawnEvents store) (StateSnapshotEvents store).

Definition handleMessageUpdated (event : Event) (parameter0 : Z)
    (store : Mirror) : Mirror :=
  let caller := Subgraph.address_text parameter0 in
  let eventEntity :=
    CallerEvent.mk (audit_id event) caller (block_timestamp event)
      (block_number event) (toHexString (transaction_hash event)) in
  mkMirror (CounterIncrementedEvents store)
           (Subgraph.save CallerEvent.id eventEntity (MessageUpdatedEvents store))
           (BalanceDepositedEvents store) (BalanceWithdrawnEvents store)
           (StateSnapshotEvents store).

Definition handleBalanceDeposited (event : Event) (parameter0 : Z)
    (store : Mirror) : Mirror :=
  let depositor := Subgraph.address_text parameter0 in
  let eventEntity :=
    BalanceDepositedEvent.mk (audit_id event) depositor (block_timestamp event)
      (block_number event) (toHexString (transaction_hash event)) in
  mkMirror (CounterIncrementedEvents store) (MessageUpdatedEvents store)
           (Subgraph.save BalanceDepositedEvent.id eventEntity
              (BalanceDepositedEvents store))
           (BalanceWithdrawnEvents store) (StateSnapshotEvents store).

Definition handleBalanceWithdrawn (event : Event) (parameter0 : Z)
    (store : Mirror) : Mirror :=
  let withdrawer := Subgraph.address_text parameter0 in
  let eventEntity :=
    BalanceWithdrawnEvent.mk (audit_id event) withdrawer (block_timestamp event)
      (block_number event) (toHexString (transaction_hash event)) in
  mkMirror (CounterIncrementedEvents store) (MessageUpdatedEvents store)
           (BalanceDepositedEvents store)
           (Subgraph.save BalanceWithdrawnEvent.id eventEntity
              (BalanceWithdrawnEvents store))
           (StateSnapshotEvents store).

Definition handleStateSnapshot (event : Event) (parameter0 : Z)
    (store : Mirror) : Mirror :=
  let caller := Subgraph.address_text parameter0 in
  let eventEntity :=
    CallerEvent.mk (audit_id event) caller (block_timestamp event)
      (block_number event) (toHexString (transaction_hash event)) in
  mkMirror (CounterIncrementedEvents store) (MessageUpdatedEvents store)
           (BalanceDepositedEvents store) (BalanceWithdrawnEvents store)
           (Subgraph.save CallerEvent.id eventEntity (StateSnapshotEvents store)).

(** [handleHypnosDemo]: the router on the event's name. *)
Definition handleHypnosDemo (store : Mirror) (event : Event) : Mirror :=
  match parameters event with
  | HypnosDemo.CounterIncremented caller _ _ _ =>
      handleCounterIncremented event caller store
  | HypnosDemo.MessageUpdated caller _ _ _ =>
      handleMessageUpdated event caller store
  | HypnosDemo.BalanceDeposited depositor _ _ _ =>
      handleBalanceDeposited event depositor store
  | HypnosDemo.BalanceWithdrawn withdrawer _ _ _ =>
      handleBalanceWithdrawn event withdrawer store
  | HypnosDemo.StateSnapshot caller _ _ _ =>
      handleStateSnapshot event caller store
  end.

Definition reconcile (stream : list Event) (store : Mirror) : Mirror :=
  fold_left handleHypnosDemo stream store.

(** The kinds of events, and how many events of a stream are of a kind. *)
Definition is_MessageUpdated (e : HypnosDemo.Event) : bool :=
  match e with HypnosDemo.MessageUpdated _ _ _ _ => true | _ => false end.
Definition is_BalanceDeposited (e : HypnosDemo.Event) : bool :=
  match e with HypnosDemo.BalanceDeposited _ _ _ _ => true | _ => false end.
Definition is_BalanceWithdrawn (e : HypnosDemo.Event) : bool :=
  match e with HypnosDemo.BalanceWithdrawn _ _ _ _ => true | _ => false end.
Definition is_StateSnapshot (e : HypnosDemo.Event) : bool :=
  match e with HypnosDemo.StateSnapshot _ _ _ _ => true | _ => false end.

Definition count (kind : HypnosDemo.Event -> bool) (stream : list Event) : nat :=
  length (List.filter (fun event => kind (parameters event)) stream).

(** A table holds [n] rows, all under keys of [keys]. *)
Definition holds {A : Type} (table : gmap string A) (n : nat)
    (keys : list string) : Prop :=
  size table = n /\ forall k, is_Some (table !! k) -> In k keys.

End SubgraphDemo.


(** ** Concrete streams of the indexers *)

Module StreamCases.

(** A [PermissionUsed] log, and two later logs: one of another
    transaction, one of the same transaction with another log index. *)
Definition used_event : Envio.Event :=
  Envio.mkEvent
    (Envio.PermissionUsed "0xA1" "0xc1" "0xe1" "0x71" "0x12345678" 0 true)
    1000 7 "0xabcd" 2.

Definition later_used_event : Envio.Event :=
  Envio.mkEvent
    (Envio.PermissionUsed "0xA1" "0xc1" "0xe2" "0x71" "0x12345678" 0 true)
    1001 8 "0xabce" 2.

Definition later_events : list Envio.Event :=
  [later_used_event; Scenario.envio_recorded_event].

(** The demo target after one increment and one deposit, and its two
    events as the graph-ts handlers receive them. *)
Definition demo_calls : list (HypnosExecutor.Block * HypnosDemo.Call) :=
  [(Scenario.block, HypnosDemo.CallIncrementCounter DemoCases.saver);
   (Scenario.block, HypnosDemo.CallDeposit DemoCases.saver 100)].

Definition demo_stream : list SubgraphDemo.Event :=
  [SubgraphDemo.mkEvent
     (HypnosDemo.CounterIncremented DemoCases.saver 0 1 1000)
     1000 7 (be_bytes 32 0xABCD) 0;
   SubgraphDemo.mkEvent
     (HypnosDemo.BalanceDeposited DemoCases.saver 100 100 1000)
     1000 7 (be_bytes 32 0xABCE) 0].

End StreamCases.


(** ** The permission helpers of the front end ([usePermissions]) *)

Module UsePermissions.

(** [HypnosPermission]: amounts are text (in ether), [expiry] and
    [grantedAt] are numbers. *)
Record HypnosPermission := mkHypnosPermission {
  id : string;
  permissionId : string;
  permissionsContext : option string;
  target : string;
  selector : string;
  maxValue : string;
  maxTokenAmount : string;
  tokenAddress : string;
  expiry : Z;
  active : bool;
  isNative : bool;
  grantedAt : Z }.

(** [hasValidPermission]; [now] is [Math.floor(Date.now() / 1000)], and
    [selector'] is [None] when the argument is left out. *)
Definition hasValidPermission (permissions : list HypnosPermission) (now : Z)
    (target' : string) (selector' : option string) : bool :=
  existsb
    (fun p =>
       active p
       && (expiry p >? now)
       && String.eqb (toLowerCase (target p)) (toLowerCase target')
       && match selector' with
          | None => true
          | Some s => String.eqb (selector p) "0x00000000" || String.eqb (selector p) s
          end)
    permissions.

(** The text of an address and of a selector, as hexadecimal. *)
Definition address_text (a : Z) : string := toHexString (be_bytes 20 a).
Definition selector_text (s : Z) : string := toHexString (be_bytes 4 s).

(** An entry of the list shows a capability of the ledger: the same
    flag and expiry, the target's address up to the case of its letters,
    the selector's four bytes. *)
Definition shows (p : HypnosPermission) (perm : HypnosExecutor.Permission.t)
    : Prop :=
  active p = HypnosExecutor.Permission.active perm
  /\ expiry p = HypnosExecutor.Permission.expiry perm
  /\ toLowerCase (target p)
     = address_text (HypnosExecutor.Permission.target perm)
  /\ selector p = selector_text (HypnosExecutor.Permission.selector perm).

End UsePermissions.

Module FrontEndCases.

(** The entry of the list for the capability of [Scenario.granted_until]. *)
Definition entry : UsePermissions.HypnosPermission :=
  UsePermissions.mkHypnosPermission "0xA1-1" "1" None
    "0x0000000000000000000000000000000000000071" "0x00000000" "0.0000000000000001"
    "0" "0x0000000000000000000000000000000000000000" 2000 true false 0.

End FrontEndCases.


(** * Properties of the capability ledger *)

Section LedgerProperties.

Import HypnosExecutor.

#[local] Arguments keccak256 : simpl never.
#[local] Arguments bytes4_of_bytes : simpl never.
#[local] Arguments be_bytes : simpl never.
#[local] Arguments permissionIdOf : simpl never.
#[local] Arguments executionIdOf : simpl never.
#[local] Arguments transferIdOf : simpl never.

Lemma getPermission_with_status st s a id :
  getPermission (with_status st s) a id = getPermission s a id.
Proof. reflexivity. Qed.

(** [abi.decode] fails with a bare revert or a panic, never with a
    [require] message. *)
Lemma abi_decode_string_not_Error len mem msg :
  abi_decode_string len mem <> Revert (Error msg).
Proof.
  unfold abi_decode_string.
  repeat match goal with |- context [if ?c then _ else _] => destruct c end;
    discriminate.
Qed.

Lemma extractRevertReason_not_Error returnData residue msg :
  _extractRevertReason returnData residue <> Revert (Error msg).
Proof.
  unfold _extractRevertReason.
  destruct (length returnData =? 0)%nat; [discriminate |].
  match goal with |- context [if ?c then _ else _] => destruct c end;
    [| discriminate].
  pose proof (abi_decode_string_not_Error
    (Z.of_nat (length returnData) mod 2 ^ 224 * 2 ^ 32 + be_word (firstn 4 returnData))
    (skipn 4 returnData ++ residue) msg) as H.
  destruct (abi_decode_string _ _); simpl; congruence.
Qed.

(** The gate, once the guard is passed and the six checks hold. *)
Lemma executeWithPermission_passed sender blk pid target data value callee s :
  status s = NOT_ENTERED ->
  Spec.earliest_violation
    (Spec.preconditions (getPermission s sender pid) target data value
       (timestamp blk)) = None ->
  executeWithPermission sender blk pid target data value callee s =
  let executionId := executionIdOf blk sender target data value in
  let r := low_level_call callee (with_status ENTERED s) in
  do reason <- (if call_success r then Ok "success"%string
                else _extractRevertReason (call_returnData r) (call_residue r));
  Ok (with_status NOT_ENTERED
        (emit (PermissionUsed sender pid executionId target
                 (bytes4_of_bytes data) value (call_success r))
           (emit (ExecutionRecorded executionId sender target
                    (bytes4_of_bytes data) value pid (call_success r) reason)
              (with_executionHistory
                 (executionHistory (call_ledger r) ++ [executionId])
                 (with_executions
                    (<[executionId :=
                         ExecutionRecord.mk sender target (bytes4_of_bytes data)
                           value data (timestamp blk) pid (call_success r) reason]>
                       (executions (call_ledger r)))
                    (call_ledger r))))),
      (call_success r, call_returnData r)).
Proof.
  intros Hst Hpass.
  unfold executeWithPermission, nonReentrant. rewrite Hst.
  unfold executeWithPermission_body. rewrite getPermission_with_status.
  unfold Spec.preconditions in Hpass. cbn [Spec.earliest_violation] in Hpass.
  repeat match type of Hpass with
         | (if ?c then _ else _) = None =>
             destruct c eqn:?; [| discriminate Hpass]
         end.
  cbv zeta.
  destruct (call_success _); [reflexivity |].
  destruct (_extractRevertReason _ _); reflexivity.
Qed.

(** C1. In a call that is not re-entrant, the six preconditions of
    [executeWithPermission] are checked in the order: capability exists,
    active, target, expiry, selector, value. The failures are six different
    ones, the call fails with that of the earliest precondition violated,
    whatever the later ones are, and with none of them when all six hold. *)
Theorem gate_reports_earliest_violation
    sender blk pid target data value callee s :
  status s = NOT_ENTERED ->
  NoDup [NotFound; Inactive; TargetMismatch; Expired; SelectorMismatch;
         ValueExceeded]
  /\ match Spec.earliest_violation
             (Spec.preconditions (getPermission s sender pid) target data value
                (timestamp blk)) with
     | Some failure =>
         executeWithPermission sender blk pid target data value callee s
         = Revert failure
     | None =>
         forall msg,
           executeWithPermission sender blk pid target data value callee s
           <> Revert (Error msg)
     end.
Proof.
  intros Hst. split.
  { apply (bool_decide_unpack _). vm_compute. reflexivity. }
  destruct (Spec.earliest_violation _) as [failure |] eqn:Hv.
  - unfold executeWithPermission, nonReentrant. rewrite Hst.
    unfold executeWithPermission_body. rewrite getPermission_with_status.
    unfold Spec.preconditions in Hv. cbn [Spec.earliest_violation] in Hv.
    repeat match type of Hv with
           | (if ?c then _ else _) = Some _ =>
               destruct c eqn:?; [| injection Hv as <-; reflexivity]
           end.
    discriminate Hv.
  - intros msg. rewrite (executeWithPermission_passed _ _ _ _ _ _ _ _ Hst Hv).
    cbv zeta. destruct (call_success _); [discriminate |].
    pose proof (extractRevertReason_not_Error
      (call_returnData (low_level_call callee (with_status ENTERED s)))
      (call_residue (low_level_call callee (with_status ENTERED s))) msg) as H.
    destruct (_extractRevertReason _ _); simpl; congruence.
Qed.

Lemma gate_reports_earliest_violation_witness :
  executeWithPermission Scenario.grantee Scenario.block Scenario.capability
    Scenario.target Scenario.payload 101 Scenario.quiet_callee Scenario.granted
  = Revert ValueExceeded.
Proof.
  exact (proj2 (gate_reports_earliest_violation Scenario.grantee
                  Scenario.block Scenario.capability Scenario.target
                  Scenario.payload 101 Scenario.quiet_callee
                  Scenario.granted eq_refl)).
Defined.

(** C3. A gated execution whose value is above the capability's
    [maxValue], the five earlier checks passing, fails with
    [ValueExceeded], and the ledger after the call is the ledger before
    it: no execution record, the same history, no event. *)
Theorem value_above_limit_leaves_no_trace
    sender blk pid target data value callee s :
  status s = NOT_ENTERED ->
  Permission.target (getPermission s sender pid) <> 0 ->
  Permission.active (getPermission s sender pid) = true ->
  Permission.target (getPermission s sender pid) = target ->
  (Permission.expiry (getPermission s sender pid) = 0
   \/ timestamp blk <= Permission.expiry (getPermission s sender pid)) ->
  (Permission.selector (getPermission s sender pid) = 0
   \/ Permission.selector (getPermission s sender pid) = bytes4_of_bytes data) ->
  Permission.maxValue (getPermission s sender pid) < value ->
  executeWithPermission sender blk pid target data value callee s
  = Revert ValueExceeded
  /\ settle s (executeWithPermission sender blk pid target data value callee s) = s
  /\ executions
       (settle s (executeWithPermission sender blk pid target data value callee s))
     = executions s
  /\ getExecutionCount
       (settle s (executeWithPermission sender blk pid target data value callee s))
     = getExecutionCount s
  /\ logs (settle s (executeWithPermission sender blk pid target data value callee s))
     = logs s.
Proof.
  intros Hst Hex Hact Htgt Hexp Hsel Hval.
  assert (Hr : executeWithPermission sender blk pid target data value callee s
               = Revert ValueExceeded).
  { unfold executeWithPermission, nonReentrant. rewrite Hst.
    unfold executeWithPermission_body. rewrite getPermission_with_status.
    apply Z.eqb_neq in Hex. rewrite Hex, Hact. cbn [negb].
    apply Z.eqb_eq in Htgt. rewrite Htgt.
    assert (He : (Permission.expiry (getPermission s sender pid) =? 0)
                 || (Permission.expiry (getPermission s sender pid) >=? timestamp blk)
                 = true).
    { apply orb_true_iff. destruct Hexp as [H | H];
        [left; apply Z.eqb_eq; exact H | right; apply Z.geb_le; exact H]. }
    rewrite He.
    assert (Hs : (Permission.selector (getPermission s sender pid) =? 0)
                 || (Permission.selector (getPermission s sender pid)
                     =? bytes4_of_bytes data) = true).
    { apply orb_true_iff. destruct Hsel as [H | H];
        [left | right]; apply Z.eqb_eq; exact H. }
    rewrite Hs.
    assert (Hv : (value <=? Permission.maxValue (getPermission s sender pid)) = false)
      by (apply Z.leb_gt; exact Hval).
    rewrite Hv. reflexivity. }
  rewrite Hr. cbn [settle]. repeat split; reflexivity.
Qed.

Lemma value_above_limit_leaves_no_trace_witness :
  executeWithPermission Scenario.grantee Scenario.block Scenario.capability
    Scenario.target Scenario.payload 101 Scenario.quiet_callee Scenario.granted
  = Revert ValueExceeded
  /\ logs (settle Scenario.granted
             (executeWithPermission Scenario.grantee Scenario.block
                Scenario.capability Scenario.target Scenario.payload 101
                Scenario.quiet_callee Scenario.granted))
     = logs Scenario.granted.
Proof.
  assert (H := value_above_limit_leaves_no_trace Scenario.grantee Scenario.block
    Scenario.capability Scenario.target Scenario.payload 101
    Scenario.quiet_callee Scenario.granted).
  destruct H as (H1 & _ & _ & _ & H5).
  - vm_compute; reflexivity.
  - vm_compute; discriminate.
  - vm_compute; reflexivity.
  - vm_compute; reflexivity.
  - left; vm_compute; reflexivity.
  - left; vm_compute; reflexivity.
  - vm_compute; reflexivity.
  - split; [exact H1 | exact H5].
Defined.

(** C4, as the code has it. For a capability with a non-zero expiry [E]:
    a gated execution at a time strictly after [E], the three earlier
    checks passing, fails with [Expired]; at any time up to and including
    [E] the call never fails with [Expired]. *)
Theorem expiry_is_inclusive sender blk pid target data value callee s :
  Permission.expiry (getPermission s sender pid) <> 0 ->
  (status s = NOT_ENTERED ->
   Permission.target (getPermission s sender pid) <> 0 ->
   Permission.active (getPermission s sender pid) = true ->
   Permission.target (getPermission s sender pid) = target ->
   Permission.expiry (getPermission s sender pid) < timestamp blk ->
   executeWithPermission sender blk pid target data value callee s
   = Revert Expired)
  /\ (timestamp blk <= Permission.expiry (getPermission s sender pid) ->
      executeWithPermission sender blk pid target data value callee s
      <> Revert Expired).
Proof.
  intros HE. split.
  - intros Hst Hex Hact Htgt Hlate.
    unfold executeWithPermission, nonReentrant. rewrite Hst.
    unfold executeWithPermission_body. rewrite getPermission_with_status.
    apply Z.eqb_neq in Hex. rewrite Hex, Hact. cbn [negb].
    apply Z.eqb_eq in Htgt. rewrite Htgt.
    apply Z.eqb_neq in HE. rewrite HE.
    assert (Hg : (Permission.expiry (getPermission s sender pid) >=? timestamp blk)
                 = false) by (rewrite Z.geb_leb; apply Z.leb_gt; exact Hlate).
    rewrite Hg. reflexivity.
  - intros Hearly.
    unfold executeWithPermission, nonReentrant.
    destruct (status s); [| discriminate].
    unfold executeWithPermission_body. rewrite getPermission_with_status.
    assert (Hg : (Permission.expiry (getPermission s sender pid) >=? timestamp blk)
                 = true) by (apply Z.geb_le; exact Hearly).
    rewrite Hg, orb_true_r.
    repeat match goal with
           | |- context [if ?c then _ else Revert _] =>
               destruct c; [| discriminate]
           end.
    cbv zeta.
    destruct (call_success _); [discriminate |].
    pose proof (extractRevertReason_not_Error
      (call_returnData (low_level_call callee (with_status ENTERED s)))
      (call_residue (low_level_call callee (with_status ENTERED s)))
      "HypnosExecutor: permission expired") as H.
    destruct (_extractRevertReason _ _); simpl; [discriminate | unfold Expired; congruence].
Qed.

Lemma expiry_is_inclusive_witness :
  executeWithPermission Scenario.grantee (mkBlock 2001 8)
    Scenario.capability_until Scenario.target Scenario.payload 0
    Scenario.quiet_callee Scenario.granted_until = Revert Expired.
Proof.
  refine (proj1 (expiry_is_inclusive Scenario.grantee (mkBlock 2001 8)
                   Scenario.capability_until Scenario.target Scenario.payload 0
                   Scenario.quiet_callee Scenario.granted_until _) _ _ _ _ _).
  - vm_compute; discriminate.
  - vm_compute; reflexivity.
  - vm_compute; discriminate.
  - vm_compute; reflexivity.
  - vm_compute; reflexivity.
  - vm_compute; reflexivity.
Defined.

(** C4 as stated fails at the boundary: at time [E] itself the capability
    with expiry [E = 2000] still passes, and the call succeeds. *)
Lemma expiry_boundary_counterexample :
  Permission.expiry
    (getPermission Scenario.granted_until Scenario.grantee
       Scenario.capability_until) = 2000
  /\ 2000 <= timestamp (mkBlock 2000 8)
  /\ exists s',
       executeWithPermission Scenario.grantee (mkBlock 2000 8)
         Scenario.capability_until Scenario.target Scenario.payload 0
         Scenario.quiet_callee Scenario.granted_until = Ok s'.
Proof.
  split; [vm_compute; reflexivity |].
  split; [vm_compute; discriminate |].
  vm_compute. eexists. reflexivity.
Qed.

(** C8, as the code has it. A second revoke of a capability that the
    caller already revoked succeeds and leaves every stored value as it
    was, and it emits a further [PermissionRevoked] event; a revoke by a
    caller with no record under the identifier fails with [NotFound]. *)
Theorem second_revoke_emits_again sender pid s :
  (Permission.target (getPermission s sender pid) <> 0 ->
   Permission.active (getPermission s sender pid) = false ->
   exists s',
     revokePermission sender pid s = Ok (s', tt)
     /\ permissions s' = permissions s
     /\ userPermissions s' = userPermissions s
     /\ executions s' = executions s
     /\ executionHistory s' = executionHistory s
     /\ logs s' = logs s ++ [PermissionRevoked sender pid])
  /\ (Permission.target (getPermission s sender pid) = 0 ->
      revokePermission sender pid s = Revert NotFound).
Proof.
  split.
  - intros Hex Hact. unfold revokePermission.
    apply Z.eqb_neq in Hex. rewrite Hex. cbn [negb].
    eexists. split; [reflexivity |]. cbn.
    repeat split; try reflexivity.
    apply insert_id. unfold getPermission in *.
    destruct (permissions s !! (sender, pid)) as [perm |] eqn:Hl; cbn in *.
    + f_equal. destruct perm; cbn in *. subst. reflexivity.
    + discriminate.
  - intros Hnone. unfold revokePermission.
    apply Z.eqb_eq in Hnone. rewrite Hnone. reflexivity.
Qed.

Lemma second_revoke_emits_again_witness :
  exists s',
    revokePermission Scenario.grantee Scenario.capability Scenario.revoked
    = Ok (s', tt)
    /\ permissions s' = permissions Scenario.revoked
    /\ userPermissions s' = userPermissions Scenario.revoked
    /\ executions s' = executions Scenario.revoked
    /\ executionHistory s' = executionHistory Scenario.revoked
    /\ logs s' = logs Scenario.revoked
                 ++ [PermissionRevoked Scenario.grantee Scenario.capability].
Proof.
  refine (proj1 (second_revoke_emits_again Scenario.grantee Scenario.capability
                   Scenario.revoked) _ _).
  - vm_compute; discriminate.
  - vm_compute; reflexivity.
Defined.

(** C8 as stated fails: the second revoke of the capability revoked in
    [Scenario.revoked] succeeds, and the log grows by one more
    [PermissionRevoked] event. *)
Lemma second_revoke_counterexample :
  Permission.active
    (getPermission Scenario.revoked Scenario.grantee Scenario.capability) = false
  /\ logs Scenario.revoked
     = [PermissionGranted Scenario.grantee Scenario.capability Scenario.target
          0 100 0 0 0;
        PermissionRevoked Scenario.grantee Scenario.capability]
  /\ logs (settle Scenario.revoked
             (revokePermission Scenario.grantee Scenario.capability
                Scenario.revoked))
     = [PermissionGranted Scenario.grantee Scenario.capability Scenario.target
          0 100 0 0 0;
        PermissionRevoked Scenario.grantee Scenario.capability;
        PermissionRevoked Scenario.grantee Scenario.capability].
Proof. repeat split; vm_compute; reflexivity. Qed.

(** C10. Granting is open to every caller: whenever the target is not the
    zero address and the expiry is 0 or after the block's time,
    [grantPermission] succeeds in every ledger state (whatever roles it
    holds), stores an active capability for the named executor under the
    derived identifier, lists the identifier for the executor and emits
    [PermissionGranted]; the outcome does not depend on the caller. *)
Theorem grant_is_permissionless
    caller blk executor target selector maxValue maxTokenAmount tokenAddress
    expiry s :
  target <> 0 ->
  expiry = 0 \/ timestamp blk < expiry ->
  exists s',
    grantPermission caller blk executor target selector maxValue maxTokenAmount
      tokenAddress expiry s
    = Ok (s', permissionIdOf blk executor target selector maxValue
                maxTokenAmount tokenAddress expiry)
    /\ getPermission s' executor
         (permissionIdOf blk executor target selector maxValue
            maxTokenAmount tokenAddress expiry)
       = Permission.mk target selector maxValue maxTokenAmount tokenAddress
           expiry true
    /\ getUserPermissions s' executor
       = getUserPermissions s executor
         ++ [permissionIdOf blk executor target selector maxValue
               maxTokenAmount tokenAddress expiry]
    /\ logs s'
       = logs s
         ++ [PermissionGranted executor
               (permissionIdOf blk executor target selector maxValue
                  maxTokenAmount tokenAddress expiry)
               target selector maxValue maxTokenAmount tokenAddress expiry]
    /\ roles s' = roles s
    /\ forall caller',
         grantPermission caller' blk executor target selector maxValue
           maxTokenAmount tokenAddress expiry s
         = grantPermission caller blk executor target selector maxValue
             maxTokenAmount tokenAddress expiry s.
Proof.
  intros Htarget Hexpiry. unfold grantPermission.
  apply Z.eqb_neq in Htarget. rewrite Htarget. cbn [negb].
  assert (He : (expiry =? 0) || (expiry >? timestamp blk) = true).
  { apply orb_true_iff. destruct Hexpiry as [H | H];
      [left; apply Z.eqb_eq; exact H | right; apply Z.gtb_lt; exact H]. }
  rewrite He. cbv zeta. eexists. split; [reflexivity |].
  unfold getPermission, getUserPermissions. cbn.
  rewrite !lookup_insert_eq. cbn.
  repeat split; reflexivity.
Qed.

Lemma grant_is_permissionless_witness :
  exists s',
    grantPermission 0xBEEF Scenario.block Scenario.grantee Scenario.target 0 100
      0 0 0 (constructor Scenario.deployer)
    = Ok (s', permissionIdOf Scenario.block Scenario.grantee
                Scenario.target 0 100 0 0 0)
    /\ Permission.active
         (getPermission s' Scenario.grantee
            (permissionIdOf Scenario.block Scenario.grantee
               Scenario.target 0 100 0 0 0)) = true.
Proof.
  destruct (grant_is_permissionless 0xBEEF Scenario.block Scenario.grantee
              Scenario.target 0 100 0 0 0 (constructor Scenario.deployer))
    as (s' & H1 & H2 & _).
  - vm_compute; discriminate.
  - left; reflexivity.
  - exists s'. split; [exact H1 |]. rewrite H2. reflexivity.
Defined.

(** ** Revert-reason extraction *)

Lemma length_le_bytes n z : length (le_bytes n z) = n.
Proof. revert z. induction n as [| n IH]; intros z; cbn; [| rewrite IH]; reflexivity. Qed.

Lemma length_be_bytes n z : length (be_bytes n z) = n.
Proof.
  unfold be_bytes. rewrite length_rev.
  apply length_le_bytes.
Qed.

Lemma be_word_snoc bs b : be_word (bs ++ [b]) = be_word bs * 256 + b.
Proof. unfold be_word. rewrite fold_left_app. reflexivity. Qed.

Lemma be_word_rev bs : be_word (rev bs) = le_word bs.
Proof.
  induction bs as [| b bs IH]; [reflexivity |].
  change (rev (b :: bs)) with (rev bs ++ [b]).
  rewrite be_word_snoc, IH. cbn [le_word]. lia.
Qed.

Lemma le_word_le_bytes n z : le_word (le_bytes n z) = z mod 256 ^ Z.of_nat n.
Proof.
  revert z. induction n as [| n IH]; intros z.
  - cbn. symmetry. apply Z.mod_1_r.
  - cbn [le_bytes le_word]. rewrite IH, Nat2Z.inj_succ, Z.pow_succ_r by lia.
    rewrite Z.rem_mul_r by lia. reflexivity.
Qed.

(** A value written in [n] big-endian bytes reads back modulo [256 ^ n]. *)
Lemma be_word_be_bytes n z : be_word (be_bytes n z) = z mod 256 ^ Z.of_nat n.
Proof. unfold be_bytes. rewrite be_word_rev. apply le_word_le_bytes. Qed.

Lemma mread_middle (pre x post : bytes) :
  mread (pre ++ x ++ post) (Z.of_nat (length pre)) (Z.of_nat (length x)) = x.
Proof.
  unfold mread. rewrite !Nat2Z.id.
  rewrite skipn_app, skipn_all, Nat.sub_diag. cbn [app].
  rewrite skipn_O, <- app_assoc, firstn_app, firstn_all, Nat.sub_diag.
  rewrite firstn_O. apply app_nil_r.
Qed.

Lemma string_of_bytes_of_string reason :
  string_of_bytes (bytes_of_string reason) = reason.
Proof.
  unfold string_of_bytes, bytes_of_string. rewrite map_map.
  rewrite (map_ext _ (fun c => c)).
  - rewrite map_id. apply string_of_list_ascii_of_string.
  - intros c. rewrite N2Z.id. apply ascii_N_embedding.
Qed.

Lemma length_encode_Error reason :
  length (Spec.encode_Error reason)
  = (68 + length (bytes_of_string reason)
     + (32 - length (bytes_of_string reason) mod 32) mod 32)%nat.
Proof.
  unfold Spec.encode_Error. cbv zeta.
  rewrite !length_app, !length_be_bytes, repeat_length. cbn [length]. lia.
Qed.

(** Empty return data: the fallback ["unknown error"]. *)
Lemma extractRevertReason_empty residue :
  _extractRevertReason [] residue = Ok "unknown error"%string.
Proof. reflexivity. Qed.

(** Return data shorter than 68 bytes, or not opening with the
    [Error(string)] selector: the fallback ["execution reverted"]. *)
Lemma extractRevertReason_unstructured returnData residue :
  returnData <> [] ->
  (length returnData < 68)%nat \/ firstn 4 returnData <> [0x08; 0xc3; 0x79; 0xa0] ->
  _extractRevertReason returnData residue = Ok "execution reverted"%string.
Proof.
  intros Hne Hshape. unfold _extractRevertReason.
  destruct returnData as [| b0 rest]; [congruence |]. cbn [length Nat.eqb].
  destruct Hshape as [Hshort | Hsel].
  - assert (H : (68 <=? length (b0 :: rest))%nat = false)
      by (apply Nat.leb_gt; exact Hshort).
    cbn [length] in H. rewrite H. reflexivity.
  - destruct (68 <=? S (length rest))%nat eqn:Hlen; [| reflexivity].
    apply Nat.leb_le in Hlen.
    destruct rest as [| b1 [| b2 [| b3 rest]]]; cbn [length] in Hlen; try lia.
    cbn [nth firstn] in *.
    destruct (b0 =? 8) eqn:E0; [| reflexivity].
    destruct (b1 =? 195) eqn:E1; [| reflexivity].
    destruct (b2 =? 121) eqn:E2; [| reflexivity].
    destruct (b3 =? 160) eqn:E3; [| reflexivity].
    apply Z.eqb_eq in E0, E1, E2, E3. subst. exfalso. apply Hsel. reflexivity.
Qed.

(** A well-formed [Error(reason)] payload: the reason itself, whatever
    lies in memory behind the returned bytes. *)
Lemma extractRevertReason_decodes reason residue :
  Z.of_nat (String.length reason) < 2 ^ 64 ->
  _extractRevertReason (Spec.encode_Error reason) residue = Ok reason.
Proof.
  intros Hlen.
  assert (Hn : length (bytes_of_string reason) = String.length reason).
  { unfold bytes_of_string. rewrite length_map.
    clear. induction reason as [| c r IH]; cbn; [| rewrite IH]; reflexivity. }
  pose proof (length_encode_Error reason) as HL.
  set (n := length (bytes_of_string reason)) in *.
  set (pad := ((32 - n mod 32) mod 32)%nat) in *.
  assert (Hpad : (pad < 32)%nat) by (apply Nat.mod_upper_bound; lia).
  unfold _extractRevertReason. rewrite HL.
  replace ((68 + n + pad =? 0)%nat) with false by (symmetry; apply Nat.eqb_neq; lia).
  replace ((68 <=? 68 + n + pad)%nat) with true by (symmetry; apply Nat.leb_le; lia).
  unfold Spec.encode_Error at 1 2 3 4 5 6. cbv zeta. fold n. fold pad.
  cbn [app nth firstn skipn Z.eqb Pos.eqb andb].
  set (mem := be_bytes 32 32 ++ be_bytes 32 (Z.of_nat n)
              ++ bytes_of_string reason ++ repeat 0 pad).
  rewrite firstn_O, skipn_O.
  change (be_word [8; 195; 121; 160]) with 147028384.
  assert (HLz : Z.of_nat (68 + n + pad) mod 2 ^ 224 = Z.of_nat (68 + n + pad))
    by (apply Z.mod_small; lia).
  rewrite HLz. unfold abi_decode_string.
  assert (Hslt : slt (Z.of_nat (68 + n + pad) * 2 ^ 32 + 147028384) 32 = false).
  { unfold slt, signed256.
    replace (Z.of_nat (68 + n + pad) * 2 ^ 32 + 147028384 <? 2 ^ 255) with true
      by (symmetry; apply Z.ltb_lt; lia).
    change (32 <? 2 ^ 255) with true. cbv iota.
    apply Z.ltb_ge. lia. }
  rewrite Hslt.
  assert (Hoff : mload (mem ++ residue) 0 = 32).
  { unfold mload, mem.
    pose proof (mread_middle [] (be_bytes 32 32)
                  ((be_bytes 32 (Z.of_nat n) ++ bytes_of_string reason
                    ++ repeat 0 pad) ++ residue)) as H.
    rewrite length_be_bytes in H. cbn [length app Z.of_nat] in H.
    rewrite <- !app_assoc. rewrite <- !app_assoc in H.
    change (Z.of_nat 32) with 32 in H. change (Z.of_nat 0) with 0 in H.
    rewrite H, be_word_be_bytes. reflexivity. }
  rewrite Hoff. change (32 >? 18446744073709551615) with false. cbv iota.
  change (32 + 31) with 63. change (32 + 32) with 64.
  replace (63 <? Z.of_nat (68 + n + pad) * 2 ^ 32 + 147028384) with true
    by (symmetry; apply Z.ltb_lt; lia).
  cbn [negb].
  assert (Hlenw : mload (mem ++ residue) 32 = Z.of_nat n).
  { unfold mload, mem.
    pose proof (mread_middle (be_bytes 32 32) (be_bytes 32 (Z.of_nat n))
                  ((bytes_of_string reason ++ repeat 0 pad) ++ residue)) as H.
    rewrite !length_be_bytes in H. change (Z.of_nat 32) with 32 in H.
    rewrite <- !app_assoc. rewrite <- !app_assoc in H. rewrite H.
    rewrite be_word_be_bytes. apply Z.mod_small. fold n in Hn. lia. }
  rewrite Hlenw.
  replace (Z.of_nat n >? 18446744073709551615) with false
    by (symmetry; rewrite Z.gtb_ltb; apply Z.ltb_ge; fold n in Hn; lia).
  replace (64 + Z.of_nat n >? Z.of_nat (68 + n + pad) * 2 ^ 32 + 147028384)
    with false by (symmetry; rewrite Z.gtb_ltb; apply Z.ltb_ge; lia).
  assert (Hbody : mread (mem ++ residue) 64 (Z.of_nat n) = bytes_of_string reason).
  { unfold mem.
    pose proof (mread_middle (be_bytes 32 32 ++ be_bytes 32 (Z.of_nat n))
                  (bytes_of_string reason) (repeat 0 pad ++ residue)) as H.
    rewrite length_app, !length_be_bytes in H. change (Z.of_nat (32 + 32)) with 64 in H.
    fold n in H. rewrite <- !app_assoc. rewrite <- !app_assoc in H. exact H. }
  rewrite Hbody. cbn [bind]. rewrite string_of_bytes_of_string. reflexivity.
Qed.

(** C9, at a failing input. Return data of 68 bytes that opens with the
    selector [0x08c379a0] and whose string offset is above [2^64 - 1] makes
    [_extractRevertReason] revert inside [abi.decode], whatever lies in
    memory behind it: neither fallback string is returned. *)
Theorem malformed_reason_reverts_extraction residue :
  length Scenario.malformed_reason = 68%nat
  /\ firstn 4 Scenario.malformed_reason = [0x08; 0xc3; 0x79; 0xa0]
  /\ _extractRevertReason Scenario.malformed_reason residue
     = Revert AbiDecodeRevert.
Proof. repeat split; vm_compute; reflexivity. Qed.

(** ** Calls back into the ledger *)

Lemma invoke_CallExecute blk sender pid target data value ok ret residue cs s :
  invoke blk (CallExecute sender pid target data value ok ret residue cs) s
  = forget
      (executeWithPermission sender blk pid target data value
         (fun s1 => mkCallResult ok ret residue (callbacks blk cs s1)) s).
Proof. reflexivity. Qed.

Lemma invoke_CallTokenTransfer blk sender pid token to amount failed cs s :
  invoke blk (CallTokenTransfer sender pid token to amount failed cs) s
  = forget
      (executeTokenTransfer sender blk pid token to amount
         (fun s1 =>
            match failed with
            | Some failure => Revert failure
            | None => Ok (callbacks blk cs s1)
            end) s).
Proof. reflexivity. Qed.

Lemma callbacks_cons blk c cs s :
  callbacks blk (c :: cs) s = callbacks blk cs (settle s (invoke blk c s)).
Proof. reflexivity. Qed.

(** While a gated call runs the guard is set, and a call back into
    [executeWithPermission] or [executeTokenTransfer] is refused. *)
Lemma reentrant_call_refused blk c s :
  status s = ENTERED ->
  match c with
  | CallExecute _ _ _ _ _ _ _ _ _ | CallTokenTransfer _ _ _ _ _ _ _ =>
      invoke blk c s = Revert ReentrancyGuardReentrantCall
  | _ => True
  end.
Proof.
  intros Hst. destruct c; [exact I | exact I | |].
  - rewrite invoke_CallExecute. unfold executeWithPermission, nonReentrant.
    rewrite Hst. reflexivity.
  - rewrite invoke_CallTokenTransfer. unfold executeTokenTransfer, nonReentrant.
    rewrite Hst. reflexivity.
Qed.

Section Preservation.

(** A property of the stored capabilities and of the identifier lists
    that every permitted grant and every revoke keeps. *)
Variable P : gmap (Z * Z) Permission.t -> gmap Z (list Z) -> Prop.
Variable permitted : Z * Z -> Prop.

Hypothesis P_grant :
  forall perms ups executor pid perm,
    permitted (executor, pid) ->
    Permission.target perm <> 0 -> Permission.active perm = true ->
    P perms ups ->
    P (<[(executor, pid) := perm]> perms)
      (<[executor := default [] (ups !! executor) ++ [pid]]> ups).

Hypothesis P_revoke :
  forall perms ups sender pid,
    Permission.target (default Permission.zero (perms !! (sender, pid))) <> 0 ->
    P perms ups ->
    P (<[(sender, pid) :=
           Permission.set_active false
             (default Permission.zero (perms !! (sender, pid)))]> perms) ups.

Local Abbreviation holds s := (P (permissions s) (userPermissions s)).

Lemma grant_preserves sender blk executor target selector maxValue
    maxTokenAmount tokenAddress expiry s :
  permitted (executor, permissionIdOf blk executor target selector maxValue
                         maxTokenAmount tokenAddress expiry) ->
  holds s ->
  holds (settle s (grantPermission sender blk executor target selector maxValue
                     maxTokenAmount tokenAddress expiry s))
  /\ status (settle s (grantPermission sender blk executor target selector
                         maxValue maxTokenAmount tokenAddress expiry s))
     = status s.
Proof.
  intros Hk HP. unfold grantPermission.
  destruct (negb (target =? 0)) eqn:Ht; [| split; [exact HP | reflexivity]].
  destruct ((expiry =? 0) || (expiry >? timestamp blk));
    [| split; [exact HP | reflexivity]].
  split; [| reflexivity].
  cbn. apply P_grant; [exact Hk | | reflexivity | exact HP].
  cbn. apply Z.eqb_neq. apply negb_true_iff. exact Ht.
Qed.

Lemma revoke_preserves sender pid s :
  holds s ->
  holds (settle s (revokePermission sender pid s))
  /\ status (settle s (revokePermission sender pid s)) = status s.
Proof.
  intros HP. unfold revokePermission.
  destruct (negb (Permission.target (getPermission s sender pid) =? 0)) eqn:Ht;
    [| split; [exact HP | reflexivity]].
  split; [| reflexivity].
  cbn. apply P_revoke; [| exact HP].
  apply Z.eqb_neq. apply negb_true_iff. exact Ht.
Qed.

Lemma settle_forget {A} s (r : result (Ledger * A)) :
  settle s (forget r) = settle s r.
Proof. destruct r as [[s' x] | f]; reflexivity. Qed.

Lemma callback_preserves blk c s :
  status s = ENTERED ->
  Forall permitted (Spec.own_grant blk c) ->
  holds s ->
  holds (settle s (invoke blk c s))
  /\ status (settle s (invoke blk c s)) = ENTERED.
Proof.
  intros Hst Hk HP.
  pose proof (reentrant_call_refused blk c s Hst) as Href.
  destruct c.
  - cbn [invoke]. rewrite settle_forget, <- Hst.
    apply grant_preserves; [| exact HP].
    cbn [Spec.own_grant] in Hk. inversion Hk; assumption.
  - cbn [invoke]. rewrite <- Hst. apply revoke_preserves. exact HP.
  - rewrite Href. split; [exact HP | exact Hst].
  - rewrite Href. split; [exact HP | exact Hst].
Qed.

Lemma callbacks_preserve blk cs s :
  status s = ENTERED ->
  Forall permitted (flat_map (Spec.own_grant blk) cs) ->
  holds s ->
  holds (callbacks blk cs s) /\ status (callbacks blk cs s) = ENTERED.
Proof.
  revert s. induction cs as [| c cs IH]; intros s Hst Hk HP.
  - split; [exact HP | exact Hst].
  - rewrite callbacks_cons. cbn [flat_map] in Hk.
    apply Forall_app in Hk. destruct Hk as [Hc Hcs].
    destruct (callback_preserves blk c s Hst Hc HP) as [HP' Hst'].
    apply IH; assumption.
Qed.

Lemma transact_preserves s tx :
  Forall permitted (Spec.grants_of tx) ->
  holds s -> holds (transact s tx).
Proof.
  destruct tx as [blk c]. unfold transact, Spec.grants_of. cbn [fst snd].
  intros Hk HP. destruct c.
  - cbn [invoke]. rewrite settle_forget.
    apply grant_preserves; [| exact HP].
    cbn [Spec.own_grant] in Hk. inversion Hk; assumption.
  - cbn [invoke]. apply revoke_preserves. exact HP.
  - rewrite invoke_CallExecute, settle_forget.
    unfold executeWithPermission, nonReentrant.
    destruct (status s) eqn:Hst; [| exact HP].
    unfold executeWithPermission_body.
    repeat match goal with
           | |- context [if ?c then _ else Revert _] =>
               destruct c; [| exact HP]
           end.
    cbv zeta. unfold low_level_call. cbn [call_success call_returnData call_residue].
    destruct inner_success.
    + cbn [call_success call_ledger bind settle fst snd].
      cbn [permissions userPermissions with_status emit
           with_executionHistory with_executions].
      apply (callbacks_preserve blk reentrant (with_status ENTERED s));
        [reflexivity | exact Hk | exact HP].
    + cbn [call_success call_returnData call_residue call_ledger].
      destruct (_extractRevertReason _ _); [| exact HP].
      exact HP.
  - rewrite invoke_CallTokenTransfer, settle_forget.
    unfold executeTokenTransfer, nonReentrant.
    destruct (status s) eqn:Hst; [| exact HP].
    unfold executeTokenTransfer_body.
    repeat match goal with
           | |- context [if ?c then _ else Revert _] =>
               destruct c; [| exact HP]
           end.
    cbv zeta. destruct failure; [exact HP |].
    cbn [bind settle fst snd].
    cbn [permissions userPermissions with_status emit
         with_executionHistory with_executions].
    apply (callbacks_preserve blk reentrant (with_status ENTERED s));
      [reflexivity | exact Hk | exact HP].
Qed.

Lemma run_preserves txs s :
  (forall tx, In tx txs -> Forall permitted (Spec.grants_of tx)) ->
  holds s -> holds (run txs s).
Proof.
  revert s. induction txs as [| tx txs IH]; intros s Hk HP; [exact HP |].
  cbn [run fold_left]. apply IH.
  - intros tx' Hin. apply Hk. right. exact Hin.
  - apply transact_preserves; [apply Hk; left; reflexivity | exact HP].
Qed.

End Preservation.

(** The part of the terminal-revocation property that holds. A capability
    stored under an identifier stays stored under it through every run of grants, revokes, gated
    executions and token transfers (with the calls their callees make
    back), and the grantee's list of identifiers only grows at its end.
    Once the capability is inactive it stays inactive as long as no
    grant of the run derives the same identifier for the same executor;
    revoke and the two execute paths never set [active] to true. *)
Lemma revocation_is_terminal_absent_regrant txs s a id :
  Permission.target (getPermission s a id) <> 0 ->
  (Permission.target (getPermission (run txs s) a id) <> 0
   /\ exists more,
        getUserPermissions (run txs s) a = getUserPermissions s a ++ more)
  /\ (Permission.active (getPermission s a id) = false ->
      (forall tx, In tx txs -> ~ In (a, id) (Spec.grants_of tx)) ->
      Permission.active (getPermission (run txs s) a id) = false).
Proof.
  intros Hstored. split.
  - apply (run_preserves
             (fun perms ups =>
                Permission.target (default Permission.zero (perms !! (a, id))) <> 0
                /\ exists more,
                     default [] (ups !! a) = getUserPermissions s a ++ more)
             (fun _ => True)).
    + intros perms ups executor pid perm _ Ht _ [Hs [more Hm]]. split.
      * destruct (decide ((executor, pid) = (a, id))) as [-> | Hne].
        -- rewrite lookup_insert_eq. exact Ht.
        -- rewrite lookup_insert_ne by exact Hne. exact Hs.
      * destruct (decide (executor = a)) as [-> | Hne].
        -- rewrite lookup_insert_eq. cbn. rewrite Hm.
           exists (more ++ [pid]). rewrite app_assoc. reflexivity.
        -- rewrite lookup_insert_ne by exact Hne. exists more. exact Hm.
    + intros perms ups sender pid Ht [Hs Hm]. split; [| exact Hm].
      destruct (decide ((sender, pid) = (a, id))) as [E | Hne].
      * rewrite E in *. rewrite lookup_insert_eq. cbn. exact Hs.
      * rewrite lookup_insert_ne by exact Hne. exact Hs.
    + intros tx _. apply Forall_forall. intros; exact I.
    + split; [exact Hstored | exists []; symmetry; apply app_nil_r].
  - intros Hinactive Hfresh.
    apply (run_preserves
             (fun perms _ =>
                Permission.active (default Permission.zero (perms !! (a, id)))
                = false)
             (fun k => k <> (a, id))).
    + intros perms ups executor pid perm Hk _ _ Hs.
      rewrite lookup_insert_ne by exact Hk. exact Hs.
    + intros perms ups sender pid _ Hs.
      destruct (decide ((sender, pid) = (a, id))) as [E | Hne].
      * rewrite E. rewrite lookup_insert_eq. reflexivity.
      * rewrite lookup_insert_ne by exact Hne. exact Hs.
    + intros tx Hin. apply Forall_forall. intros k Hk ->.
      apply (Hfresh tx Hin). apply list_elem_of_In. exact Hk.
    + exact Hinactive.
Qed.

Lemma revocation_is_terminal_absent_regrant_witness :
  Permission.active
    (getPermission
       (run [(Scenario.block,
              CallExecute Scenario.grantee Scenario.capability Scenario.target
                Scenario.payload 5 true [] []
                [CallRevoke Scenario.grantee Scenario.capability;
                 CallGrant Scenario.deployer Scenario.grantee Scenario.target
                   0 100 0 0 9999]);
             (mkBlock 1001 8, Scenario.grant)]
          Scenario.revoked)
       Scenario.grantee Scenario.capability) = false.
Proof.
  refine (proj2 (revocation_is_terminal_absent_regrant _ Scenario.revoked
                   Scenario.grantee Scenario.capability _) _ _).
  - vm_compute; discriminate.
  - vm_compute; reflexivity.
  - intros tx [<- | [<- | []]]; vm_compute; intros [H | []]; discriminate H.
Defined.

(** C7, at a failing input. [grantPermission] documents its result as
    the unique identifier of the permission, and derives it from the
    grant's parameters and the block only. Granting, revoking and
    granting again with the same parameters in the same block derives the
    same identifier twice: the second grant overwrites the revoked
    capability, which is active again, and the executor's list holds the
    identifier twice. *)
Theorem same_block_regrant_reactivates_revoked_capability :
  permissionIdOf Scenario.block Scenario.grantee Scenario.target 0 100 0 0 0
  = Scenario.capability
  /\ Permission.active
       (getPermission
          (run [(Scenario.block, Scenario.grant);
                (Scenario.block, CallRevoke Scenario.grantee Scenario.capability)]
             (constructor Scenario.deployer))
          Scenario.grantee Scenario.capability) = false
  /\ Permission.active
       (getPermission
          (run [(Scenario.block, Scenario.grant);
                (Scenario.block, CallRevoke Scenario.grantee Scenario.capability);
                (Scenario.block, Scenario.grant)]
             (constructor Scenario.deployer))
          Scenario.grantee Scenario.capability) = true
  /\ getUserPermissions
       (run [(Scenario.block, Scenario.grant);
             (Scenario.block, CallRevoke Scenario.grantee Scenario.capability);
             (Scenario.block, Scenario.grant)]
          (constructor Scenario.deployer))
       Scenario.grantee
     = [Scenario.capability; Scenario.capability].
Proof. repeat split; vm_compute; reflexivity. Qed.

(** ** Gated executions that pass the gate *)

(** Calls back from the callee leave the execution records and the
    history alone, and emit neither [ExecutionRecorded] nor
    [PermissionUsed]. *)
Lemma callbacks_emit_no_execution blk cs s :
  status s = ENTERED ->
  executions (callbacks blk cs s) = executions s
  /\ executionHistory (callbacks blk cs s) = executionHistory s
  /\ exists evs,
       logs (callbacks blk cs s) = logs s ++ evs
       /\ List.filter Spec.is_ExecutionRecorded evs = []
       /\ List.filter Spec.is_PermissionUsed evs = [].
Proof.
  revert s. induction cs as [| c cs IH]; intros s Hst.
  - repeat split; try reflexivity.
    exists []. rewrite app_nil_r. repeat split; reflexivity.
  - rewrite callbacks_cons.
    pose proof (reentrant_call_refused blk c s Hst) as Href.
    assert (Hstep :
      status (settle s (invoke blk c s)) = ENTERED
      /\ executions (settle s (invoke blk c s)) = executions s
      /\ executionHistory (settle s (invoke blk c s)) = executionHistory s
      /\ exists evs,
           logs (settle s (invoke blk c s)) = logs s ++ evs
           /\ List.filter Spec.is_ExecutionRecorded evs = []
           /\ List.filter Spec.is_PermissionUsed evs = []).
    { destruct c.
      - cbn [invoke]. unfold grantPermission.
        destruct (negb (target =? 0));
          [| repeat split; try assumption; exists []; rewrite app_nil_r;
             repeat split; reflexivity].
        destruct ((expiry =? 0) || (expiry >? timestamp blk));
          [| repeat split; try assumption; exists []; rewrite app_nil_r;
             repeat split; reflexivity].
        cbn. repeat split; try assumption.
        eexists. split; [reflexivity |]. split; reflexivity.
      - cbn [invoke]. unfold revokePermission.
        destruct (negb (Permission.target (getPermission s msg_sender permissionId) =? 0));
          [| repeat split; try assumption; exists []; rewrite app_nil_r;
             repeat split; reflexivity].
        cbn. repeat split; try assumption.
        eexists. split; [reflexivity |]. split; reflexivity.
      - rewrite Href. repeat split; try assumption.
        exists []. rewrite app_nil_r. repeat split; reflexivity.
      - rewrite Href. repeat split; try assumption.
        exists []. rewrite app_nil_r. repeat split; reflexivity. }
    destruct Hstep as (Hst' & He & Hh & evs & Hl & Hf1 & Hf2).
    destruct (IH _ Hst') as (He' & Hh' & evs' & Hl' & Hf1' & Hf2').
    split; [congruence |]. split; [congruence |].
    exists (evs ++ evs'). rewrite Hl', Hl, app_assoc.
    split; [reflexivity |].
    rewrite !List.filter_app, Hf1, Hf2, Hf1', Hf2'. split; reflexivity.
Qed.

(** The part of C2 that holds: a top-level gated execution that passes
    the six checks, and whose inner call succeeds or fails with return
    data the extraction accepts, stores one execution record, appends its
    identifier to the history, and emits exactly one [ExecutionRecorded]
    and one [PermissionUsed] event. *)
Lemma gated_execution_records_once
    blk sender pid target data value ok ret residue cs s :
  status s = NOT_ENTERED ->
  Spec.earliest_violation
    (Spec.preconditions (getPermission s sender pid) target data value
       (timestamp blk)) = None ->
  (ok = true \/ exists reason, _extractRevertReason ret residue = Ok reason) ->
  exists s' executionId record evs,
    invoke blk (CallExecute sender pid target data value ok ret residue cs) s
    = Ok (s', tt)
    /\ executions s' = <[executionId := record]> (executions s)
    /\ ExecutionRecord.success record = ok
    /\ (ok = true -> ExecutionRecord.reason record = "success"%string)
    /\ ExecutionRecord.permissionId record = pid
    /\ executionHistory s' = executionHistory s ++ [executionId]
    /\ logs s' = logs s ++ evs
    /\ length (List.filter Spec.is_ExecutionRecorded evs) = 1%nat
    /\ length (List.filter Spec.is_PermissionUsed evs) = 1%nat.
Proof.
  intros Hst Hpass Hreason.
  rewrite invoke_CallExecute.
  rewrite (executeWithPermission_passed _ _ _ _ _ _ _ _ Hst Hpass).
  cbv zeta. unfold low_level_call.
  cbn [call_success call_returnData call_residue].
  destruct ok.
  - cbn [call_success call_ledger bind forget fst snd].
    destruct (callbacks_emit_no_execution blk cs (with_status ENTERED s) eq_refl)
      as (He & Hh & evs & Hl & Hf1 & Hf2).
    eexists _, _, _, (evs ++ [_; _]).
    split; [reflexivity |].
    cbn [executions executionHistory logs with_status emit
         with_executionHistory with_executions].
    rewrite He, Hh, Hl. cbn [executions executionHistory logs with_status].
    repeat split; try reflexivity; try (intros _; reflexivity).
    + rewrite <- !app_assoc. reflexivity.
    + rewrite List.filter_app, Hf1. reflexivity.
    + rewrite List.filter_app, Hf2. reflexivity.
  - destruct Hreason as [Hok | [reason Hr]]; [discriminate |].
    cbn [call_success call_returnData call_residue call_ledger].
    rewrite Hr. cbn [bind forget fst snd].
    eexists _, _, _, [_; _].
    split; [reflexivity |].
    cbn [executions executionHistory logs with_status emit
         with_executionHistory with_executions].
    repeat split; try reflexivity; try discriminate.
    { rewrite <- !app_assoc. reflexivity. }
    all: reflexivity.
Qed.

(** The ledgers of [Scenario] are the ones the calls lead to from the
    constructor. *)
Lemma scenario_ledgers_are_reached :
  Scenario.granted
  = run [(Scenario.block, Scenario.grant)] (constructor Scenario.deployer)
  /\ Scenario.capability
     = permissionIdOf Scenario.block Scenario.grantee Scenario.target 0 100 0 0 0
  /\ Scenario.revoked
     = run [(Scenario.block, Scenario.grant);
            (Scenario.block, CallRevoke Scenario.grantee Scenario.capability)]
         (constructor Scenario.deployer)
  /\ Scenario.granted_until
     = run [(Scenario.block, Scenario.grant_until)]
         (constructor Scenario.deployer).
Proof. repeat split; vm_compute; reflexivity. Qed.

(** Between transactions the guard is free: every call of a run from the
    constructor is one that is not re-entrant. *)
Lemma run_leaves_guard_free txs s :
  status s = NOT_ENTERED -> status (run txs s) = NOT_ENTERED.
Proof.
  revert s. induction txs as [| [blk c] txs IH]; intros s Hst; [exact Hst |].
  cbn [run fold_left]. apply IH. unfold transact. cbn [fst snd].
  destruct c.
  - cbn [invoke]. rewrite settle_forget. unfold grantPermission.
    destruct (negb (target =? 0)); [| exact Hst].
    destruct ((expiry =? 0) || (expiry >? timestamp blk)); exact Hst.
  - cbn [invoke]. unfold revokePermission.
    destruct (negb (Permission.target (getPermission s msg_sender permissionId) =? 0));
      exact Hst.
  - rewrite invoke_CallExecute, settle_forget.
    unfold executeWithPermission, nonReentrant. rewrite Hst.
    destruct (executeWithPermission_body _ _ _ _ _ _ _ _) as [[s' x] | f];
      [reflexivity | exact Hst].
  - rewrite invoke_CallTokenTransfer, settle_forget.
    unfold executeTokenTransfer, nonReentrant. rewrite Hst.
    destruct (executeTokenTransfer_body _ _ _ _ _ _ _ _) as [[s' x] | f];
      [reflexivity | exact Hst].
Qed.

(** C2, at a failing input. The capability of [Scenario.granted] admits
    the call (the guard is free and all six checks hold), the inner call
    fails and returns the 68 bytes of [Scenario.malformed_reason]: the
    outer call reverts inside [abi.decode], and the ledger is left without
    an execution record and without an event for the attempt. *)
Theorem inner_failure_with_malformed_reason_reverts residue reentrant :
  status Scenario.granted = NOT_ENTERED
  /\ Spec.earliest_violation
       (Spec.preconditions
          (getPermission Scenario.granted Scenario.grantee Scenario.capability)
          Scenario.target Scenario.payload 0 (timestamp Scenario.block)) = None
  /\ invoke Scenario.block (Scenario.failing_execute residue reentrant)
       Scenario.granted
     = Revert AbiDecodeRevert
  /\ transact Scenario.granted
       (Scenario.block, Scenario.failing_execute residue reentrant)
     = Scenario.granted.
Proof. repeat split; vm_compute; reflexivity. Qed.

End LedgerProperties.


(** * Properties of the reconcilers *)

(** ** Keyed writes *)

Section TableProperties.

Context {A U : Type} (upd : U -> A -> A).

(** A later read-modify-write overrides an earlier one. *)
Hypothesis upd_absorbs : forall u u' a, upd u (upd u' a) = upd u a.

Lemma lookup_apply_write w (m : gmap string A) k :
  Table.apply_write upd w m !! k = Table.cell_step upd k w (m !! k).
Proof.
  destruct w as [| k' v | k' u]; cbn [Table.apply_write Table.cell_step].
  - reflexivity.
  - rewrite lookup_insert. destruct (decide (k' = k)); reflexivity.
  - destruct (m !! k') as [a |] eqn:Hk'.
    + rewrite lookup_insert. destruct (decide (k' = k)) as [<- | Hne];
        [rewrite Hk' |]; reflexivity.
    + destruct (decide (k' = k)) as [<- | Hne]; [rewrite Hk' |]; reflexivity.
Qed.

Lemma lookup_apply_writes ws (m : gmap string A) k :
  Table.apply_writes upd ws m !! k = Table.cell upd k ws (m !! k).
Proof.
  revert m. induction ws as [| w ws IH]; intros m; [reflexivity |].
  cbn [Table.apply_writes Table.cell fold_left].
  rewrite <- lookup_apply_write. apply IH.
Qed.

(** The writes of a stream act on one cell in one of three ways: they
    leave it, they set it, or they rewrite what it holds. *)
Lemma cell_shape k ws :
  (forall x, Table.cell upd k ws x = x)
  \/ (exists v, forall x, Table.cell upd k ws x = Some v)
  \/ (exists u, forall x, Table.cell upd k ws x = upd u <$> x).
Proof.
  induction ws as [| w ws IH]; [left; reflexivity |].
  assert (Hc : forall x,
             Table.cell upd k (w :: ws) x
             = Table.cell upd k ws (Table.cell_step upd k w x))
    by reflexivity.
  assert (Hstep :
    (forall x, Table.cell_step upd k w x = x)
    \/ (exists v, forall x, Table.cell_step upd k w x = Some v)
    \/ (exists u, forall x, Table.cell_step upd k w x = upd u <$> x)).
  { destruct w as [| k' v | k' u]; cbn [Table.cell_step].
    - left; reflexivity.
    - destruct (decide (k' = k)); [right; left; exists v |left]; reflexivity.
    - destruct (decide (k' = k)); [right; right; exists u | left]; reflexivity. }
  destruct IH as [Hid | [[v Hv] | [u Hu]]].
  - destruct Hstep as [Hs | [[v' Hs] | [u' Hs]]].
    + left. intros x. rewrite Hc, Hid. apply Hs.
    + right; left. exists v'. intros x. rewrite Hc, Hid. apply Hs.
    + right; right. exists u'. intros x. rewrite Hc, Hid. apply Hs.
  - right; left. exists v. intros x. rewrite Hc. apply Hv.
  - destruct Hstep as [Hs | [[v' Hs] | [u' Hs]]].
    + right; right. exists u. intros x. rewrite Hc, Hu, Hs. reflexivity.
    + right; left. exists (upd u v'). intros x. rewrite Hc, Hu, Hs. reflexivity.
    + right; right. exists u. intros x. rewrite Hc, Hu, Hs.
      destruct x as [a |]; cbn; [rewrite upd_absorbs |]; reflexivity.
Qed.

Lemma cell_idempotent k ws x :
  Table.cell upd k ws (Table.cell upd k ws x) = Table.cell upd k ws x.
Proof.
  destruct (cell_shape k ws) as [Hid | [[v Hv] | [u Hu]]].
  - rewrite !Hid. reflexivity.
  - rewrite !Hv. reflexivity.
  - rewrite !Hu. destruct x as [a |]; cbn; [rewrite upd_absorbs |]; reflexivity.
Qed.

(** Applying the writes of a stream a second time changes nothing. *)
Lemma apply_writes_idempotent ws (m : gmap string A) :
  Table.apply_writes upd ws (Table.apply_writes upd ws m)
  = Table.apply_writes upd ws m.
Proof.
  apply map_eq. intros k. rewrite !lookup_apply_writes. apply cell_idempotent.
Qed.

Lemma apply_write_idempotent w (m : gmap string A) :
  Table.apply_write upd w (Table.apply_write upd w m) = Table.apply_write upd w m.
Proof. apply (apply_writes_idempotent [w]). Qed.

Lemma apply_write_keeps_rows w (m : gmap string A) k :
  is_Some (m !! k) -> is_Some (Table.apply_write upd w m !! k).
Proof.
  intros [a Ha]. rewrite lookup_apply_write, Ha.
  destruct w as [| k' v | k' u]; cbn [Table.cell_step];
    try destruct (decide (k' = k)); cbn; eauto.
Qed.

End TableProperties.

(** ** Redelivery in place, for any handler that is idempotent *)

Section Redelivery.

Context {M E : Type} (handle : M -> E -> M) (good : M -> Prop).

Hypothesis handle_good : forall m e, good m -> good (handle m e).
Hypothesis handle_idempotent :
  forall m e, good m -> handle (handle m e) e = handle m e.

Lemma fold_repeat_handle e n m :
  good m -> fold_left handle (repeat e (S n)) m = handle m e.
Proof.
  intros Hm. induction n as [| n IH]; [reflexivity |].
  change (repeat e (S (S n))) with (e :: repeat e (S n)).
  cbn [fold_left].
  change (fold_left handle (repeat e (S n)) (handle m e))
    with (fold_left handle (repeat e n) (handle (handle m e) e)).
  rewrite handle_idempotent by exact Hm. exact IH.
Qed.

Lemma fold_redeliver counts stream m :
  good m ->
  fold_left handle (redeliver counts stream) m = fold_left handle stream m.
Proof.
  revert counts m. induction stream as [| e rest IH]; intros counts m Hm.
  - reflexivity.
  - destruct counts as [| n counts]; [reflexivity |].
    cbn [redeliver]. rewrite fold_left_app, fold_repeat_handle by exact Hm.
    cbn [fold_left]. apply IH. apply handle_good. exact Hm.
Qed.

Lemma fold_good stream m : good m -> good (fold_left handle stream m).
Proof.
  revert m. induction stream as [| e rest IH]; intros m Hm; [exact Hm |].
  cbn [fold_left]. apply IH, handle_good, Hm.
Qed.

End Redelivery.

(** ** The Envio handlers as keyed writes *)

Section EnvioProperties.

Lemma no_update_absorbs {A : Type} (u u' : unit) (a : A) :
  Table.no_update u (Table.no_update u' a) = Table.no_update u a.
Proof. reflexivity. Qed.

Lemma envio_revoke_absorbs u u' p :
  Envio.Permission.revoke u (Envio.Permission.revoke u' p)
  = Envio.Permission.revoke u p.
Proof. reflexivity. Qed.

Lemma envio_handle_written context event :
  Envio.well_keyed context ->
  Envio.handle context event = Envio.written [event] context.
Proof.
  intros Hkeys. destruct event as [args ts bn tx li].
  unfold Envio.handle, Envio.written.
  destruct args; cbn; try reflexivity.
  unfold Envio.PermissionRevoked_handler. cbn.
  destruct (Envio.Permissions context !! permissionId) as [p |] eqn:Hp;
    [| reflexivity].
  rewrite (Hkeys _ _ Hp). reflexivity.
Qed.

Lemma envio_handle_well_keyed context event :
  Envio.well_keyed context -> Envio.well_keyed (Envio.handle context event).
Proof.
  intros Hkeys. rewrite (envio_handle_written _ _ Hkeys).
  destruct event as [args ts bn tx li]. unfold Envio.written, Envio.well_keyed.
  destruct args; cbn; try exact Hkeys.
  - intros k p. rewrite lookup_insert.
    destruct (decide (permissionId = k)) as [<- | Hne];
      [intros [= <-]; reflexivity | apply Hkeys].
  - destruct (Envio.Permissions context !! permissionId) as [p0 |] eqn:Hp0;
      [| exact Hkeys].
    intros k p. rewrite lookup_insert.
    destruct (decide (permissionId = k)) as [<- | Hne];
      [intros [= <-]; cbn; apply (Hkeys _ _ Hp0) | apply Hkeys].
Qed.

Lemma envio_reconcile_written stream context :
  Envio.well_keyed context ->
  Envio.reconcile stream context = Envio.written stream context.
Proof.
  revert context. induction stream as [| event rest IH]; intros context Hkeys.
  - destruct context; reflexivity.
  - change (Envio.reconcile (event :: rest) context)
      with (Envio.reconcile rest (Envio.handle context event)).
    rewrite IH by (apply envio_handle_well_keyed; exact Hkeys).
    rewrite (envio_handle_written _ _ Hkeys). reflexivity.
Qed.

Lemma envio_reconcile_well_keyed stream context :
  Envio.well_keyed context -> Envio.well_keyed (Envio.reconcile stream context).
Proof.
  apply (fold_good Envio.handle Envio.well_keyed envio_handle_well_keyed).
Qed.

Lemma envio_written_idempotent stream context :
  Envio.written stream (Envio.written stream context)
  = Envio.written stream context.
Proof.
  unfold Envio.written. cbn.
  rewrite (apply_writes_idempotent _ envio_revoke_absorbs).
  rewrite !(apply_writes_idempotent _ no_update_absorbs).
  reflexivity.
Qed.

(** One pass, then the same stream again: the second pass changes nothing. *)
Lemma envio_replay stream context :
  Envio.well_keyed context ->
  Envio.reconcile (stream ++ stream) context = Envio.reconcile stream context.
Proof.
  intros Hkeys. unfold Envio.reconcile at 1. rewrite fold_left_app.
  fold (Envio.reconcile stream context).
  fold (Envio.reconcile stream (Envio.reconcile stream context)).
  rewrite (envio_reconcile_written stream (Envio.reconcile stream context))
    by (apply envio_reconcile_well_keyed; exact Hkeys).
  rewrite (envio_reconcile_written stream context Hkeys).
  apply envio_written_idempotent.
Qed.

Lemma envio_handle_idempotent context event :
  Envio.well_keyed context ->
  Envio.handle (Envio.handle context event) event = Envio.handle context event.
Proof. intros Hkeys. apply (envio_replay [event]). exact Hkeys. Qed.

Lemma envio_redelivery counts stream context :
  Envio.well_keyed context ->
  Envio.reconcile (redeliver counts stream) context
  = Envio.reconcile stream context.
Proof.
  apply (fold_redeliver Envio.handle Envio.well_keyed envio_handle_well_keyed
           envio_handle_idempotent).
Qed.

End EnvioProperties.

(** ** The graph-ts handlers as keyed writes *)

Section SubgraphProperties.

Lemma subgraph_revoke_absorbs u u' p :
  Subgraph.Permission.revoke u (Subgraph.Permission.revoke u' p)
  = Subgraph.Permission.revoke u p.
Proof. reflexivity. Qed.

(** [handleExecutionRecorded] without its permission: nothing is written. *)
Lemma subgraph_handle_dropped store event :
  Subgraph.permission_found store event = false ->
  Subgraph.handleHypnosExecutor store event = store.
Proof.
  destruct event as [params ts bn tx li].
  unfold Subgraph.permission_found, Subgraph.handleHypnosExecutor.
  destruct params; cbn; try discriminate.
  intros Hmissing. apply bool_decide_eq_false in Hmissing.
  unfold Subgraph.handleExecutionRecorded, Subgraph.load. cbn.
  destruct (Subgraph.Permissions store !! Subgraph.bytes32_text permissionId)
    as [p |]; [| reflexivity].
  exfalso. apply Hmissing. eauto.
Qed.

Lemma subgraph_handle_written store event :
  Subgraph.well_keyed store ->
  Subgraph.permission_found store event = true ->
  Subgraph.handleHypnosExecutor store event = Subgraph.written [event] store.
Proof.
  intros Hkeys Hfound. destruct event as [params ts bn tx li].
  unfold Subgraph.handleHypnosExecutor, Subgraph.written.
  destruct params; cbn; try reflexivity.
  - unfold Subgraph.handlePermissionRevoked, Subgraph.load, Subgraph.save. cbn.
    destruct (Subgraph.Permissions store !! Subgraph.bytes32_text permissionId)
      as [p |] eqn:Hp; [| reflexivity].
    rewrite (Hkeys _ _ Hp). reflexivity.
  - unfold Subgraph.permission_found in Hfound. cbn in Hfound.
    apply bool_decide_eq_true in Hfound. destruct Hfound as [p Hp].
    unfold Subgraph.handleExecutionRecorded, Subgraph.load, Subgraph.save. cbn.
    rewrite Hp. cbn. rewrite (Hkeys _ _ Hp). reflexivity.
Qed.

Lemma subgraph_handle_well_keyed store event :
  Subgraph.well_keyed store ->
  Subgraph.well_keyed (Subgraph.handleHypnosExecutor store event).
Proof.
  intros Hkeys.
  destruct (Subgraph.permission_found store event) eqn:Hfound;
    [| rewrite (subgraph_handle_dropped _ _ Hfound); exact Hkeys].
  rewrite (subgraph_handle_written _ _ Hkeys Hfound).
  destruct event as [params ts bn tx li].
  unfold Subgraph.written, Subgraph.well_keyed.
  destruct params; cbn; try exact Hkeys.
  - intros k p. rewrite lookup_insert.
    destruct (decide (Subgraph.bytes32_text permissionId = k)) as [<- | Hne];
      [intros [= <-]; reflexivity | apply Hkeys].
  - destruct (Subgraph.Permissions store !! Subgraph.bytes32_text permissionId)
      as [p0 |] eqn:Hp0; [| exact Hkeys].
    intros k p. rewrite lookup_insert.
    destruct (decide (Subgraph.bytes32_text permissionId = k)) as [<- | Hne];
      [intros [= <-]; cbn; apply (Hkeys _ _ Hp0) | apply Hkeys].
Qed.

(** Rows of [Permission] are never removed. *)
Lemma subgraph_handle_keeps_permissions store event k :
  Subgraph.well_keyed store ->
  is_Some (Subgraph.Permissions store !! k) ->
  is_Some (Subgraph.Permissions (Subgraph.handleHypnosExecutor store event) !! k).
Proof.
  intros Hkeys Hk.
  destruct (Subgraph.permission_found store event) eqn:Hfound;
    [| rewrite (subgraph_handle_dropped _ _ Hfound); exact Hk].
  rewrite (subgraph_handle_written _ _ Hkeys Hfound).
  unfold Subgraph.written. cbn [Subgraph.Permissions map Table.apply_writes fold_left].
  apply apply_write_keeps_rows. exact Hk.
Qed.

(** On a causal stream every recorded execution finds its permission, and
    the stream acts as its writes. *)
Lemma subgraph_reconcile_written granted stream store :
  Subgraph.well_keyed store ->
  (forall p, p ∈ granted ->
             is_Some (Subgraph.Permissions store !! Subgraph.bytes32_text p)) ->
  Subgraph.causal_from granted stream = true ->
  Subgraph.reconcile stream store = Subgraph.written stream store.
Proof.
  revert granted store.
  induction stream as [| event rest IH]; intros granted store Hkeys Hgranted Hc.
  - destruct store; reflexivity.
  - change (Subgraph.reconcile (event :: rest) store)
      with (Subgraph.reconcile rest (Subgraph.handleHypnosExecutor store event)).
    assert (Hfound : Subgraph.permission_found store event = true).
    { unfold Subgraph.permission_found.
      cbn [Subgraph.causal_from] in Hc.
      destruct (Subgraph.parameters event); try reflexivity.
      apply andb_true_iff in Hc. destruct Hc as [Hin _].
      apply bool_decide_eq_true in Hin.
      apply bool_decide_eq_true. apply Hgranted. exact Hin. }
    pose proof (subgraph_handle_written _ _ Hkeys Hfound) as Hw.
    assert (Hnext : exists granted',
      Subgraph.causal_from granted' rest = true
      /\ forall p, p ∈ granted' ->
           is_Some (Subgraph.Permissions
                      (Subgraph.handleHypnosExecutor store event)
                    !! Subgraph.bytes32_text p)).
    { cbn [Subgraph.causal_from] in Hc.
      destruct (Subgraph.parameters event) eqn:Hparams.
      - exists (permissionId :: granted). split; [exact Hc |].
        intros p Hp. apply elem_of_cons in Hp. destruct Hp as [-> | Hp].
        + rewrite Hw. unfold Subgraph.written, Subgraph.permission_write.
          cbn [Subgraph.Permissions map Table.apply_writes fold_left].
          rewrite Hparams. cbn [Table.apply_write].
          rewrite lookup_insert_eq. eauto.
        + apply subgraph_handle_keeps_permissions; [exact Hkeys |].
          apply Hgranted. exact Hp.
      - exists granted. split; [exact Hc |]. intros p Hp.
        apply subgraph_handle_keeps_permissions; [exact Hkeys |].
        apply Hgranted. exact Hp.
      - exists granted. split; [exact Hc |]. intros p Hp.
        apply subgraph_handle_keeps_permissions; [exact Hkeys |].
        apply Hgranted. exact Hp.
      - apply andb_true_iff in Hc. destruct Hc as [_ Hc].
        exists granted. split; [exact Hc |]. intros p Hp.
        apply subgraph_handle_keeps_permissions; [exact Hkeys |].
        apply Hgranted. exact Hp. }
    destruct Hnext as (granted' & Hc' & Hgranted').
    rewrite (IH granted' _ (subgraph_handle_well_keyed _ _ Hkeys) Hgranted' Hc').
    rewrite Hw. reflexivity.
Qed.

Lemma subgraph_reconcile_well_keyed stream store :
  Subgraph.well_keyed store ->
  Subgraph.well_keyed (Subgraph.reconcile stream store).
Proof.
  apply (fold_good Subgraph.handleHypnosExecutor Subgraph.well_keyed
           subgraph_handle_well_keyed).
Qed.

Lemma subgraph_written_idempotent stream store :
  Subgraph.written stream (Subgraph.written stream store)
  = Subgraph.written stream store.
Proof.
  unfold Subgraph.written. cbn.
  rewrite (apply_writes_idempotent _ subgraph_revoke_absorbs).
  rewrite !(apply_writes_idempotent _ no_update_absorbs).
  reflexivity.
Qed.

Lemma subgraph_replay stream store :
  Subgraph.well_keyed store ->
  Subgraph.causal stream = true ->
  Subgraph.reconcile (stream ++ stream) store = Subgraph.reconcile stream store.
Proof.
  intros Hkeys Hc. unfold Subgraph.reconcile at 1. rewrite fold_left_app.
  fold (Subgraph.reconcile stream store).
  fold (Subgraph.reconcile stream (Subgraph.reconcile stream store)).
  assert (Hnone : forall store' p,
            p ∈ ([] : list Z) ->
            is_Some (Subgraph.Permissions store' !! Subgraph.bytes32_text p))
    by (intros store' p Hp; inversion Hp).
  rewrite (subgraph_reconcile_written [] stream
             (Subgraph.reconcile stream store)
             (subgraph_reconcile_well_keyed _ _ Hkeys) (Hnone _) Hc).
  rewrite (subgraph_reconcile_written [] stream store Hkeys (Hnone _) Hc).
  apply subgraph_written_idempotent.
Qed.

Lemma subgraph_handle_idempotent store event :
  Subgraph.well_keyed store ->
  Subgraph.handleHypnosExecutor (Subgraph.handleHypnosExecutor store event) event
  = Subgraph.handleHypnosExecutor store event.
Proof.
  intros Hkeys.
  destruct (Subgraph.permission_found store event) eqn:Hfound.
  - assert (Hfound' : Subgraph.permission_found
                        (Subgraph.handleHypnosExecutor store event) event = true).
    { unfold Subgraph.permission_found in *.
      destruct (Subgraph.parameters event); try reflexivity.
      apply bool_decide_eq_true. apply bool_decide_eq_true in Hfound.
      apply subgraph_handle_keeps_permissions; assumption. }
    rewrite (subgraph_handle_written _ _
               (subgraph_handle_well_keyed _ _ Hkeys) Hfound').
    rewrite (subgraph_handle_written _ _ Hkeys Hfound).
    apply subgraph_written_idempotent.
  - rewrite !(subgraph_handle_dropped _ _ Hfound). reflexivity.
Qed.

Lemma subgraph_redelivery counts stream store :
  Subgraph.well_keyed store ->
  Subgraph.reconcile (redeliver counts stream) store
  = Subgraph.reconcile stream store.
Proof.
  apply (fold_redeliver Subgraph.handleHypnosExecutor Subgraph.well_keyed
           subgraph_handle_well_keyed subgraph_handle_idempotent).
Qed.

End SubgraphProperties.

(** ** Replays, redelivery and unknown permissions *)

Section ReconcilerProperties.

Lemma envio_empty_well_keyed : Envio.well_keyed Envio.empty.
Proof. intros k p H. cbn in H. rewrite lookup_empty in H. discriminate H. Qed.

Lemma subgraph_empty_well_keyed : Subgraph.well_keyed Subgraph.empty.
Proof. intros k p H. cbn in H. rewrite lookup_empty in H. discriminate H. Qed.

(** C5, as the code has it. From a Mirror whose permission rows sit under
    their own ids (the empty one, and every one a reconciler reaches):
    delivering any events of a stream several times in a row yields the
    Mirror of the stream itself, for the Envio handlers and for the
    graph-ts handlers; applying the whole stream a second time yields the
    Mirror of one pass for the Envio handlers on every stream, and for the
    graph-ts handlers on every stream in which each [ExecutionRecorded]
    comes after a [PermissionGranted] of the permission it refers to. *)
Theorem replay_and_redelivery_leave_the_mirror :
  (forall stream counts context,
     Envio.well_keyed context ->
     Envio.reconcile (redeliver counts stream) context
     = Envio.reconcile stream context
     /\ Envio.reconcile (stream ++ stream) context
        = Envio.reconcile stream context)
  /\ (forall stream counts store,
        Subgraph.well_keyed store ->
        Subgraph.reconcile (redeliver counts stream) store
        = Subgraph.reconcile stream store
        /\ (Subgraph.causal stream = true ->
            Subgraph.reconcile (stream ++ stream) store
            = Subgraph.reconcile stream store)).
Proof.
  split.
  - intros stream counts context Hkeys. split.
    + apply envio_redelivery. exact Hkeys.
    + apply envio_replay. exact Hkeys.
  - intros stream counts store Hkeys. split.
    + apply subgraph_redelivery. exact Hkeys.
    + intros Hc. apply subgraph_replay; assumption.
Qed.

Lemma replay_and_redelivery_leave_the_mirror_witness :
  Envio.reconcile
    (redeliver [2%nat] [Scenario.envio_recorded_event]) Envio.empty
  = Envio.reconcile [Scenario.envio_recorded_event] Envio.empty
  /\ Subgraph.reconcile
       ([Scenario.granted_event; Scenario.recorded_event]
        ++ [Scenario.granted_event; Scenario.recorded_event]) Subgraph.empty
     = Subgraph.reconcile [Scenario.granted_event; Scenario.recorded_event]
         Subgraph.empty.
Proof.
  split.
  - exact (proj1 (proj1 replay_and_redelivery_leave_the_mirror
                    [Scenario.envio_recorded_event] [2%nat] Envio.empty
                    envio_empty_well_keyed)).
  - refine (proj2 (proj2 replay_and_redelivery_leave_the_mirror
                     [Scenario.granted_event; Scenario.recorded_event] []
                     Subgraph.empty subgraph_empty_well_keyed) _).
    vm_compute. reflexivity.
Defined.

(** C5 as stated fails for the graph-ts handlers: when the recorded
    execution arrives ahead of the grant, the first pass drops it and the
    second pass, which now finds the permission, stores it. *)
Lemma replay_stores_dropped_execution_counterexample :
  Subgraph.Executions
    (Subgraph.reconcile Scenario.acausal_stream Subgraph.empty)
  !! Subgraph.bytes32_text Scenario.execution = None
  /\ Subgraph.Executions
       (Subgraph.reconcile (Scenario.acausal_stream ++ Scenario.acausal_stream)
          Subgraph.empty)
     !! Subgraph.bytes32_text Scenario.execution
     = Some (Subgraph.Execution.mk
               (Subgraph.bytes32_text Scenario.execution)
               (Subgraph.address_text Scenario.grantee)
               (Subgraph.bytes32_text Scenario.capability)
               (Subgraph.bytes32_text Scenario.capability)
               1000 7 (toHexString (be_bytes 32 0xABCD))).
Proof. split; vm_compute; reflexivity. Qed.

(** The part of C6 that holds, on the graph-ts handler: without the
    permission row the event is dropped and the Mirror is left as it was;
    with it, an execution row that carries the permission's id is stored
    under the execution's id. *)
Lemma subgraph_execution_needs_permission event executionId executor permissionId store :
  (Subgraph.Permissions store !! Subgraph.bytes32_text permissionId = None ->
   Subgraph.handleExecutionRecorded event executionId executor permissionId store
   = store)
  /\ (forall permission,
        Subgraph.Permissions store !! Subgraph.bytes32_text permissionId
        = Some permission ->
        Subgraph.Executions
          (Subgraph.handleExecutionRecorded event executionId executor
             permissionId store)
        !! Subgraph.bytes32_text executionId
        = Some (Subgraph.Execution.mk
                  (Subgraph.bytes32_text executionId)
                  (Subgraph.address_text executor)
                  (Subgraph.Permission.id permission)
                  (Subgraph.bytes32_text permissionId)
                  (Subgraph.block_timestamp event) (Subgraph.block_number event)
                  (toHexString (Subgraph.transaction_hash event)))).
Proof.
  unfold Subgraph.handleExecutionRecorded, Subgraph.load, Subgraph.save. split.
  - intros ->. reflexivity.
  - intros permission ->. cbn. apply lookup_insert_eq.
Qed.

(** The Envio handler never reads the permission table: it stores the
    execution row in every Mirror. *)
Lemma envio_execution_ignores_permission
    event executionId executor target selector value permissionId success reason
    context :
  Envio.Executions
    (Envio.ExecutionRecorded_handler event executionId executor target selector
       value permissionId success reason context)
  !! executionId
  = Some (Envio.Execution.mk executionId (toLowerCase executor)
            (toLowerCase target) selector value ""
            (Envio.block_timestamp event) (Envio.block_number event)
            (Envio.transaction_hash event) permissionId permissionId success
            reason).
Proof. unfold Envio.ExecutionRecorded_handler. cbn. apply lookup_insert_eq. Qed.

(** C6, at a failing input. The Envio handler is given an
    [ExecutionRecorded] event for permission ["0xc1"] on the empty Mirror,
    which holds no such permission row: it stores the execution row all the
    same. *)
Theorem envio_stores_execution_without_permission :
  Envio.Permissions Envio.empty !! "0xc1"%string = None
  /\ Envio.Executions (Envio.handle Envio.empty Scenario.envio_recorded_event)
     !! "0xe1"%string
     = Some (Envio.Execution.mk "0xe1" "0xa1" "0x71" "0x12345678" 0 ""
               1000 7 "0xabcd" "0xc1" "0xc1" true "success").
Proof. split; vm_compute; reflexivity. Qed.

End ReconcilerProperties.


(** * Further properties of the capability ledger *)

Section LedgerInvariants.

Import HypnosExecutor.

#[local] Arguments keccak256 : simpl never.
#[local] Arguments bytes4_of_bytes : simpl never.
#[local] Arguments be_bytes : simpl never.
#[local] Arguments permissionIdOf : simpl never.
#[local] Arguments executionIdOf : simpl never.
#[local] Arguments transferIdOf : simpl never.

(** ** A proof rule for runs

    A property of the ledger holds after a run when it does not depend on
    the guard, is kept by every grant and revoke the run performs, and is
    kept by the bookkeeping of an execution (one record, one history
    entry, the two events). *)
Section RunInvariant.

Variable P : Ledger -> Prop.
Variable allowed : Block -> Call -> Prop.

Hypothesis P_status : forall s st, P s -> P (with_status st s).

Hypothesis P_write :
  forall blk c s,
    Trace.is_write c = true -> allowed blk c -> P s ->
    P (settle s (invoke blk c s)).

Hypothesis P_record :
  forall s executionId record recorded used,
    Spec.is_ExecutionRecorded recorded = true ->
    Spec.is_PermissionUsed used = true ->
    P s ->
    P (emit used
         (emit recorded
            (with_executionHistory (executionHistory s ++ [executionId])
               (with_executions (<[executionId := record]> (executions s)) s)))).

Lemma callbacks_invariant blk cs s :
  status s = ENTERED ->
  Forall (allowed blk) (List.filter Trace.is_write cs) ->
  P s ->
  P (callbacks blk cs s) /\ status (callbacks blk cs s) = ENTERED.
Proof.
  revert s. induction cs as [| c cs IH]; intros s Hst Hok HP.
  - split; [exact HP | exact Hst].
  - rewrite callbacks_cons.
    pose proof (reentrant_call_refused blk c s Hst) as Href.
    assert (Hstep : P (settle s (invoke blk c s))
                    /\ status (settle s (invoke blk c s)) = ENTERED
                    /\ Forall (allowed blk) (List.filter Trace.is_write cs)).
    { destruct c; cbn [List.filter Trace.is_write] in Hok.
      - apply Forall_cons in Hok. destruct Hok as [Hc Hcs].
        split; [apply P_write; [reflexivity | exact Hc | exact HP] |].
        split; [| exact Hcs].
        cbn [invoke]. rewrite settle_forget. unfold grantPermission.
        destruct (negb (target =? 0)); [| exact Hst].
        destruct ((expiry =? 0) || (expiry >? timestamp blk)); exact Hst.
      - apply Forall_cons in Hok. destruct Hok as [Hc Hcs].
        split; [apply P_write; [reflexivity | exact Hc | exact HP] |].
        split; [| exact Hcs].
        cbn [invoke]. unfold revokePermission.
        destruct (negb (Permission.target
                          (getPermission s msg_sender permissionId) =? 0));
          exact Hst.
      - rewrite Href. repeat split; assumption.
      - rewrite Href. repeat split; assumption. }
    destruct Hstep as (HP' & Hst' & Hok').
    apply IH; assumption.
Qed.

Lemma transact_invariant s tx :
  Forall (allowed (fst tx)) (Trace.writes_of tx) ->
  P s -> P (transact s tx).
Proof.
  destruct tx as [blk c]. unfold transact, Trace.writes_of. cbn [fst snd].
  intros Hok HP. destruct c.
  - apply Forall_cons in Hok. destruct Hok as [Hc _].
    apply P_write; [reflexivity | exact Hc | exact HP].
  - apply Forall_cons in Hok. destruct Hok as [Hc _].
    apply P_write; [reflexivity | exact Hc | exact HP].
  - rewrite invoke_CallExecute, settle_forget.
    unfold executeWithPermission, nonReentrant.
    destruct (status s) eqn:Hst; [| exact HP].
    unfold executeWithPermission_body.
    repeat match goal with
           | |- context [if ?c then _ else Revert _] =>
               destruct c; [| exact HP]
           end.
    cbv zeta. unfold low_level_call.
    cbn [call_success call_returnData call_residue].
    destruct inner_success.
    + cbn [call_success call_ledger bind settle fst snd].
      apply P_status.
      apply (P_record (callbacks blk reentrant (with_status ENTERED s)));
        [reflexivity | reflexivity |].
      apply (callbacks_invariant blk reentrant (with_status ENTERED s));
        [reflexivity | exact Hok | apply P_status; exact HP].
    + cbn [call_success call_returnData call_residue call_ledger].
      destruct (_extractRevertReason _ _); [| exact HP].
      cbn [bind settle fst snd].
      apply P_status.
      apply (P_record (with_status ENTERED s)); [reflexivity | reflexivity |].
      apply P_status; exact HP.
  - rewrite invoke_CallTokenTransfer, settle_forget.
    unfold executeTokenTransfer, nonReentrant.
    destruct (status s) eqn:Hst; [| exact HP].
    unfold executeTokenTransfer_body.
    repeat match goal with
           | |- context [if ?c then _ else Revert _] =>
               destruct c; [| exact HP]
           end.
    cbv zeta. destruct failure; [exact HP |].
    cbn [bind settle fst snd].
    apply P_status.
    apply (P_record (callbacks blk reentrant (with_status ENTERED s)));
      [reflexivity | reflexivity |].
    apply (callbacks_invariant blk reentrant (with_status ENTERED s));
      [reflexivity | exact Hok | apply P_status; exact HP].
Qed.

Lemma run_invariant txs s :
  (forall tx, In tx txs -> Forall (allowed (fst tx)) (Trace.writes_of tx)) ->
  P s -> P (run txs s).
Proof.
  revert s. induction txs as [| tx txs IH]; intros s Hok HP; [exact HP |].
  cbn [run fold_left]. apply IH.
  - intros tx' Hin. apply Hok. right. exact Hin.
  - apply transact_invariant; [apply Hok; left; reflexivity | exact HP].
Qed.

End RunInvariant.

(** ** What a grant and a revoke do to the ledger *)

Lemma grant_step blk sender executor target selector maxValue maxTokenAmount
    tokenAddress expiry s :
  settle s (invoke blk (CallGrant sender executor target selector maxValue
                          maxTokenAmount tokenAddress expiry) s) = s
  \/ (target <> 0
      /\ settle s (invoke blk (CallGrant sender executor target selector
                                 maxValue maxTokenAmount tokenAddress expiry) s)
         = emit (PermissionGranted executor
                   (permissionIdOf blk executor target selector maxValue
                      maxTokenAmount tokenAddress expiry)
                   target selector maxValue maxTokenAmount tokenAddress expiry)
             (with_userPermissions
                (<[executor :=
                     getUserPermissions s executor
                     ++ [permissionIdOf blk executor target selector maxValue
                           maxTokenAmount tokenAddress expiry]]>
                   (userPermissions s))
                (with_permissions
                   (<[(executor,
                       permissionIdOf blk executor target selector maxValue
                         maxTokenAmount tokenAddress expiry) :=
                        Permission.mk target selector maxValue maxTokenAmount
                          tokenAddress expiry true]> (permissions s)) s))).
Proof.
  cbn [invoke]. rewrite settle_forget. unfold grantPermission.
  destruct (negb (target =? 0)) eqn:Ht; [| left; reflexivity].
  destruct ((expiry =? 0) || (expiry >? timestamp blk)); [| left; reflexivity].
  right. split; [| reflexivity].
  apply Z.eqb_neq. apply negb_true_iff. exact Ht.
Qed.

Lemma revoke_step blk sender pid s :
  settle s (invoke blk (CallRevoke sender pid) s) = s
  \/ (exists perm,
        permissions s !! (sender, pid) = Some perm
        /\ Permission.target perm <> 0
        /\ settle s (invoke blk (CallRevoke sender pid) s)
           = emit (PermissionRevoked sender pid)
               (with_permissions
                  (<[(sender, pid) := Permission.set_active false perm]>
                     (permissions s)) s)).
Proof.
  cbn [invoke]. unfold revokePermission, getPermission.
  destruct (permissions s !! (sender, pid)) as [perm |] eqn:Hp;
    cbn [default from_option Datatypes.id].
  - destruct (negb (Permission.target perm =? 0)) eqn:Ht; [| left; reflexivity].
    right. exists perm. split; [reflexivity |]. split; [| reflexivity].
    apply Z.eqb_neq. apply negb_true_iff. exact Ht.
  - left. reflexivity.
Qed.

(** X1. In every ledger a run reaches from the constructor, the
    identifiers in the execution history are exactly the keys of the
    execution records, and the execution count equals the number of
    [ExecutionRecorded] events and the number of [PermissionUsed] events
    in the log. *)
Theorem execution_bookkeeping_agrees deployer txs :
  (forall executionId,
     In executionId (executionHistory (run txs (constructor deployer)))
     <-> is_Some (getExecution (run txs (constructor deployer)) executionId))
  /\ getExecutionCount (run txs (constructor deployer))
     = Z.of_nat (length (List.filter Spec.is_ExecutionRecorded
                           (logs (run txs (constructor deployer)))))
  /\ getExecutionCount (run txs (constructor deployer))
     = Z.of_nat (length (List.filter Spec.is_PermissionUsed
                           (logs (run txs (constructor deployer))))).
Proof.
  unfold getExecutionCount, getExecution.
  apply (run_invariant
           (fun s =>
              (forall executionId,
                 In executionId (executionHistory s)
                 <-> is_Some (executions s !! executionId))
              /\ Z.of_nat (length (executionHistory s))
                 = Z.of_nat (length (List.filter Spec.is_ExecutionRecorded (logs s)))
              /\ Z.of_nat (length (executionHistory s))
                 = Z.of_nat (length (List.filter Spec.is_PermissionUsed (logs s))))
           (fun _ _ => True)).
  - intros s st H. exact H.
  - intros blk c s Hw _ (Hkeys & Her & Hpu).
    destruct c; try discriminate Hw.
    + destruct (grant_step blk msg_sender executor target selector maxValue
                  maxTokenAmount tokenAddress expiry s) as [-> | [_ ->]];
        [repeat split; assumption || apply Hkeys |].
      cbn [executionHistory executions logs emit with_userPermissions
           with_permissions].
      rewrite !List.filter_app, !length_app. cbn. rewrite !Nat.add_0_r.
      repeat split; assumption || apply Hkeys.
    + destruct (revoke_step blk msg_sender permissionId s)
        as [-> | (perm & _ & _ & ->)];
        [repeat split; assumption || apply Hkeys |].
      cbn [executionHistory executions logs emit with_permissions].
      rewrite !List.filter_app, !length_app. cbn. rewrite !Nat.add_0_r.
      repeat split; assumption || apply Hkeys.
  - intros s executionId record recorded used Hr Hu (Hkeys & Her & Hpu).
    cbn [executionHistory executions logs emit with_executionHistory
         with_executions].
    split; [| split].
    + intros id. rewrite in_app_iff, lookup_insert.
      destruct (decide (executionId = id)) as [-> | Hne].
      * split; [eauto | intros _; right; left; reflexivity].
      * rewrite Hkeys. split; [intros [H | [H | []]]; [exact H | congruence]
                              | intros H; left; exact H].
    + rewrite !List.filter_app, !length_app.
      destruct recorded; try discriminate Hr. destruct used; try discriminate Hu.
      cbn. lia.
    + rewrite !List.filter_app, !length_app.
      destruct recorded; try discriminate Hr. destruct used; try discriminate Hu.
      cbn. lia.
  - intros tx _. apply Forall_forall. intros; exact I.
  - cbn. split; [| split; reflexivity].
    intros id. rewrite lookup_empty. split; [intros [] | intros [x Hx]; discriminate Hx].
Qed.

Lemma always_allowed (txs : list (Block * Call)) :
  forall tx, In tx txs -> Forall (fun _ : Call => True) (Trace.writes_of tx).
Proof. intros tx _. apply Forall_forall. intros; exact I. Qed.

(** X2. In every ledger a run reaches from the constructor,
    [getUserPermissions] lists for an executor exactly the identifiers
    under which [getPermission] returns a stored capability (one whose
    target is not the zero address). *)
Theorem listed_identifiers_are_the_stored_ones deployer txs executor permissionId :
  In permissionId (getUserPermissions (run txs (constructor deployer)) executor)
  <-> Permission.target
        (getPermission (run txs (constructor deployer)) executor permissionId) <> 0.
Proof.
  revert executor permissionId.
  apply (run_invariant
           (fun s => forall a id,
              In id (getUserPermissions s a)
              <-> Permission.target (getPermission s a id) <> 0)
           (fun _ _ => True)).
  - intros s st H. exact H.
  - intros blk c s Hw _ H.
    destruct c; try discriminate Hw.
    + destruct (grant_step blk msg_sender executor target selector maxValue
                  maxTokenAmount tokenAddress expiry s) as [-> | [Ht ->]];
        [exact H |].
      intros a id. unfold getUserPermissions, getPermission.
      cbn [permissions userPermissions emit with_userPermissions with_permissions].
      rewrite !lookup_insert.
      destruct (decide (executor = a)) as [-> | Ha].
      * cbn [default from_option Datatypes.id]. rewrite in_app_iff.
        destruct (decide
                    ((a, permissionIdOf blk a target selector maxValue
                           maxTokenAmount tokenAddress expiry) = (a, id)))
          as [Heq | Hne].
        -- cbn [default from_option Datatypes.id Permission.target].
           split; [intros _; exact Ht |].
           intros _. right. left. congruence.
        -- rewrite <- (H a id). unfold getUserPermissions.
           split; [intros [Hin | [Heq | []]]; [exact Hin | congruence]
                  | intros Hin; left; exact Hin].
      * destruct (decide
                    ((executor,
                      permissionIdOf blk executor target selector maxValue
                        maxTokenAmount tokenAddress expiry) = (a, id)))
          as [Heq | Hne]; [congruence |].
        apply (H a id).
    + destruct (revoke_step blk msg_sender permissionId s)
        as [-> | (perm & Hp & Ht & ->)]; [exact H |].
      intros a id. unfold getUserPermissions, getPermission.
      cbn [permissions userPermissions emit with_permissions].
      rewrite lookup_insert.
      destruct (decide ((msg_sender, permissionId) = (a, id))) as [Heq | Hne].
      * cbn [default from_option Datatypes.id]. destruct perm; cbn in Ht |- *.
        injection Heq as <- <-.
        specialize (H msg_sender permissionId).
        unfold getUserPermissions, getPermission in H. rewrite Hp in H.
        exact H.
      * apply (H a id).
  - intros s executionId record recorded used _ _ H. exact H.
  - apply always_allowed.
  - intros a id. unfold getUserPermissions, getPermission. cbn.
    rewrite !lookup_empty. cbn. split; [intros [] | intros Hz; exact (Hz eq_refl)].
Qed.

Lemma replay_snoc events e :
  Trace.replay (events ++ [e]) = Trace.replay_event (Trace.replay events) e.
Proof. unfold Trace.replay. rewrite fold_left_app. reflexivity. Qed.

(** X3. In every ledger a run reaches from the constructor, the stored
    capabilities and the per-executor identifier lists are exactly what
    the emitted events give when replayed in order: a [PermissionGranted]
    stores the capability it announces as active and appends its
    identifier, a [PermissionRevoked] clears the active flag of the
    capability it names, the other events change nothing. *)
Theorem event_log_rebuilds_the_capability_store deployer txs :
  Trace.replay (logs (run txs (constructor deployer)))
  = (permissions (run txs (constructor deployer)),
     userPermissions (run txs (constructor deployer))).
Proof.
  apply (run_invariant
           (fun s => Trace.replay (logs s) = (permissions s, userPermissions s))
           (fun _ _ => True)).
  - intros s st H. exact H.
  - intros blk c s Hw _ H.
    destruct c; try discriminate Hw.
    + destruct (grant_step blk msg_sender executor target selector maxValue
                  maxTokenAmount tokenAddress expiry s) as [-> | [Ht ->]];
        [exact H |].
      cbn [logs permissions userPermissions emit with_userPermissions
           with_permissions].
      rewrite replay_snoc, H. reflexivity.
    + destruct (revoke_step blk msg_sender permissionId s)
        as [-> | (perm & Hp & Ht & ->)]; [exact H |].
      cbn [logs permissions userPermissions emit with_permissions].
      rewrite replay_snoc, H. cbn [Trace.replay_event fst snd]. rewrite Hp.
      reflexivity.
  - intros s executionId record recorded used Hr Hu H.
    cbn [logs permissions userPermissions emit with_executionHistory
         with_executions].
    rewrite !replay_snoc, H.
    destruct recorded; try discriminate Hr. destruct used; try discriminate Hu.
    reflexivity.
  - apply always_allowed.
  - reflexivity.
Qed.

(** X4. Only the executor's own [revokePermission] of an identifier
    deactivates the capability stored under it: over any run in which no
    call that takes effect (top level, or made by a callee during a gated
    execution or a token transfer) is a revoke of [permissionId] sent by
    [executor], a capability that is active stays active, whatever the
    other accounts grant, revoke or execute. *)
Theorem only_own_revoke_deactivates txs s executor permissionId :
  Permission.active (getPermission s executor permissionId) = true ->
  (forall tx, In tx txs ->
     Forall (fun c => Trace.revokes executor permissionId c = false)
            (Trace.writes_of tx)) ->
  Permission.active (getPermission (run txs s) executor permissionId) = true.
Proof.
  intros Hactive Hno.
  apply (run_invariant
           (fun s => Permission.active (getPermission s executor permissionId) = true)
           (fun _ c => Trace.revokes executor permissionId c = false));
    [| | | exact Hno | exact Hactive].
  - intros s0 st H. exact H.
  - intros blk c s0 Hw Hc H.
    destruct c; try discriminate Hw.
    + destruct (grant_step blk msg_sender executor0 target selector maxValue
                  maxTokenAmount tokenAddress expiry s0) as [-> | [Ht ->]];
        [exact H |].
      unfold getPermission in *.
      cbn [permissions emit with_userPermissions with_permissions].
      rewrite lookup_insert.
      destruct (decide _); [reflexivity | exact H].
    + destruct (revoke_step blk msg_sender permissionId0 s0)
        as [-> | (perm & Hp & Ht & ->)]; [exact H |].
      unfold getPermission in *.
      cbn [permissions emit with_permissions].
      rewrite lookup_insert.
      destruct (decide _) as [Heq | Hne]; [| exact H].
      injection Heq as -> ->. cbn [Trace.revokes] in Hc.
      rewrite !Z.eqb_refl in Hc. discriminate Hc.
  - intros s0 executionId record recorded used _ _ H. exact H.
Qed.

Lemma only_own_revoke_deactivates_witness :
  Permission.active
    (getPermission (run Cases.others Scenario.granted) Scenario.grantee
       Scenario.capability) = true.
Proof.
  apply (only_own_revoke_deactivates Cases.others Scenario.granted
           Scenario.grantee Scenario.capability).
  - vm_compute. reflexivity.
  - intros tx [<- | [<- | [<- | [<- | []]]]]; repeat constructor.
Defined.

Lemma not_granted_writes a id tx :
  ~ In (a, id) (Spec.grants_of tx) ->
  Forall (fun c => ~ In (a, id) (Spec.own_grant (fst tx) c)) (Trace.writes_of tx).
Proof.
  destruct tx as [blk c]. unfold Spec.grants_of, Trace.writes_of. cbn [fst snd].
  intros H. apply List.Forall_forall. intros c' Hin Hown.
  destruct c.
  - destruct Hin as [<- | []]. exact (H Hown).
  - destruct Hin as [<- | []]. exact (H Hown).
  - apply H. apply in_flat_map. exists c'. split; [| exact Hown].
    apply List.filter_In in Hin. apply Hin.
  - apply H. apply in_flat_map. exists c'. split; [| exact Hown].
    apply List.filter_In in Hin. apply Hin.
Qed.

(** X5. A key no grant of the run writes reads as the zero capability:
    if no call of a run from the constructor (top level or made by a
    callee) grants [permissionId] to [executor], then [getPermission]
    returns the all-zero capability there, and the executor's revoke, gated
    execution and token transfer under that identifier all fail with
    "permission not found". *)
Theorem never_granted_is_not_found deployer txs executor permissionId :
  (forall tx, In tx txs -> ~ In (executor, permissionId) (Spec.grants_of tx)) ->
  getPermission (run txs (constructor deployer)) executor permissionId
  = Permission.zero
  /\ revokePermission executor permissionId (run txs (constructor deployer))
     = Revert NotFound
  /\ (forall blk target data value callee,
        executeWithPermission executor blk permissionId target data value callee
          (run txs (constructor deployer)) = Revert NotFound)
  /\ (forall blk tokenAddress to amount transfer,
        executeTokenTransfer executor blk permissionId tokenAddress to amount
          transfer (run txs (constructor deployer)) = Revert NotFound).
Proof.
  intros Hno.
  assert (Hguard : status (run txs (constructor deployer)) = NOT_ENTERED).
  { apply run_leaves_guard_free. reflexivity. }
  assert (Hz : permissions (run txs (constructor deployer))
               !! (executor, permissionId) = None).
  { apply (run_invariant
             (fun s => permissions s !! (executor, permissionId) = None)
             (fun blk c => ~ In (executor, permissionId) (Spec.own_grant blk c))).
    - intros s st H. exact H.
    - intros blk c s Hw Hc H.
      destruct c; try discriminate Hw.
      + destruct (grant_step blk msg_sender executor0 target selector maxValue
                    maxTokenAmount tokenAddress expiry s) as [-> | [Ht ->]];
          [exact H |].
        cbn [permissions emit with_userPermissions with_permissions].
        rewrite lookup_insert.
        destruct (decide _) as [Heq | Hne]; [| exact H].
        exfalso. apply Hc. left. exact Heq.
      + destruct (revoke_step blk msg_sender permissionId0 s)
          as [-> | (perm & Hp & Ht & ->)]; [exact H |].
        cbn [permissions emit with_permissions].
        rewrite lookup_insert.
        destruct (decide _) as [Heq | Hne]; [| exact H].
        injection Heq as -> ->. congruence.
    - intros s executionId record recorded used _ _ H. exact H.
    - intros tx Hin. apply not_granted_writes. apply Hno. exact Hin.
    - apply lookup_empty. }
  assert (Hperm : getPermission (run txs (constructor deployer)) executor
                    permissionId = Permission.zero).
  { unfold getPermission. rewrite Hz. reflexivity. }
  split; [exact Hperm |]. split; [| split].
  - unfold revokePermission. rewrite Hperm. reflexivity.
  - intros blk target data value callee.
    unfold executeWithPermission, nonReentrant. rewrite Hguard.
    unfold executeWithPermission_body.
    rewrite getPermission_with_status, Hperm. reflexivity.
  - intros blk tokenAddress to amount transfer.
    unfold executeTokenTransfer, nonReentrant. rewrite Hguard.
    unfold executeTokenTransfer_body.
    rewrite getPermission_with_status, Hperm. reflexivity.
Qed.

Lemma never_granted_is_not_found_witness :
  getPermission (run [(Scenario.block, Scenario.grant)]
                   (constructor Scenario.deployer))
    Cases.outsider Scenario.capability
  = Permission.zero.
Proof.
  refine (proj1 (never_granted_is_not_found Scenario.deployer
                   [(Scenario.block, Scenario.grant)] Cases.outsider
                   Scenario.capability _)).
  intros tx [<- | []] [H | []]. apply (f_equal fst) in H. cbn [fst] in H.
  vm_compute in H. discriminate H.
Defined.

(** ** Token transfers *)

(** X6. In a call that is not re-entrant, [executeTokenTransfer] checks
    its five preconditions in the order: capability exists, active, token,
    amount, expiry (the amount before the expiry, unlike the gated
    execution), and fails with the failure of the earliest one violated.
    When all five hold and [safeTransferFrom] reverts, the call reverts
    with the very failure [safeTransferFrom] reverted with, whatever it is
    (the token's own revert data, or the library's error), and nothing is
    recorded; when the transfer goes through, the call returns true, stores one record with
    value 0 and reason "success" under the derived identifier, and emits
    [ExecutionRecorded] with value 0 and [PermissionUsed] with the amount. *)
Theorem token_transfer_reports_earliest_violation
    sender blk pid tokenAddress to amount transfer s :
  status s = NOT_ENTERED ->
  NoDup [NotFound; Inactive; TokenMismatch; AmountExceeded; Expired]
  /\ match Spec.earliest_violation
             (Trace.token_preconditions (getPermission s sender pid)
                tokenAddress amount (timestamp blk)) with
     | Some failure =>
         executeTokenTransfer sender blk pid tokenAddress to amount transfer s
         = Revert failure
     | None =>
         match transfer (with_status ENTERED s) with
         | Revert failure =>
             executeTokenTransfer sender blk pid tokenAddress to amount transfer s
             = Revert failure
         | Ok s1 =>
             executeTokenTransfer sender blk pid tokenAddress to amount transfer s
             = Ok (with_status NOT_ENTERED
                     (emit (PermissionUsed sender pid
                              (transferIdOf blk sender tokenAddress to amount)
                              tokenAddress transfer_selector amount true)
                        (emit (ExecutionRecorded
                                 (transferIdOf blk sender tokenAddress to amount)
                                 sender tokenAddress transfer_selector 0 pid true
                                 "success")
                           (with_executionHistory
                              (executionHistory s1
                               ++ [transferIdOf blk sender tokenAddress to amount])
                              (with_executions
                                 (<[transferIdOf blk sender tokenAddress to amount :=
                                      ExecutionRecord.mk sender tokenAddress
                                        transfer_selector 0
                                        (be_bytes 4 transfer_selector
                                         ++ be_bytes 32 to ++ be_bytes 32 amount)
                                        (timestamp blk) pid true "success"]>
                                    (executions s1))
                                 s1)))),
                   true)
         end
     end.
Proof.
  intros Hst. split.
  { apply (bool_decide_unpack _). vm_compute. reflexivity. }
  unfold executeTokenTransfer, nonReentrant. rewrite Hst.
  unfold executeTokenTransfer_body. rewrite getPermission_with_status.
  destruct (Spec.earliest_violation _) as [failure |] eqn:Hv;
    unfold Trace.token_preconditions in Hv; cbn [Spec.earliest_violation] in Hv.
  - repeat match type of Hv with
           | (if ?c then _ else _) = Some _ =>
               destruct c eqn:?; [| injection Hv as <-; reflexivity]
           end.
    discriminate Hv.
  - repeat match type of Hv with
           | (if ?c then _ else _) = None =>
               destruct c eqn:?; [| discriminate Hv]
           end.
    cbv zeta. destruct (transfer (with_status ENTERED s)); reflexivity.
Qed.

Lemma token_transfer_reports_earliest_violation_witness :
  executeTokenTransfer Scenario.grantee Scenario.block Scenario.capability
    Cases.token Cases.outsider 1 (fun s => Ok s) Scenario.granted
  = Revert TokenMismatch
  /\ executeTokenTransfer Scenario.grantee Scenario.block Scenario.capability
       0 Cases.outsider 0 (fun _ => Revert (RevertData Cases.token_error))
       Scenario.granted
     = Revert (RevertData Cases.token_error).
Proof.
  split.
  - exact (proj2 (token_transfer_reports_earliest_violation Scenario.grantee
                    Scenario.block Scenario.capability Cases.token
                    Cases.outsider 1 (fun s => Ok s) Scenario.granted eq_refl)).
  - exact (proj2 (token_transfer_reports_earliest_violation Scenario.grantee
                    Scenario.block Scenario.capability 0 Cases.outsider 0
                    (fun _ => Revert (RevertData Cases.token_error))
                    Scenario.granted eq_refl)).
Defined.

(** ** Revocation *)

(** X7. Revocation takes effect at once and lasts: after the executor
    revokes a stored capability, and through every later run in which no
    grant derives the same identifier for the same executor, every gated
    execution and every token transfer the executor attempts under that
    identifier fails with "permission inactive", whatever target, payload,
    value, token, amount and time it names. *)
Theorem revoked_capability_refuses_every_use blk0 txs s sender pid :
  status s = NOT_ENTERED ->
  Permission.target (getPermission s sender pid) <> 0 ->
  (forall tx, In tx txs -> ~ In (sender, pid) (Spec.grants_of tx)) ->
  (forall blk target data value callee,
     executeWithPermission sender blk pid target data value callee
       (run ((blk0, CallRevoke sender pid) :: txs) s) = Revert Inactive)
  /\ (forall blk tokenAddress to amount transfer,
        executeTokenTransfer sender blk pid tokenAddress to amount transfer
          (run ((blk0, CallRevoke sender pid) :: txs) s) = Revert Inactive).
Proof.
  intros Hst Hstored Hno.
  assert (Hguard : status (run ((blk0, CallRevoke sender pid) :: txs) s)
                   = NOT_ENTERED)
    by (apply run_leaves_guard_free; exact Hst).
  assert (Hperm :
    Permission.target
      (getPermission (run ((blk0, CallRevoke sender pid) :: txs) s) sender pid)
    <> 0
    /\ Permission.active
         (getPermission (run ((blk0, CallRevoke sender pid) :: txs) s) sender pid)
       = false).
  { change (run ((blk0, CallRevoke sender pid) :: txs) s)
      with (run txs (settle s (invoke blk0 (CallRevoke sender pid) s))).
    apply (run_invariant
             (fun s => Permission.target (getPermission s sender pid) <> 0
                       /\ Permission.active (getPermission s sender pid) = false)
             (fun blk c => ~ In (sender, pid) (Spec.own_grant blk c))).
    - intros s0 st H. exact H.
    - intros blk c s0 Hw Hc [Ht Ha].
      destruct c; try discriminate Hw.
      + destruct (grant_step blk msg_sender executor target selector maxValue
                    maxTokenAmount tokenAddress expiry s0) as [-> | [_ ->]];
          [split; assumption |].
        unfold getPermission in *.
        cbn [permissions emit with_userPermissions with_permissions].
        rewrite lookup_insert.
        destruct (decide _) as [Heq | Hne]; [| split; assumption].
        exfalso. apply Hc. left. exact Heq.
      + destruct (revoke_step blk msg_sender permissionId s0)
          as [-> | (perm & Hp & Hpt & ->)]; [split; assumption |].
        unfold getPermission in *.
        cbn [permissions emit with_permissions].
        rewrite lookup_insert.
        destruct (decide _) as [Heq | Hne]; [| split; assumption].
        cbn [default from_option Datatypes.id]. destruct perm.
        split; [exact Hpt | reflexivity].
    - intros s0 executionId record recorded used _ _ H. exact H.
    - intros tx Hin. apply not_granted_writes. apply Hno. exact Hin.
    - destruct (revoke_step blk0 sender pid s)
        as [Hrej | (perm & Hp & Hpt & ->)].
      + exfalso. revert Hrej. cbn [invoke]. unfold revokePermission.
        apply Z.eqb_neq in Hstored. rewrite Hstored. cbn.
        intros Hrej. apply (f_equal logs) in Hrej. cbn in Hrej.
        apply (f_equal (@length _)) in Hrej. rewrite length_app in Hrej.
        cbn in Hrej. lia.
      + unfold getPermission. cbn [permissions emit with_permissions].
        rewrite lookup_insert_eq. cbn [default from_option Datatypes.id].
        destruct perm. split; [exact Hpt | reflexivity]. }
  destruct Hperm as [Ht Ha]. apply Z.eqb_neq in Ht.
  split.
  - intros blk target data value callee.
    unfold executeWithPermission, nonReentrant. rewrite Hguard.
    unfold executeWithPermission_body.
    rewrite getPermission_with_status, Ht, Ha. reflexivity.
  - intros blk tokenAddress to amount transfer.
    unfold executeTokenTransfer, nonReentrant. rewrite Hguard.
    unfold executeTokenTransfer_body.
    rewrite getPermission_with_status, Ht, Ha. reflexivity.
Qed.

Lemma revoked_capability_refuses_every_use_witness :
  executeWithPermission Scenario.grantee Cases.later Scenario.capability
    Scenario.target Scenario.payload 5 Scenario.quiet_callee
    (run ((Scenario.block, CallRevoke Scenario.grantee Scenario.capability)
          :: Cases.others) Scenario.granted)
  = Revert Inactive.
Proof.
  refine (proj1 (revoked_capability_refuses_every_use Scenario.block
                   Cases.others Scenario.granted Scenario.grantee
                   Scenario.capability eq_refl _ _)
            Cases.later Scenario.target Scenario.payload 5
            Scenario.quiet_callee).
  - vm_compute. discriminate.
  - intros tx [<- | [<- | [<- | [<- | []]]]]; vm_compute;
      intros H; repeat (destruct H as [H | H]; [discriminate H |]); exact H.
Defined.

(** ** Gated executions in sequence *)

Lemma with_status_same s : with_status (status s) s = s.
Proof. destruct s; reflexivity. Qed.

(** A gated execution that passes the gate and whose callee succeeds
    without calling back adds the record and the two events, and nothing
    else. *)
Lemma quiet_execution_step s sender pid target blk data value :
  status s = NOT_ENTERED ->
  Spec.earliest_violation
    (Spec.preconditions (getPermission s sender pid) target data value
       (timestamp blk)) = None ->
  transact s (Trace.quiet sender pid target (blk, data, value))
  = Trace.recorded sender pid target blk data value true "success" s.
Proof.
  intros Hst Hpass. unfold transact, Trace.quiet. cbn [fst snd].
  rewrite invoke_CallExecute.
  rewrite (executeWithPermission_passed _ _ _ _ _ _ _ _ Hst Hpass).
  destruct s; cbn in Hst; subst. reflexivity.
Qed.

Lemma recorded_keeps_the_gate sender pid target blk data value ok reason s a id :
  status (Trace.recorded sender pid target blk data value ok reason s) = status s
  /\ getPermission (Trace.recorded sender pid target blk data value ok reason s) a id
     = getPermission s a id.
Proof. split; reflexivity. Qed.

(** X8. The value limit bounds each call, not their sum, and an
    execution consumes nothing: over any sequence of gated executions
    under one capability, each of which passes the six checks against the
    capability as stored at the start (and whose callee succeeds without
    calling back), every call is executed and recorded, whatever the
    values add up to, and the capability is left as it was. *)
Theorem limits_bound_each_call_not_the_sum s sender pid target
    (calls : list (Block * bytes * Z)) :
  status s = NOT_ENTERED ->
  Forall (fun c =>
            Spec.earliest_violation
              (Spec.preconditions (getPermission s sender pid) target
                 (snd (fst c)) (snd c) (timestamp (fst (fst c)))) = None)
         calls ->
  getExecutionCount (run (map (Trace.quiet sender pid target) calls) s)
  = getExecutionCount s + Z.of_nat (length calls)
  /\ length (List.filter Spec.is_ExecutionRecorded
               (logs (run (map (Trace.quiet sender pid target) calls) s)))
     = (length (List.filter Spec.is_ExecutionRecorded (logs s)) + length calls)%nat
  /\ getPermission (run (map (Trace.quiet sender pid target) calls) s) sender pid
     = getPermission s sender pid.
Proof.
  revert s. induction calls as [| [[blk data] value] calls IH]; intros s Hst Hall.
  - cbn. repeat split; lia.
  - apply Forall_cons in Hall. destruct Hall as [Hc Hall]. cbn [fst snd] in Hc.
    cbn [map run fold_left].
    rewrite (quiet_execution_step s sender pid target blk data value Hst Hc).
    change (fold_left transact ?l ?x) with (run l x).
    destruct (recorded_keeps_the_gate sender pid target blk data value true
                "success" s sender pid) as [Hst' Hperm'].
    specialize (IH (Trace.recorded sender pid target blk data value true
                      "success" s)).
    rewrite Hperm' in IH. rewrite Hst' in IH.
    destruct (IH Hst Hall) as (H1 & H2 & H3).
    rewrite H1, H2, H3. unfold getExecutionCount, Trace.recorded.
    cbn [executionHistory logs emit with_executionHistory with_executions length].
    rewrite !List.filter_app, !length_app. cbn [List.filter Spec.is_ExecutionRecorded length app].
    repeat split; lia.
Qed.

Lemma limits_bound_each_call_not_the_sum_witness :
  getExecutionCount
    (run (map (Trace.quiet Scenario.grantee Scenario.capability Scenario.target)
            Cases.two_of_sixty) Scenario.granted)
  = getExecutionCount Scenario.granted + Z.of_nat (length Cases.two_of_sixty).
Proof.
  refine (proj1 (limits_bound_each_call_not_the_sum Scenario.granted
                   Scenario.grantee Scenario.capability Scenario.target
                   Cases.two_of_sixty eq_refl _)).
  repeat constructor.
Defined.

(** X9. Identical gated calls in one block share one execution record:
    the identifier is derived from sender, target, payload, value and
    block only, so each repetition overwrites the record of the one
    before. After [n + 1] such calls the history holds the identifier
    [n + 1] times while [getExecution] holds a single record for them. *)
Theorem identical_calls_share_one_record s sender pid target blk data value n :
  status s = NOT_ENTERED ->
  Spec.earliest_violation
    (Spec.preconditions (getPermission s sender pid) target data value
       (timestamp blk)) = None ->
  executionHistory
    (run (repeat (Trace.quiet sender pid target (blk, data, value)) (S n)) s)
  = executionHistory s
    ++ repeat (executionIdOf blk sender target data value) (S n)
  /\ executions
       (run (repeat (Trace.quiet sender pid target (blk, data, value)) (S n)) s)
     = <[executionIdOf blk sender target data value :=
           ExecutionRecord.mk sender target (bytes4_of_bytes data) value data
             (timestamp blk) pid true "success"]> (executions s).
Proof.
  intros Hst Hpass. revert s Hst Hpass.
  induction n as [| n IH]; intros s Hst Hpass.
  - cbn [repeat run fold_left].
    rewrite (quiet_execution_step s sender pid target blk data value Hst Hpass).
    split; reflexivity.
  - change (repeat ?x (S (S n))) with (x :: repeat x (S n)).
    cbn [run fold_left].
    rewrite (quiet_execution_step s sender pid target blk data value Hst Hpass).
    change (fold_left transact ?l ?x) with (run l x).
    destruct (IH (Trace.recorded sender pid target blk data value true
                    "success" s)) as [Hh He].
    + exact Hst.
    + exact Hpass.
    + rewrite Hh, He. unfold Trace.recorded.
      cbn [executionHistory executions emit with_executionHistory with_executions].
      split.
      * rewrite <- app_assoc. reflexivity.
      * apply insert_insert_eq.
Qed.

Lemma identical_calls_share_one_record_witness :
  executionHistory
    (run (repeat (Trace.quiet Scenario.grantee Scenario.capability
                    Scenario.target (Scenario.block, Scenario.payload, 5)) 2)
       Scenario.granted)
  = executionHistory Scenario.granted
    ++ repeat (executionIdOf Scenario.block Scenario.grantee Scenario.target
                 Scenario.payload 5) 2.
Proof.
  refine (proj1 (identical_calls_share_one_record Scenario.granted
                   Scenario.grantee Scenario.capability Scenario.target
                   Scenario.block Scenario.payload 5 1 eq_refl _)).
  vm_compute. reflexivity.
Defined.

(** ** Calls made by the callee *)

Lemma callbacks_skip_executions blk cs s :
  status s = ENTERED ->
  callbacks blk cs s = callbacks blk (List.filter Trace.is_write cs) s.
Proof.
  revert s. induction cs as [| c cs IH]; intros s Hst; [reflexivity |].
  pose proof (reentrant_call_refused blk c s Hst) as Href.
  destruct c; cbn [List.filter Trace.is_write]; rewrite !callbacks_cons.
  - apply IH. cbn [invoke]. rewrite settle_forget. unfold grantPermission.
    destruct (negb (target =? 0)); [| exact Hst].
    destruct ((expiry =? 0) || (expiry >? timestamp blk)); exact Hst.
  - apply IH. cbn [invoke]. unfold revokePermission.
    destruct (negb (Permission.target
                      (getPermission s msg_sender permissionId) =? 0));
      exact Hst.
  - rewrite Href. cbn [settle]. apply IH. exact Hst.
  - rewrite Href. cbn [settle]. apply IH. exact Hst.
Qed.

(** X10. While a gated execution or a token transfer runs, the callee
    cannot execute under any capability: each [executeWithPermission] and
    [executeTokenTransfer] it calls back fails on the re-entrancy guard,
    and the outer call ends exactly as if the callee had made only its
    grants and revokes. *)
Theorem nested_executions_are_refused blk s :
  (forall c,
     status s = ENTERED -> Trace.is_write c = false ->
     invoke blk c s = Revert ReentrancyGuardReentrantCall)
  /\ (forall sender pid target data value ok ret residue cs,
        invoke blk (CallExecute sender pid target data value ok ret residue cs) s
        = invoke blk (CallExecute sender pid target data value ok ret residue
                        (List.filter Trace.is_write cs)) s)
  /\ (forall sender pid tokenAddress to amount failed cs,
        invoke blk (CallTokenTransfer sender pid tokenAddress to amount failed cs) s
        = invoke blk (CallTokenTransfer sender pid tokenAddress to amount failed
                        (List.filter Trace.is_write cs)) s).
Proof.
  split; [| split].
  - intros c Hst Hc. pose proof (reentrant_call_refused blk c s Hst) as H.
    destruct c; try discriminate Hc; exact H.
  - intros. rewrite !invoke_CallExecute.
    unfold executeWithPermission, nonReentrant.
    destruct (status s); [| reflexivity].
    unfold executeWithPermission_body, low_level_call.
    cbn [call_success call_returnData call_residue call_ledger].
    rewrite (callbacks_skip_executions blk cs (with_status ENTERED s) eq_refl).
    reflexivity.
  - intros. rewrite !invoke_CallTokenTransfer.
    unfold executeTokenTransfer, nonReentrant.
    destruct (status s); [| reflexivity].
    unfold executeTokenTransfer_body.
    rewrite (callbacks_skip_executions blk cs (with_status ENTERED s) eq_refl).
    reflexivity.
Qed.

(** X11. A gated execution whose inner call reverts with [Error(reason)]
    does not revert itself: it returns false with the returned bytes,
    records the execution as failed with the reason string as the callee
    gave it, and whatever the callee wrote to the ledger before failing is
    rolled back, so the ledger differs from the one before the call by
    that record and the two events only. *)
Theorem inner_revert_is_recorded_with_its_reason
    blk sender pid target data value reason residue cs s :
  status s = NOT_ENTERED ->
  Spec.earliest_violation
    (Spec.preconditions (getPermission s sender pid) target data value
       (timestamp blk)) = None ->
  Z.of_nat (String.length reason) < 2 ^ 64 ->
  executeWithPermission sender blk pid target data value
    (fun s1 => mkCallResult false (Spec.encode_Error reason) residue
                 (callbacks blk cs s1)) s
  = Ok (Trace.recorded sender pid target blk data value false reason s,
        (false, Spec.encode_Error reason)).
Proof.
  intros Hst Hpass Hlen.
  rewrite (executeWithPermission_passed _ _ _ _ _ _ _ _ Hst Hpass).
  cbv zeta. unfold low_level_call.
  cbn [call_success call_returnData call_residue call_ledger].
  rewrite (extractRevertReason_decodes reason residue Hlen).
  destruct s; cbn in Hst; subst. reflexivity.
Qed.

Lemma inner_revert_is_recorded_with_its_reason_witness :
  executeWithPermission Scenario.grantee Scenario.block Scenario.capability
    Scenario.target Scenario.payload 5
    (fun s1 =>
       mkCallResult false (Spec.encode_Error "HypnosDemo: insufficient balance")
         [] (callbacks Scenario.block
               [CallRevoke Scenario.grantee Scenario.capability] s1))
    Scenario.granted
  = Ok (Trace.recorded Scenario.grantee Scenario.capability Scenario.target
          Scenario.block Scenario.payload 5 false
          "HypnosDemo: insufficient balance" Scenario.granted,
        (false, Spec.encode_Error "HypnosDemo: insufficient balance")).
Proof.
  apply (inner_revert_is_recorded_with_its_reason Scenario.block
           Scenario.grantee Scenario.capability Scenario.target
           Scenario.payload 5 "HypnosDemo: insufficient balance" []
           [CallRevoke Scenario.grantee Scenario.capability] Scenario.granted).
  - reflexivity.
  - vm_compute. reflexivity.
  - vm_compute. reflexivity.
Defined.

(** ** Granting *)

(** X12. [grantPermission] succeeds exactly when the target is not the
    zero address and the expiry is 0 or strictly after the block's time.
    It fails with "invalid target" for the zero address, whatever the
    expiry, and otherwise with "expired" for a non-zero expiry at or
    before the block's time; so a capability cannot be granted in the
    last second in which it could still be used. A failed grant changes
    nothing. *)
Theorem grant_fails_on_zero_target_or_past_expiry
    caller blk executor target selector maxValue maxTokenAmount tokenAddress
    expiry s :
  ((exists s' permissionId,
      grantPermission caller blk executor target selector maxValue
        maxTokenAmount tokenAddress expiry s = Ok (s', permissionId))
   <-> target <> 0 /\ (expiry = 0 \/ timestamp blk < expiry))
  /\ (grantPermission caller blk executor target selector maxValue
        maxTokenAmount tokenAddress expiry s = Revert InvalidTarget
      <-> target = 0)
  /\ (grantPermission caller blk executor target selector maxValue
        maxTokenAmount tokenAddress expiry s = Revert ExpiredGrant
      <-> target <> 0 /\ expiry <> 0 /\ expiry <= timestamp blk)
  /\ (forall failure,
        grantPermission caller blk executor target selector maxValue
          maxTokenAmount tokenAddress expiry s = Revert failure ->
        settle s (grantPermission caller blk executor target selector maxValue
                    maxTokenAmount tokenAddress expiry s) = s).
Proof.
  unfold grantPermission, InvalidTarget, ExpiredGrant.
  destruct (Z.eqb_spec target 0) as [Ht | Ht]; cbn [negb];
    [| destruct (Z.eqb_spec expiry 0) as [He | He]; cbn [orb];
       [| destruct (Z.gtb_spec expiry (timestamp blk)) as [Hg | Hg]]];
    cbv zeta;
    (split; [split | split; [split | split; [split |]]]); intros;
    repeat match goal with
           | H : exists _, _ |- _ => destruct H
           | H : _ /\ _ |- _ => destruct H
           end;
    try discriminate; try reflexivity; try lia; eauto.
Qed.

(** ** The selector check *)

Lemma bytes4_of_selector_and_arguments selector args :
  0 <= selector < 2 ^ 32 ->
  bytes4_of_bytes (be_bytes 4 selector ++ args) = selector.
Proof.
  intros Hsel. unfold bytes4_of_bytes.
  rewrite <- app_assoc, firstn_app, length_be_bytes.
  change (4 - 4)%nat with 0%nat. rewrite firstn_O, app_nil_r.
  rewrite firstn_all2 by (rewrite length_be_bytes; lia).
  rewrite be_word_be_bytes. apply Z.mod_small.
  change (256 ^ Z.of_nat 4) with (2 ^ 32). exact Hsel.
Qed.

(** X13. The selector check reads the first four bytes of the payload
    and nothing else. Under a capability bound to a selector (not the
    wildcard 0), with the other checks passing, a payload made of that
    selector followed by any arguments passes the gate, and an empty
    payload (a bare transfer of value) is refused with "selector
    mismatch". *)
Theorem selector_binds_the_function_not_its_arguments
    sender blk pid target value callee s :
  status s = NOT_ENTERED ->
  0 < Permission.selector (getPermission s sender pid) < 2 ^ 32 ->
  Spec.earliest_violation
    (Spec.preconditions
       (getPermission s sender pid) target
       (be_bytes 4 (Permission.selector (getPermission s sender pid)))
       value (timestamp blk)) = None ->
  (forall args,
     Spec.earliest_violation
       (Spec.preconditions
          (getPermission s sender pid) target
          (be_bytes 4 (Permission.selector (getPermission s sender pid)) ++ args)
          value (timestamp blk)) = None)
  /\ executeWithPermission sender blk pid target [] value callee s
     = Revert SelectorMismatch.
Proof.
  intros Hst Hsel Hpass.
  assert (Hpad : be_bytes 4 (Permission.selector (getPermission s sender pid))
                 = be_bytes 4 (Permission.selector (getPermission s sender pid))
                   ++ []) by (symmetry; apply app_nil_r).
  rewrite Hpad in Hpass. clear Hpad.
  unfold Spec.preconditions in Hpass |- *.
  cbn [Spec.earliest_violation] in Hpass |- *.
  rewrite bytes4_of_selector_and_arguments in Hpass by lia.
  repeat match type of Hpass with
         | (if ?c then _ else _) = None =>
             destruct c eqn:?; [| discriminate Hpass]
         end.
  split.
  - intros args. rewrite bytes4_of_selector_and_arguments by lia.
    rewrite Z.eqb_refl, orb_true_r. reflexivity.
  - unfold executeWithPermission, nonReentrant. rewrite Hst.
    unfold executeWithPermission_body. rewrite getPermission_with_status.
    repeat match goal with
           | H : ?c = true |- context [?c] => rewrite H
           end.
    change (bytes4_of_bytes []) with 0.
    assert (H0 : (Permission.selector (getPermission s sender pid) =? 0) = false)
      by (apply Z.eqb_neq; lia).
    rewrite H0. reflexivity.
Qed.

Lemma selector_binds_the_function_not_its_arguments_witness :
  executeWithPermission Scenario.grantee Scenario.block Cases.bound_capability
    Scenario.target [] 5 Scenario.quiet_callee Cases.bound
  = Revert SelectorMismatch.
Proof.
  refine (proj2 (selector_binds_the_function_not_its_arguments
                   Scenario.grantee Scenario.block Cases.bound_capability
                   Scenario.target 5 Scenario.quiet_callee Cases.bound
                   eq_refl _ _)).
  - vm_compute. split; reflexivity.
  - vm_compute. reflexivity.
Defined.

End LedgerInvariants.


(** * Properties of the demo target *)

Section DemoProperties.

Import (notations) HypnosExecutor.
Import HypnosExecutor(Failure(..), result(..), bind, Block(..), timestamp, number).
Import HypnosDemo.

(** ** Calls and the calls made back *)

Lemma Call_nested_ind (P : Call -> Prop) :
  (forall sender, P (CallIncrementCounter sender)) ->
  (forall sender newMessage, P (CallUpdateMessage sender newMessage)) ->
  (forall sender value, P (CallDeposit sender value)) ->
  (forall sender amount accepts cs,
     Forall P cs -> P (CallWithdraw sender amount accepts cs)) ->
  (forall sender, P (CallSnapshot sender)) ->
  forall c, P c.
Proof.
  intros Hinc Hmsg Hdep Hwd Hsnap.
  fix IH 1. intros [sender | sender m | sender v | sender amount accepts cs | sender].
  - apply Hinc.
  - apply Hmsg.
  - apply Hdep.
  - apply Hwd. revert cs. fix IHcs 1. intros [| c cs].
    + constructor.
    + constructor; [apply IH | apply IHcs].
  - apply Hsnap.
Qed.

Lemma invoke_CallWithdraw blk sender amount accepts cs s :
  invoke blk (CallWithdraw sender amount accepts cs) s
  = withdraw sender amount blk
      (fun s1 => if accepts then Some (callbacks blk cs s1) else None) s.
Proof. reflexivity. Qed.

Lemma demo_callbacks_cons blk c cs s :
  callbacks blk (c :: cs) s = callbacks blk cs (settle s (invoke blk c s)).
Proof. reflexivity. Qed.

(** A withdrawal either changes nothing, or debits the sender, lets the
    recipient run, and emits its event on what the recipient left. *)
Lemma withdraw_cases blk sender amount accepts cs s :
  settle s (invoke blk (CallWithdraw sender amount accepts cs) s) = s
  \/ ((amount <= balanceOf s sender)%N
      /\ (amount <= funds s)%N
      /\ settle s (invoke blk (CallWithdraw sender amount accepts cs) s)
         = emit (BalanceWithdrawn sender amount
                   (balanceOf (callbacks blk cs (debited sender amount blk s))
                      sender)
                   (timestamp blk))
             (callbacks blk cs (debited sender amount blk s))).
Proof.
  rewrite invoke_CallWithdraw. unfold withdraw.
  destruct (N.leb_spec amount (balanceOf s sender)) as [Hbal | Hbal];
    [| left; reflexivity].
  unfold checked_sub. destruct (N.leb_spec amount (balanceOf s sender)); [| lia].
  cbn [bind]. cbv zeta.
  destruct (checked_add _ 1) as [n |] eqn:Hn; [| left; reflexivity].
  cbn [bind]. unfold send_value.
  cbn [funds with_callerCounts with_lastUpdate with_lastCaller with_balances].
  destruct (N.ltb_spec (funds s) amount) as [Hf | Hf]; [left; reflexivity |].
  destruct accepts; [| left; reflexivity].
  right. split; [exact Hbal |]. split; [exact Hf |].
  cbn [fst snd settle].
  unfold checked_add in Hn.
  destruct (_ <=? MAX_UINT256)%N; [| discriminate Hn].
  injection Hn as <-. reflexivity.
Qed.

(** ** A proof rule for conserved quantities

    A quantity read off the contract and its log is the same after every
    run when the calls other than [withdraw] keep it, and what the debit
    of a withdrawal takes off it is what the event of the withdrawal adds
    back. *)
Section Conserved.

Variable Q : Demo -> Z.
Variable delta : Z -> N -> Z.

Hypothesis Q_increment :
  forall blk sender s,
    Q (settle s (invoke blk (CallIncrementCounter sender) s)) = Q s.
Hypothesis Q_message :
  forall blk sender m s,
    Q (settle s (invoke blk (CallUpdateMessage sender m) s)) = Q s.
Hypothesis Q_deposit :
  forall blk sender value s,
    Q (settle s (invoke blk (CallDeposit sender value) s)) = Q s.
Hypothesis Q_snapshot :
  forall blk sender s,
    Q (settle s (invoke blk (CallSnapshot sender) s)) = Q s.
Hypothesis Q_debited :
  forall blk sender amount s,
    (amount <= balanceOf s sender)%N -> (amount <= funds s)%N ->
    Q (debited sender amount blk s) = Q s - delta sender amount.
Hypothesis Q_withdrawn :
  forall sender amount newBalance now s,
    Q (emit (BalanceWithdrawn sender amount newBalance now) s)
    = Q s + delta sender amount.

Lemma callbacks_conserve blk cs :
  Forall (fun c => forall s, Q (settle s (invoke blk c s)) = Q s) cs ->
  forall s, Q (callbacks blk cs s) = Q s.
Proof.
  induction 1 as [| c cs Hc _ IH]; intros s; [reflexivity |].
  rewrite demo_callbacks_cons, IH. apply Hc.
Qed.

Lemma invoke_conserves blk c : forall s, Q (settle s (invoke blk c s)) = Q s.
Proof.
  induction c as [sender | sender m | sender v | sender amount accepts cs IH
                  | sender] using Call_nested_ind; intros s.
  - apply Q_increment.
  - apply Q_message.
  - apply Q_deposit.
  - destruct (withdraw_cases blk sender amount accepts cs s)
      as [-> | (Hbal & Hf & ->)]; [reflexivity |].
    rewrite Q_withdrawn, (callbacks_conserve blk cs IH), Q_debited by assumption.
    lia.
  - apply Q_snapshot.
Qed.

Lemma run_conserves txs s : Q (run txs s) = Q s.
Proof.
  revert s. induction txs as [| [blk c] txs IH]; intros s; [reflexivity |].
  cbn [run fold_left]. change (fold_left transact txs ?x) with (run txs x).
  rewrite IH. apply invoke_conserves.
Qed.

End Conserved.

(** ** Sums over balances and logs *)

Lemma total_insert_fresh (m : gmap Z N) k v :
  m !! k = None -> total (<[k := v]> m) = (v + total m)%N.
Proof.
  intros Hk. unfold total. apply map_fold_insert_L; [| exact Hk].
  intros. lia.
Qed.

Lemma total_insert (m : gmap Z N) k v :
  total (<[k := v]> m) = (v + total (delete k m))%N.
Proof.
  rewrite <- insert_delete_eq. apply total_insert_fresh, lookup_delete_eq.
Qed.

Lemma total_lookup (m : gmap Z N) k :
  total m = (default 0%N (m !! k) + total (delete k m))%N.
Proof.
  destruct (m !! k) as [x |] eqn:Hk; cbn.
  - rewrite <- (insert_delete_id m k x Hk) at 1.
    apply total_insert_fresh, lookup_delete_eq.
  - rewrite delete_id by exact Hk. reflexivity.
Qed.

Lemma deposited_snoc a events e :
  deposited a (events ++ [e]) = (deposited a events + credit a e)%N.
Proof. unfold deposited. rewrite fold_left_app. reflexivity. Qed.

Lemma withdrawn_snoc a events e :
  withdrawn a (events ++ [e]) = (withdrawn a events + debit a e)%N.
Proof. unfold withdrawn. rewrite fold_left_app. reflexivity. Qed.

Lemma count_snoc (f : Event -> bool) events e :
  Z.of_nat (length (List.filter f (events ++ [e])))
  = Z.of_nat (length (List.filter f events)) + (if f e then 1 else 0).
Proof.
  rewrite List.filter_app, length_app. cbn [List.filter].
  destruct (f e); cbn [length]; lia.
Qed.

Lemma balanceOf_insert s k v a m :
  balances s = <[k := v]> m ->
  balanceOf s a = if decide (k = a) then v else default 0%N (m !! a).
Proof.
  intros H. unfold balanceOf. rewrite H, lookup_insert.
  destruct (decide (k = a)); reflexivity.
Qed.

(** Unfolds a call other than [withdraw] into the cases of its checks. *)
Ltac demo_call :=
  intros; cbn [invoke];
  unfold forget, incrementCounter, updateMessage, deposit, snapshot, checked_add;
  repeat (match goal with
          | |- context [if (?a <=? ?b)%N then _ else _] =>
              destruct (N.leb_spec a b)
          | |- context [if (?a <? ?b)%N then _ else _] =>
              destruct (N.ltb_spec a b)
          end; cbn [bind settle fst snd]);
  try reflexivity.

Ltac demo_fields :=
  cbn [state counter message lastCaller lastUpdate callerCounts balances funds
       logs emit with_counter with_message with_lastCaller with_lastUpdate
       with_callerCounts with_balances with_funds debited credit debit
       is_CounterIncremented caller_of default from_option Datatypes.id].

(** The ether held less the sum of the balances is the same after every
    run. *)
Lemma surplus_is_conserved txs s :
  Z.of_N (funds (run txs s)) - Z.of_N (total (balances (run txs s)))
  = Z.of_N (funds s) - Z.of_N (total (balances s)).
Proof.
  apply (run_conserves
           (fun s => Z.of_N (funds s) - Z.of_N (total (balances s)))
           (fun _ _ => 0)).
  - demo_call.
  - demo_call.
  - demo_call. unfold balanceOf.
    cbn [funds balances emit with_callerCounts with_lastUpdate with_lastCaller
         with_balances with_funds].
    rewrite total_insert, (total_lookup (balances s0) sender). lia.
  - demo_call.
  - intros blk sender amount s0 Hbal Hf. cbn [debited funds balances].
    rewrite total_insert, (total_lookup (balances s0) sender).
    unfold balanceOf in *. lia.
  - intros. cbn [emit funds balances]. lia.
Qed.

(** X14. The demo contract holds what it owes. In every state reached
    from the constructor by calls of its five functions, with the calls a
    recipient makes back while a withdrawal hands it control, the ether the
    contract holds is the ether its address held at deployment plus the
    sum of all balances; so no balance exceeds the contract's ether, and
    re-entering [withdraw] cannot take out more than was put in. *)
Theorem demo_holds_what_it_owes blk0 held txs :
  funds (run txs (constructor blk0 held))
  = (held + total (balances (run txs (constructor blk0 held))))%N
  /\ forall account,
       (balanceOf (run txs (constructor blk0 held)) account
        <= funds (run txs (constructor blk0 held)))%N.
Proof.
  pose proof (surplus_is_conserved txs (constructor blk0 held)) as H.
  cbn [constructor funds balances] in H. unfold total at 2 in H.
  rewrite map_fold_empty in H.
  split; [lia |].
  intros account.
  rewrite (total_lookup _ account) in H. unfold balanceOf. lia.
Qed.

(** X15. Every balance is what the events say was deposited less what
    they say was withdrawn: in every state reached from the constructor,
    for every account, the balance plus the amounts of the account's
    [BalanceWithdrawn] events equals the amounts of its [BalanceDeposited]
    events, also when withdrawals are re-entered. *)
Theorem demo_balance_follows_the_events blk0 held txs account :
  (balanceOf (run txs (constructor blk0 held)) account
   + withdrawn account (logs (run txs (constructor blk0 held))))%N
  = deposited account (logs (run txs (constructor blk0 held))).
Proof.
  assert (H : Z.of_N (balanceOf (run txs (constructor blk0 held)) account)
              + Z.of_N (withdrawn account (logs (run txs (constructor blk0 held))))
              - Z.of_N (deposited account (logs (run txs (constructor blk0 held))))
              = 0).
  { rewrite (run_conserves
               (fun s => Z.of_N (balanceOf s account)
                         + Z.of_N (withdrawn account (logs s))
                         - Z.of_N (deposited account (logs s)))
               (fun sender amount =>
                  if decide (sender = account) then Z.of_N amount else 0)).
    - reflexivity.
    - demo_call.
      cbn [logs emit]. rewrite withdrawn_snoc, deposited_snoc.
      unfold balanceOf. demo_fields. lia.
    - demo_call.
      cbn [logs emit]. rewrite withdrawn_snoc, deposited_snoc.
      unfold balanceOf. demo_fields. lia.
    - demo_call.
      cbn [logs emit]. rewrite withdrawn_snoc, deposited_snoc.
      unfold balanceOf.
      cbn [balances logs emit with_callerCounts with_lastUpdate with_lastCaller
           with_balances with_funds credit debit].
      rewrite !lookup_insert.
      destruct (decide (sender = account)) as [-> |];
        cbn [default from_option Datatypes.id]; lia.
    - demo_call.
      cbn [logs emit]. rewrite withdrawn_snoc, deposited_snoc.
      unfold balanceOf. demo_fields. lia.
    - intros blk sender amount s Hbal Hf.
      unfold debited, balanceOf in *. cbn [balances logs]. rewrite lookup_insert.
      destruct (decide (sender = account)) as [<- |];
        cbn [default from_option Datatypes.id]; lia.
    - intros sender amount newBalance now s.
      cbn [logs emit]. rewrite withdrawn_snoc, deposited_snoc.
      unfold balanceOf. demo_fields.
      destruct (decide (sender = account)); lia. }
  lia.
Qed.

(** The counter less the number of [CounterIncremented] events is the
    same after every run. *)
Lemma counter_tracks_increments txs s :
  Z.of_N (counter (state (run txs s)))
  - Z.of_nat (length (List.filter is_CounterIncremented (logs (run txs s))))
  = Z.of_N (counter (state s))
    - Z.of_nat (length (List.filter is_CounterIncremented (logs s))).
Proof.
  apply (run_conserves
           (fun s => Z.of_N (counter (state s))
                     - Z.of_nat (length (List.filter is_CounterIncremented
                                           (logs s))))
           (fun _ _ => 0)).
  - demo_call. cbn [logs emit]. rewrite count_snoc. demo_fields. lia.
  - demo_call. cbn [logs emit]. rewrite count_snoc. demo_fields. lia.
  - demo_call. cbn [logs emit]. rewrite count_snoc. demo_fields. lia.
  - demo_call. cbn [logs emit]. rewrite count_snoc. demo_fields. lia.
  - intros. demo_fields. lia.
  - intros. cbn [logs emit]. rewrite count_snoc. demo_fields. lia.
Qed.

(** X16. The counters count the events: in every state reached from the
    constructor, [state.counter] is the number of [CounterIncremented]
    events emitted, and [getCallerCount] of an account is the number of
    events, of any of the five kinds, that name the account as their
    caller. *)
Theorem demo_counters_count_the_events blk0 held txs :
  counter (state (run txs (constructor blk0 held)))
  = N.of_nat (length (List.filter is_CounterIncremented
                        (logs (run txs (constructor blk0 held)))))
  /\ forall account,
       getCallerCount (run txs (constructor blk0 held)) account
       = N.of_nat (length (List.filter (called_by account)
                             (logs (run txs (constructor blk0 held))))).
Proof.
  split.
  - pose proof (counter_tracks_increments txs (constructor blk0 held)) as H.
    cbn in H.
    lia.
  - intros account.
    assert (H : Z.of_N (getCallerCount (run txs (constructor blk0 held)) account)
                - Z.of_nat (length (List.filter (called_by account)
                                      (logs (run txs (constructor blk0 held)))))
                = 0).
    { rewrite (run_conserves
                 (fun s => Z.of_N (getCallerCount s account)
                           - Z.of_nat (length (List.filter (called_by account)
                                                 (logs s))))
                 (fun sender _ => if decide (sender = account) then -1 else 0)).
      - reflexivity.
      - demo_call. cbn [logs emit]. rewrite count_snoc.
        unfold getCallerCount, called_by. demo_fields. rewrite lookup_insert.
        destruct (decide (sender = account)) as [<- |].
        + rewrite bool_decide_eq_true_2 by reflexivity. demo_fields. lia.
        + rewrite bool_decide_eq_false_2 by assumption. demo_fields. lia.
      - demo_call. cbn [logs emit]. rewrite count_snoc.
        unfold getCallerCount, called_by. demo_fields. rewrite lookup_insert.
        destruct (decide (sender = account)) as [<- |].
        + rewrite bool_decide_eq_true_2 by reflexivity. demo_fields. lia.
        + rewrite bool_decide_eq_false_2 by assumption. demo_fields. lia.
      - demo_call. cbn [logs emit]. rewrite count_snoc.
        unfold getCallerCount, called_by. demo_fields. rewrite lookup_insert.
        destruct (decide (sender = account)) as [<- |].
        + rewrite bool_decide_eq_true_2 by reflexivity. demo_fields. lia.
        + rewrite bool_decide_eq_false_2 by assumption. demo_fields. lia.
      - demo_call. cbn [logs emit]. rewrite count_snoc.
        unfold getCallerCount, called_by. demo_fields. rewrite lookup_insert.
        destruct (decide (sender = account)) as [<- |].
        + rewrite bool_decide_eq_true_2 by reflexivity. demo_fields. lia.
        + rewrite bool_decide_eq_false_2 by assumption. demo_fields. lia.
      - intros blk sender amount s _ _.
        unfold debited, getCallerCount. cbn [state callerCounts logs].
        rewrite lookup_insert.
        destruct (decide (sender = account)) as [<- |];
          cbn [default from_option Datatypes.id]; lia.
      - intros sender amount newBalance now s. cbn [logs emit].
        rewrite count_snoc. unfold getCallerCount, called_by. demo_fields.
        destruct (decide (sender = account)) as [<- |].
        + rewrite bool_decide_eq_true_2 by reflexivity. lia.
        + rewrite bool_decide_eq_false_2 by assumption. lia. }
    lia.
Qed.

(** X17. Every balance can be taken out. In every state reached from the
    constructor, a withdrawal of any amount up to the sender's balance by
    a recipient that accepts the ether succeeds, whatever calls the
    recipient makes back (the contract always holds the ether, and the
    debit is made before the ether is sent); without calls back it lowers
    the balance and the contract's ether by exactly the amount. The same
    withdrawal fails with "withdrawal failed" when the recipient refuses
    the ether, and any amount above the balance fails with "insufficient
    balance". (The sender's call count is assumed below its maximum.) *)
Theorem every_balance_can_be_withdrawn blk0 held txs s blk sender amount cs :
  s = run txs (constructor blk0 held) ->
  (amount <= balanceOf s sender)%N ->
  (getCallerCount s sender < MAX_UINT256)%N ->
  invoke blk (CallWithdraw sender amount true cs) s
  = Ok (emit (BalanceWithdrawn sender amount
                (balanceOf (callbacks blk cs (debited sender amount blk s)) sender)
                (timestamp blk))
          (callbacks blk cs (debited sender amount blk s)), tt)
  /\ balanceOf (settle s (invoke blk (CallWithdraw sender amount true []) s))
       sender
     = (balanceOf s sender - amount)%N
  /\ funds (settle s (invoke blk (CallWithdraw sender amount true []) s))
     = (funds s - amount)%N
  /\ invoke blk (CallWithdraw sender amount false cs) s = Revert WithdrawalFailed
  /\ forall more accepts,
       (balanceOf s sender < more)%N ->
       invoke blk (CallWithdraw sender more accepts cs) s
       = Revert InsufficientBalance.
Proof.
  intros Hs Hbal Hcount.
  assert (Hfunds : (amount <= funds s)%N).
  { pose proof (surplus_is_conserved txs (constructor blk0 held)) as H.
    rewrite <- Hs in H. cbn [constructor funds balances] in H.
    unfold total at 2 in H. rewrite map_fold_empty in H.
    rewrite (total_lookup _ sender) in H. unfold balanceOf in Hbal. lia. }
  assert (Hok : forall cs',
    invoke blk (CallWithdraw sender amount true cs') s
    = Ok (emit (BalanceWithdrawn sender amount
                  (balanceOf (callbacks blk cs' (debited sender amount blk s))
                     sender)
                  (timestamp blk))
            (callbacks blk cs' (debited sender amount blk s)), tt)).
  { intros cs'. rewrite invoke_CallWithdraw. unfold withdraw.
    destruct (N.leb_spec amount (balanceOf s sender)); [| lia].
    unfold checked_sub.
    destruct (N.leb_spec amount (balanceOf s sender)); [| lia].
    cbn [bind]. cbv zeta. unfold checked_add, getCallerCount in *.
    cbn [state callerCounts with_callerCounts with_lastUpdate with_lastCaller
         with_balances].
    destruct (N.leb_spec (default 0%N (callerCounts (state s) !! sender) + 1)
                MAX_UINT256); [| lia].
    cbn [bind]. unfold send_value.
    cbn [funds with_callerCounts with_lastUpdate with_lastCaller with_balances].
    destruct (N.ltb_spec (funds s) amount); [lia |].
    reflexivity. }
  split; [apply Hok |]. split; [| split; [| split]].
  - rewrite Hok. cbn [settle callbacks fold_left]. unfold balanceOf.
    cbn [balances emit debited]. rewrite lookup_insert_eq. reflexivity.
  - rewrite Hok. reflexivity.
  - rewrite invoke_CallWithdraw. unfold withdraw.
    destruct (N.leb_spec amount (balanceOf s sender)); [| lia].
    unfold checked_sub.
    destruct (N.leb_spec amount (balanceOf s sender)); [| lia].
    cbn [bind]. cbv zeta. unfold checked_add, getCallerCount in *.
    cbn [state callerCounts with_callerCounts with_lastUpdate with_lastCaller
         with_balances].
    destruct (N.leb_spec (default 0%N (callerCounts (state s) !! sender) + 1)
                MAX_UINT256); [| lia].
    cbn [bind]. unfold send_value.
    cbn [funds with_callerCounts with_lastUpdate with_lastCaller with_balances].
    destruct (N.ltb_spec (funds s) amount); reflexivity.
  - intros more accepts Hmore. rewrite invoke_CallWithdraw. unfold withdraw.
    destruct (N.leb_spec more (balanceOf s sender)); [lia | reflexivity].
Qed.

Lemma every_balance_can_be_withdrawn_witness :
  funds (settle DemoCases.funded
           (invoke Cases.later (CallWithdraw DemoCases.saver 40 true [])
              DemoCases.funded))
  = (funds DemoCases.funded - 40)%N.
Proof.
  refine (proj1 (proj2 (proj2
            (every_balance_can_be_withdrawn Scenario.block 0 DemoCases.deposits
               DemoCases.funded Cases.later DemoCases.saver 40 [] _ _ _)))).
  - vm_compute. reflexivity.
  - apply N.leb_le. vm_compute. reflexivity.
  - vm_compute. reflexivity.
Defined.

End DemoProperties.


(** * The graph-ts mirror against the ledger *)

Section MirrorAgreement.

Import HypnosExecutor.

#[local] Arguments keccak256 : simpl never.
#[local] Arguments be_bytes : simpl never.
#[local] Arguments permissionIdOf : simpl never.

(** ** Identifiers and their text *)

Lemma be_word_bound bs :
  Forall Agreement.byte_range bs -> 0 <= be_word bs < 256 ^ Z.of_nat (length bs).
Proof.
  induction bs as [| b bs IH] using rev_ind; intros Hbs.
  - cbn. lia.
  - apply Forall_app in Hbs. destruct Hbs as [Hbs Hb].
    apply Forall_cons in Hb. destruct Hb as [Hb _]. unfold Agreement.byte_range in Hb.
    specialize (IH Hbs). rewrite be_word_snoc, length_app. cbn [length].
    replace (Z.of_nat (length bs + 1)) with (Z.of_nat (length bs) + 1) by lia.
    rewrite Z.pow_add_r by lia. lia.
Qed.

Lemma le_bytes_range n z : Forall Agreement.byte_range (le_bytes n z).
Proof.
  revert z. induction n as [| n IH]; intros z; cbn [le_bytes]; constructor.
  - unfold Agreement.byte_range. apply Z.mod_pos_bound. lia.
  - apply IH.
Qed.

Lemma be_bytes_range n z : Forall Agreement.byte_range (be_bytes n z).
Proof. unfold be_bytes. apply Forall_rev, le_bytes_range. Qed.

Lemma keccak256_range msg : 0 <= keccak256 msg < 2 ^ 256.
Proof.
  unfold keccak256, keccak256_bytes.
  set (st := absorb _ _ _). clearbody st.
  assert (Hr : Forall Agreement.byte_range (flat_map (le_bytes 8) (firstn 4 st))).
  { induction (firstn 4 st) as [| l ls IH]; cbn [flat_map]; [constructor |].
    apply Forall_app. split; [apply le_bytes_range | exact IH]. }
  assert (Hl : (length (flat_map (le_bytes 8) (firstn 4 st)) <= 32)%nat).
  { assert (H4 : (length (firstn 4 st) <= 4)%nat) by apply firstn_le_length.
    revert H4. generalize (firstn 4 st). intros ls.
    assert (Hlen : length (flat_map (le_bytes 8) ls) = (8 * length ls)%nat).
    { induction ls as [| l ls IH]; [reflexivity |].
      cbn [flat_map]. rewrite length_app, length_le_bytes, IH. cbn [length]. lia. }
    rewrite Hlen. lia. }
  pose proof (be_word_bound _ Hr) as Hb.
  assert (256 ^ Z.of_nat (length (flat_map (le_bytes 8) (firstn 4 st)))
          <= 256 ^ 32) by (apply Z.pow_le_mono_r; lia).
  change (2 ^ 256) with (256 ^ 32). lia.
Qed.

Lemma hex_digit_inj d d' :
  0 <= d < 16 -> 0 <= d' < 16 -> hex_digit d = hex_digit d' -> d = d'.
Proof.
  intros Hd Hd' H.
  assert (Hc : forall x, 0 <= x < 16 ->
                 x = 0 \/ x = 1 \/ x = 2 \/ x = 3 \/ x = 4 \/ x = 5 \/ x = 6
                 \/ x = 7 \/ x = 8 \/ x = 9 \/ x = 10 \/ x = 11 \/ x = 12
                 \/ x = 13 \/ x = 14 \/ x = 15) by (intros; lia).
  destruct (Hc d Hd) as [-> | [-> | [-> | [-> | [-> | [-> | [-> | [-> | [-> |
    [-> | [-> | [-> | [-> | [-> | [-> | ->]]]]]]]]]]]]]]];
  destruct (Hc d' Hd') as [-> | [-> | [-> | [-> | [-> | [-> | [-> | [-> | [-> |
    [-> | [-> | [-> | [-> | [-> | [-> | ->]]]]]]]]]]]]]]];
  first [reflexivity | vm_compute in H; discriminate H].
Qed.

Lemma hex_of_bytes_inj bs bs' :
  Forall Agreement.byte_range bs -> Forall Agreement.byte_range bs' ->
  hex_of_bytes bs = hex_of_bytes bs' -> bs = bs'.
Proof.
  intros Hbs. revert bs'. induction Hbs as [| b bs Hb _ IH]; intros bs' Hbs' H.
  - destruct bs'; [reflexivity | discriminate H].
  - destruct Hbs' as [| b' bs' Hb' Hbs']; [discriminate H |].
    cbn [hex_of_bytes] in H. injection H as H1 H2 H3.
    unfold Agreement.byte_range in Hb, Hb'.
    apply hex_digit_inj in H1;
      [| split; [apply Z.div_pos | apply Z.div_lt_upper_bound]; lia
       | split; [apply Z.div_pos | apply Z.div_lt_upper_bound]; lia].
    apply hex_digit_inj in H2; [| apply Z.mod_pos_bound; lia ..].
    f_equal; [| apply IH; assumption].
    rewrite (Z.div_mod b 16), (Z.div_mod b' 16) by lia. lia.
Qed.

Lemma bytes32_text_inj id id' :
  0 <= id < 2 ^ 256 -> 0 <= id' < 2 ^ 256 ->
  Subgraph.bytes32_text id = Subgraph.bytes32_text id' -> id = id'.
Proof.
  intros Hid Hid' H. unfold Subgraph.bytes32_text, toHexString in H.
  assert (Hhex : hex_of_bytes (be_bytes 32 id) = hex_of_bytes (be_bytes 32 id')).
  { revert H. generalize (hex_of_bytes (be_bytes 32 id)).
    generalize (hex_of_bytes (be_bytes 32 id')). intros a b H.
    cbn [String.append] in H. injection H as H. exact H. }
  clear H. rename Hhex into H.
  apply hex_of_bytes_inj in H; [| apply be_bytes_range ..].
  apply (f_equal be_word) in H. rewrite !be_word_be_bytes in H.
  change (256 ^ Z.of_nat 32) with (2 ^ 256) in H.
  rewrite !Z.mod_small in H by assumption. exact H.
Qed.

(** ** Logs and streams *)

Lemma grants_in_app events events' :
  Agreement.grants_in (events ++ events')
  = Agreement.grants_in events ++ Agreement.grants_in events'.
Proof. unfold Agreement.grants_in. apply flat_map_app. Qed.

Lemma single_owner_prefix events events' :
  Agreement.single_owner (events ++ events') -> Agreement.single_owner events.
Proof.
  intros H u u' id Hu Hu'. apply (H u u' id);
    rewrite grants_in_app; apply in_or_app; left; assumption.
Qed.

Lemma stream_snoc (stream : list Subgraph.Event) events e :
  map Subgraph.parameters stream = events ++ [e] ->
  exists stream0 event,
    stream = stream0 ++ [event]
    /\ map Subgraph.parameters stream0 = events
    /\ Subgraph.parameters event = e.
Proof.
  intros H. apply map_eq_app in H. destruct H as (l1 & l2 & -> & H1 & H2).
  destruct l2 as [| event [| ? ?]]; try discriminate H2.
  injection H2 as H2. exists l1, event. repeat split; assumption.
Qed.

Lemma subgraph_reconcile_snoc stream event store :
  Subgraph.reconcile (stream ++ [event]) store
  = Subgraph.handleHypnosExecutor (Subgraph.reconcile stream store) event.
Proof. unfold Subgraph.reconcile. rewrite fold_left_app. reflexivity. Qed.

Lemma agrees_same_rows s s' store store' :
  permissions s' = permissions s ->
  Subgraph.Permissions store' = Subgraph.Permissions store ->
  Agreement.agrees s store -> Agreement.agrees s' store'.
Proof.
  intros Hs Hstore H u id. unfold getPermission. rewrite Hs, Hstore. apply H.
Qed.

(** What the ledger stores was granted, under an identifier that fits 32
    bytes; and the mirror of the log agrees with the ledger. *)
Lemma mirror_follows_the_log deployer txs :
  Agreement.single_owner (logs (run txs (constructor deployer))) ->
  (forall u id,
     Permission.target (getPermission (run txs (constructor deployer)) u id) <> 0 ->
     In (u, id) (Agreement.grants_in (logs (run txs (constructor deployer))))
     /\ 0 <= id < 2 ^ 256)
  /\ forall stream,
       map Subgraph.parameters stream = logs (run txs (constructor deployer)) ->
       Agreement.agrees (run txs (constructor deployer))
         (Subgraph.reconcile stream Subgraph.empty).
Proof.
  apply (run_invariant
           (fun s =>
              Agreement.single_owner (logs s) ->
              (forall u id,
                 Permission.target (getPermission s u id) <> 0 ->
                 In (u, id) (Agreement.grants_in (logs s)) /\ 0 <= id < 2 ^ 256)
              /\ forall stream,
                   map Subgraph.parameters stream = logs s ->
                   Agreement.agrees s (Subgraph.reconcile stream Subgraph.empty))
           (fun _ _ => True)).
  - intros s st H. exact H.
  - intros blk c s Hw _ HP.
    destruct c; try discriminate Hw.
    + destruct (grant_step blk msg_sender executor target selector maxValue
                  maxTokenAmount tokenAddress expiry s) as [-> | [Ht ->]];
        [exact HP |].
      set (pid := permissionIdOf blk executor target selector maxValue
                    maxTokenAmount tokenAddress expiry).
      assert (Hpid : 0 <= pid < 2 ^ 256)
        by (unfold pid, permissionIdOf; apply keccak256_range).
      cbn [logs emit with_userPermissions with_permissions]. intros Hso.
      destruct (HP (single_owner_prefix _ _ Hso)) as [Hinv Hag].
      assert (Hinv' : forall u id,
        Permission.target
          (default Permission.zero
             (<[(executor, pid) :=
                  Permission.mk target selector maxValue maxTokenAmount
                    tokenAddress expiry true]> (permissions s) !! (u, id))) <> 0 ->
        In (u, id)
          (Agreement.grants_in
             (logs s ++ [PermissionGranted executor pid target selector maxValue
                           maxTokenAmount tokenAddress expiry]))
        /\ 0 <= id < 2 ^ 256).
      { intros u id. rewrite lookup_insert, grants_in_app.
        destruct (decide ((executor, pid) = (u, id))) as [Heq | Hne].
        - injection Heq as <- <-. intros _. split; [| exact Hpid].
          apply in_or_app. right. left. reflexivity.
        - intros Hst. destruct (Hinv u id Hst) as [Hin Hr].
          split; [apply in_or_app; left; exact Hin | exact Hr]. }
      split; [exact Hinv' |].
      intros stream Hstream.
      destruct (stream_snoc _ _ _ Hstream) as (stream0 & event & -> & H0 & He).
      rewrite subgraph_reconcile_snoc. unfold Subgraph.handleHypnosExecutor.
      rewrite He. unfold Subgraph.handlePermissionGranted, Subgraph.save.
      cbn [Subgraph.Permission.id].
      intros u id. unfold getPermission.
      cbn [permissions emit with_userPermissions with_permissions
           Subgraph.Permissions]. intros Hst.
      destruct (decide ((executor, pid) = (u, id))) as [Heq | Hne].
      * injection Heq as <- <-. rewrite !lookup_insert_eq.
        eexists. split; [reflexivity |]. repeat split.
      * destruct (Hinv' u id Hst) as [Hin Hr].
        rewrite (lookup_insert_ne (permissions s)) in Hst |- * by exact Hne.
        destruct (Hag stream0 H0 u id Hst) as (row & Hrow & Hid & Huser & Hact).
        destruct (decide (Subgraph.bytes32_text pid = Subgraph.bytes32_text id))
          as [Htext | Htext].
        -- exfalso. apply bytes32_text_inj in Htext; [| assumption ..].
           subst id. apply Hne. f_equal.
           apply (Hso executor u pid); [| exact Hin].
           rewrite grants_in_app. apply in_or_app. right. left. reflexivity.
        -- rewrite lookup_insert_ne by exact Htext.
           exists row. repeat split; assumption.
    + destruct (revoke_step blk msg_sender permissionId s)
        as [-> | (perm & Hp & Ht & ->)]; [exact HP |].
      cbn [logs emit with_permissions]. intros Hso.
      destruct (HP (single_owner_prefix _ _ Hso)) as [Hinv Hag].
      assert (Hstored : Permission.target
                          (getPermission s msg_sender permissionId) <> 0)
        by (unfold getPermission; rewrite Hp; exact Ht).
      assert (Hsame : forall u id,
        Permission.target
          (default Permission.zero
             (<[(msg_sender, permissionId) := Permission.set_active false perm]>
                (permissions s) !! (u, id))) <> 0 ->
        Permission.target (getPermission s u id) <> 0).
      { intros u id. rewrite lookup_insert.
        destruct (decide ((msg_sender, permissionId) = (u, id))) as [Heq | Hne].
        - injection Heq as <- <-. intros _. exact Hstored.
        - intros H. exact H. }
      split.
      { intros u id Hst. destruct (Hinv u id (Hsame u id Hst)) as [Hin Hr].
        split; [| exact Hr]. rewrite grants_in_app. apply in_or_app. left.
        exact Hin. }
      intros stream Hstream.
      destruct (stream_snoc _ _ _ Hstream) as (stream0 & event & -> & H0 & He).
      rewrite subgraph_reconcile_snoc. unfold Subgraph.handleHypnosExecutor.
      rewrite He. unfold Subgraph.handlePermissionRevoked, Subgraph.load,
        Subgraph.save.
      destruct (Hag stream0 H0 msg_sender permissionId Hstored)
        as (row0 & Hrow0 & Hid0 & Huser0 & Hact0).
      rewrite Hrow0. cbn [Subgraph.Permission.revoke Subgraph.Permission.id].
      rewrite Hid0.
      intros u id. unfold getPermission.
      cbn [permissions emit with_userPermissions with_permissions
           Subgraph.Permissions]. intros Hst.
      destruct (decide ((msg_sender, permissionId) = (u, id))) as [Heq | Hne].
      * injection Heq as <- <-. rewrite !lookup_insert_eq.
        eexists. split; [reflexivity |].
        cbn [Subgraph.Permission.id Subgraph.Permission.user
             Subgraph.Permission.active default from_option Datatypes.id].
        destruct perm. repeat split; assumption.
      * pose proof (Hsame u id Hst) as Hst0.
        rewrite (lookup_insert_ne (permissions s)) by exact Hne.
        destruct (Hag stream0 H0 u id Hst0) as (row & Hrow & Hid & Huser & Hact).
        destruct (decide (Subgraph.bytes32_text permissionId
                          = Subgraph.bytes32_text id)) as [Htext | Htext].
        -- exfalso.
           destruct (Hinv u id Hst0) as [Hin Hr].
           destruct (Hinv msg_sender permissionId Hstored) as [Hin' Hr'].
           apply bytes32_text_inj in Htext; [| assumption ..].
           subst id. apply Hne. f_equal.
           apply (single_owner_prefix _ _ Hso msg_sender u permissionId);
             assumption.
        -- rewrite lookup_insert_ne by exact Htext.
           exists row. repeat split; assumption.
  - intros s executionId record recorded used Hr Hu HP.
    cbn [logs emit with_executionHistory with_executions]. intros Hso.
    assert (Hso0 : Agreement.single_owner (logs s)).
    { apply (single_owner_prefix _ [recorded]).
      apply (single_owner_prefix _ [used]). exact Hso. }
    destruct (HP Hso0) as [Hinv Hag].
    split.
    { intros u id Hst. destruct (Hinv u id Hst) as [Hin Hrange].
      split; [| exact Hrange]. rewrite !grants_in_app.
      apply in_or_app. left. apply in_or_app. left. exact Hin. }
    intros stream Hstream.
    destruct (stream_snoc _ _ _ Hstream) as (stream1 & e2 & -> & H1 & He2).
    destruct (stream_snoc _ _ _ H1) as (stream0 & e1 & -> & H0 & He1).
    rewrite !subgraph_reconcile_snoc.
    apply (agrees_same_rows s _ (Subgraph.reconcile stream0 Subgraph.empty));
      [reflexivity | | apply Hag; exact H0].
    unfold Subgraph.handleHypnosExecutor. rewrite He1, He2.
    destruct recorded; try discriminate Hr. destruct used; try discriminate Hu.
    unfold Subgraph.handlePermissionUsed, Subgraph.handleExecutionRecorded.
    destruct (Subgraph.load _ _); reflexivity.
  - intros tx _. apply Forall_forall. intros; exact I.
  - intros _. split.
    + intros u id H. exfalso. apply H. reflexivity.
    + intros stream _ u id H. exfalso. apply H. reflexivity.
Qed.

(** X18. The graph-ts mirror converges to the ledger. Take any ledger
    reached from the constructor, and feed its event log, in order and
    with any block and transaction data, to [handleHypnosExecutor]
    starting from the empty mirror. Then for every capability the ledger
    stores, the mirror has a Permission row under the identifier's text,
    whose user is the executor and whose active flag is the ledger's,
    provided that no identifier was granted to two different executors. *)
Theorem subgraph_mirror_agrees_with_the_ledger deployer txs stream :
  Agreement.single_owner (logs (run txs (constructor deployer))) ->
  map Subgraph.parameters stream = logs (run txs (constructor deployer)) ->
  Agreement.agrees (run txs (constructor deployer))
    (Subgraph.reconcile stream Subgraph.empty).
Proof.
  intros Hso Hstream.
  destruct (mirror_follows_the_log deployer txs Hso) as [_ H].
  apply H. exact Hstream.
Qed.

Lemma subgraph_mirror_agrees_with_the_ledger_witness :
  exists row,
    Subgraph.Permissions
      (Subgraph.reconcile Cases.lifecycle_stream Subgraph.empty)
    !! Subgraph.bytes32_text Scenario.capability = Some row
    /\ Subgraph.Permission.id row = Subgraph.bytes32_text Scenario.capability
    /\ Subgraph.Permission.user row = Subgraph.address_text Scenario.grantee
    /\ Subgraph.Permission.active row
       = Permission.active
           (getPermission (run Cases.lifecycle (constructor Scenario.deployer))
              Scenario.grantee Scenario.capability).
Proof.
  refine (subgraph_mirror_agrees_with_the_ledger Scenario.deployer
            Cases.lifecycle Cases.lifecycle_stream _ _ Scenario.grantee
            Scenario.capability _).
  - intros u u' id Hu Hu'. vm_compute in Hu, Hu'.
    destruct Hu as [Hu | []]. destruct Hu' as [Hu' | []]. congruence.
  - vm_compute. reflexivity.
  - vm_compute. discriminate.
Defined.

End MirrorAgreement.


(** * Further properties of the Envio handlers *)

Section EnvioRows.

(** ** Audit keys *)

Lemma append_inj_length (a b c d : string) :
  String.length a = String.length b ->
  (a ++ c)%string = (b ++ d)%string -> a = b /\ c = d.
Proof.
  revert b. induction a as [| x a IH]; intros [| y b] Hlen H;
    try discriminate Hlen.
  - split; [reflexivity | exact H].
  - cbn in Hlen, H. injection Hlen as Hlen. injection H as -> H.
    destruct (IH b Hlen H) as [-> ->]. split; reflexivity.
Qed.

(** Logs whose transaction hashes have one length get different keys
    unless they are the same log. *)
Lemma eventId_inj hash hash' index index' :
  String.length hash = String.length hash' ->
  eventId hash index = eventId hash' index' -> hash = hash' /\ index = index'.
Proof.
  intros Hlen H. unfold eventId in H.
  destruct (append_inj_length _ _ _ _ Hlen H) as [-> H'].
  split; [reflexivity |].
  cbn [String.append] in H'. injection H' as H'.
  apply (inj pretty). exact H'.
Qed.

Lemma other_log_key event other :
  Stream.other_log event other -> Stream.audit_key other <> Stream.audit_key event.
Proof.
  intros [Hlen Hne] Hkey. unfold Stream.audit_key in Hkey.
  apply eventId_inj in Hkey; [| exact Hlen].
  destruct Hkey as [H1 H2]. apply Hne. rewrite H1, H2. reflexivity.
Qed.

(** X19. An audit row is final. Once an event is handled, the rows under
    its key [hash-logIndex] in the three audit tables are not touched by
    any later event of another log: the key is made of the transaction
    hash, a dash and the log index, and two logs whose hashes have the
    same length never share it. *)
Theorem envio_audit_rows_are_final context event later :
  Forall (Stream.other_log event) later ->
  Envio.PermissionGrantedEvents (Envio.reconcile (event :: later) context)
  !! Stream.audit_key event
  = Envio.PermissionGrantedEvents (Envio.handle context event)
    !! Stream.audit_key event
  /\ Envio.PermissionRevokedEvents (Envio.reconcile (event :: later) context)
     !! Stream.audit_key event
     = Envio.PermissionRevokedEvents (Envio.handle context event)
       !! Stream.audit_key event
  /\ Envio.PermissionUsedEvents (Envio.reconcile (event :: later) context)
     !! Stream.audit_key event
     = Envio.PermissionUsedEvents (Envio.handle context event)
       !! Stream.audit_key event.
Proof.
  intros Hlater.
  change (Envio.reconcile (event :: later) context)
    with (Envio.reconcile later (Envio.handle context event)).
  generalize (Envio.handle context event). clear context.
  induction Hlater as [| other later Hother _ IH]; intros context.
  - repeat split.
  - change (Envio.reconcile (other :: later) context)
      with (Envio.reconcile later (Envio.handle context other)).
    destruct (IH (Envio.handle context other)) as (H1 & H2 & H3).
    rewrite H1, H2, H3. clear IH H1 H2 H3.
    pose proof (other_log_key event other Hother) as Hkey.
    unfold Stream.audit_key in Hkey.
    destruct other as [args ts bn tx li]. cbn in Hkey.
    unfold Envio.handle. destruct args; cbn;
      rewrite ?lookup_insert_ne by exact Hkey; repeat split.
Qed.

Lemma envio_audit_rows_are_final_witness :
  Envio.PermissionUsedEvents
    (Envio.reconcile (StreamCases.used_event :: StreamCases.later_events)
       Envio.empty)
  !! Stream.audit_key StreamCases.used_event
  = Envio.PermissionUsedEvents (Envio.handle Envio.empty StreamCases.used_event)
    !! Stream.audit_key StreamCases.used_event.
Proof.
  refine (proj2 (proj2 (envio_audit_rows_are_final Envio.empty
                          StreamCases.used_event StreamCases.later_events _))).
  repeat constructor; intros H; discriminate H.
Defined.

(** ** The Permission row of an identifier *)

Lemma envio_unnamed_keeps_row id event context :
  Envio.well_keyed context ->
  Stream.names id event = false ->
  Envio.Permissions (Envio.handle context event) !! id
  = Envio.Permissions context !! id.
Proof.
  intros Hkeys Hn. destruct event as [args ts bn tx li].
  unfold Stream.names in Hn. cbn in Hn. unfold Envio.handle.
  destruct args; cbn; try reflexivity.
  - apply bool_decide_eq_false in Hn. apply lookup_insert_ne. exact Hn.
  - apply bool_decide_eq_false in Hn.
    destruct (Envio.Permissions context !! permissionId) as [p |] eqn:Hp;
      [| reflexivity].
    cbn. rewrite (Hkeys _ _ Hp). apply lookup_insert_ne. exact Hn.
Qed.

Lemma envio_unnamed_keep_row id later context :
  Envio.well_keyed context ->
  Forall (fun e => Stream.names id e = false) later ->
  Envio.Permissions (Envio.reconcile later context) !! id
  = Envio.Permissions context !! id.
Proof.
  intros Hkeys Hlater. revert context Hkeys.
  induction Hlater as [| e later He _ IH]; intros context Hkeys; [reflexivity |].
  change (Envio.reconcile (e :: later) context)
    with (Envio.reconcile later (Envio.handle context e)).
  rewrite IH by (apply envio_handle_well_keyed; exact Hkeys).
  apply envio_unnamed_keeps_row; assumption.
Qed.

(** X20. The Permission row of an identifier is decided by the last grant
    or revoke that names it. After a [PermissionGranted] followed by
    events that do not name the identifier, the row is the granted one,
    active and with no revocation data, whatever the row was before (a
    grant after a revoke clears the revocation). After a
    [PermissionRevoked] followed by such events, the row is the earlier
    row made inactive and stamped with the revoke's block; where there was
    no row there is none. *)
Theorem envio_permission_follows_the_last_event
    context later id user target selector maxValue maxTokenAmount tokenAddress
    expiry ts bn tx li :
  Envio.well_keyed context ->
  Forall (fun e => Stream.names id e = false) later ->
  Envio.Permissions
    (Envio.reconcile
       (Envio.mkEvent
          (Envio.PermissionGranted user id target selector maxValue
             maxTokenAmount tokenAddress expiry) ts bn tx li :: later) context)
  !! id
  = Some (Envio.Permission.mk id (toLowerCase user) (toLowerCase target)
            selector maxValue maxTokenAmount (toLowerCase tokenAddress) expiry
            true ts bn None None)
  /\ Envio.Permissions
       (Envio.reconcile
          (Envio.mkEvent (Envio.PermissionRevoked user id) ts bn tx li :: later)
          context)
     !! id
     = Envio.Permission.revoke (ts, bn) <$> (Envio.Permissions context !! id).
Proof.
  intros Hkeys Hlater. split.
  - change (Envio.reconcile (?e :: later) context)
      with (Envio.reconcile later (Envio.handle context e)).
    rewrite envio_unnamed_keep_row;
      [| apply envio_handle_well_keyed; exact Hkeys | exact Hlater].
    unfold Envio.handle. cbn. apply lookup_insert_eq.
  - change (Envio.reconcile (?e :: later) context)
      with (Envio.reconcile later (Envio.handle context e)).
    rewrite envio_unnamed_keep_row;
      [| apply envio_handle_well_keyed; exact Hkeys | exact Hlater].
    unfold Envio.handle. cbn.
    destruct (Envio.Permissions context !! id) as [p |] eqn:Hp; cbn.
    + rewrite (Hkeys _ _ Hp). apply lookup_insert_eq.
    + exact Hp.
Qed.

Lemma envio_permission_follows_the_last_event_witness :
  Envio.Permissions
    (Envio.reconcile
       (Envio.mkEvent (Envio.PermissionRevoked "0xA1" "0xc1") 1001 8 "0xabcf" 0
        :: StreamCases.later_events) Envio.empty)
  !! "0xc1"
  = Envio.Permission.revoke (1001, 8) <$> (Envio.Permissions Envio.empty !! "0xc1").
Proof.
  refine (proj2 (envio_permission_follows_the_last_event Envio.empty
                   StreamCases.later_events "0xc1" "0xA1" "0x71" "0x12345678"
                   0 0 "0x70" 0 1001 8 "0xabcf" 0 _ _)).
  - exact envio_empty_well_keyed.
  - repeat constructor.
Defined.

End EnvioRows.


(** * The indexers of the demo target *)

Section DemoIndexers.

(** ** The Envio handlers *)

Lemma envio_demo_handle_written context event :
  EnvioDemo.handle context event = EnvioDemo.written [event] context.
Proof.
  destruct event as [args ts bn tx li].
  unfold EnvioDemo.handle, EnvioDemo.written. destruct args; reflexivity.
Qed.

Lemma envio_demo_reconcile_written stream context :
  EnvioDemo.reconcile stream context = EnvioDemo.written stream context.
Proof.
  revert context. induction stream as [| event rest IH]; intros context.
  - destruct context; reflexivity.
  - change (EnvioDemo.reconcile (event :: rest) context)
      with (EnvioDemo.reconcile rest (EnvioDemo.handle context event)).
    rewrite IH, envio_demo_handle_written. reflexivity.
Qed.

Lemma envio_demo_written_idempotent stream context :
  EnvioDemo.written stream (EnvioDemo.written stream context)
  = EnvioDemo.written stream context.
Proof.
  unfold EnvioDemo.written. cbn.
  rewrite !(apply_writes_idempotent _ no_update_absorbs). reflexivity.
Qed.

Lemma envio_demo_handle_idempotent context event :
  True ->
  EnvioDemo.handle (EnvioDemo.handle context event) event
  = EnvioDemo.handle context event.
Proof.
  intros _. rewrite !envio_demo_handle_written.
  apply envio_demo_written_idempotent.
Qed.

(** X21. The Envio handlers of the demo target are safe to replay: each
    of the five handlers writes one row under the key of its log, so for
    every stream and every starting context, handling the whole stream a
    second time, or handling any of its events several times in place,
    leaves the tables as one pass does. *)
Theorem envio_demo_replay_and_redelivery stream counts context :
  EnvioDemo.reconcile (stream ++ stream) context
  = EnvioDemo.reconcile stream context
  /\ EnvioDemo.reconcile (redeliver counts stream) context
     = EnvioDemo.reconcile stream context.
Proof.
  split.
  - unfold EnvioDemo.reconcile at 1. rewrite fold_left_app.
    fold (EnvioDemo.reconcile stream context).
    fold (EnvioDemo.reconcile stream (EnvioDemo.reconcile stream context)).
    rewrite !envio_demo_reconcile_written.
    apply envio_demo_written_idempotent.
  - apply (fold_redeliver EnvioDemo.handle (fun _ => True));
      [intros; exact I | intros m e H; apply envio_demo_handle_idempotent, H
       | exact I].
Qed.

(** ** The graph-ts handlers *)

Lemma holds_keep {A : Type} (table : gmap string A) n keys k :
  SubgraphDemo.holds table n keys ->
  SubgraphDemo.holds table (n + 0) (keys ++ [k]).
Proof.
  intros [Hsize Hkeys]. split; [lia |].
  intros k' Hk'. apply in_or_app. left. apply Hkeys, Hk'.
Qed.

Lemma holds_save {A : Type} (id : A -> string) (row : A)
    (table : gmap string A) n keys :
  SubgraphDemo.holds table n keys ->
  ~ In (id row) keys ->
  SubgraphDemo.holds (Subgraph.save id row table) (n + 1) (keys ++ [id row]).
Proof.
  intros [Hsize Hkeys] Hfresh. unfold Subgraph.save. split.
  - rewrite map_size_insert_None; [lia |].
    destruct (table !! id row) as [x |] eqn:Hx; [| reflexivity].
    exfalso. apply Hfresh, Hkeys. rewrite Hx. eauto.
  - intros k. rewrite lookup_insert. intros Hk. apply in_or_app.
    destruct (decide (id row = k)) as [<- | Hne];
      [right; left; reflexivity | left; apply Hkeys; assumption].
Qed.

Lemma demo_count_snoc kind stream event :
  SubgraphDemo.count kind (stream ++ [event])
  = (SubgraphDemo.count kind stream
     + (if kind (SubgraphDemo.parameters event) then 1 else 0))%nat.
Proof.
  unfold SubgraphDemo.count. rewrite List.filter_app, length_app.
  cbn [List.filter]. destruct (kind _); reflexivity.
Qed.

Lemma demo_count_parameters kind stream :
  SubgraphDemo.count kind stream
  = length (List.filter kind (map SubgraphDemo.parameters stream)).
Proof.
  unfold SubgraphDemo.count. induction stream as [| e stream IH]; [reflexivity |].
  cbn [map List.filter]. destruct (kind _); cbn [length]; rewrite IH; reflexivity.
Qed.

Lemma subgraph_demo_reconcile_snoc stream event store :
  SubgraphDemo.reconcile (stream ++ [event]) store
  = SubgraphDemo.handleHypnosDemo (SubgraphDemo.reconcile stream store) event.
Proof. unfold SubgraphDemo.reconcile. rewrite fold_left_app. reflexivity. Qed.

(** Over logs with different keys every event adds one row to the table
    of its kind. *)
Lemma subgraph_demo_tables stream :
  NoDup (map SubgraphDemo.audit_id stream) ->
  SubgraphDemo.holds
    (SubgraphDemo.CounterIncrementedEvents
       (SubgraphDemo.reconcile stream SubgraphDemo.empty))
    (SubgraphDemo.count HypnosDemo.is_CounterIncremented stream)
    (map SubgraphDemo.audit_id stream)
  /\ SubgraphDemo.holds
       (SubgraphDemo.MessageUpdatedEvents
          (SubgraphDemo.reconcile stream SubgraphDemo.empty))
       (SubgraphDemo.count SubgraphDemo.is_MessageUpdated stream)
       (map SubgraphDemo.audit_id stream)
  /\ SubgraphDemo.holds
       (SubgraphDemo.BalanceDepositedEvents
          (SubgraphDemo.reconcile stream SubgraphDemo.empty))
       (SubgraphDemo.count SubgraphDemo.is_BalanceDeposited stream)
       (map SubgraphDemo.audit_id stream)
  /\ SubgraphDemo.holds
       (SubgraphDemo.BalanceWithdrawnEvents
          (SubgraphDemo.reconcile stream SubgraphDemo.empty))
       (SubgraphDemo.count SubgraphDemo.is_BalanceWithdrawn stream)
       (map SubgraphDemo.audit_id stream)
  /\ SubgraphDemo.holds
       (SubgraphDemo.StateSnapshotEvents
          (SubgraphDemo.reconcile stream SubgraphDemo.empty))
       (SubgraphDemo.count SubgraphDemo.is_StateSnapshot stream)
       (map SubgraphDemo.audit_id stream).
Proof.
  induction stream as [| event stream IH] using rev_ind; intros Hkeys.
  - unfold SubgraphDemo.holds.
    cbn [SubgraphDemo.reconcile fold_left SubgraphDemo.empty map
         SubgraphDemo.CounterIncrementedEvents SubgraphDemo.MessageUpdatedEvents
         SubgraphDemo.BalanceDepositedEvents SubgraphDemo.BalanceWithdrawnEvents
         SubgraphDemo.StateSnapshotEvents].
    repeat split; try apply map_size_empty;
      intros k [x Hx]; rewrite lookup_empty in Hx; discriminate Hx.
  - rewrite map_app in Hkeys. cbn [map] in Hkeys.
    apply NoDup_app in Hkeys. destruct Hkeys as (Hnd & Hfresh & _).
    assert (Hnew : ~ In (SubgraphDemo.audit_id event)
                     (map SubgraphDemo.audit_id stream)).
    { intros Hin. apply (Hfresh (SubgraphDemo.audit_id event)).
      - apply list_elem_of_In. exact Hin.
      - left. }
    destruct (IH Hnd) as (H1 & H2 & H3 & H4 & H5).
    rewrite subgraph_demo_reconcile_snoc, map_app, !demo_count_snoc.
    cbn [map]. unfold SubgraphDemo.handleHypnosDemo.
    destruct (SubgraphDemo.parameters event);
      unfold SubgraphDemo.handleCounterIncremented,
        SubgraphDemo.handleMessageUpdated, SubgraphDemo.handleBalanceDeposited,
        SubgraphDemo.handleBalanceWithdrawn, SubgraphDemo.handleStateSnapshot;
      cbn [SubgraphDemo.CounterIncrementedEvents SubgraphDemo.MessageUpdatedEvents
           SubgraphDemo.BalanceDepositedEvents SubgraphDemo.BalanceWithdrawnEvents
           SubgraphDemo.StateSnapshotEvents HypnosDemo.is_CounterIncremented
           SubgraphDemo.is_MessageUpdated SubgraphDemo.is_BalanceDeposited
           SubgraphDemo.is_BalanceWithdrawn SubgraphDemo.is_StateSnapshot];
      (split; [| split; [| split; [| split]]]);
      first [ apply holds_keep; assumption
            | apply (holds_save SubgraphDemo.CallerEvent.id); assumption
            | apply (holds_save SubgraphDemo.BalanceDepositedEvent.id); assumption
            | apply (holds_save SubgraphDemo.BalanceWithdrawnEvent.id);
              assumption ].
Qed.

(** X22. The graph-ts mirror of the demo target counts what the contract
    counts. Feed the event log of any state of [HypnosDemo] reached from
    its constructor to [handleHypnosDemo], from the empty mirror, each
    log under its own transaction hash and log index: every event adds
    one row to the table of its kind, so each table has as many rows as
    the log has events of the kind, and the number of
    [CounterIncrementedEvent] rows is the contract's [state.counter]. *)
Theorem subgraph_demo_rows_count_the_events blk0 held txs stream :
  NoDup (map SubgraphDemo.audit_id stream) ->
  map SubgraphDemo.parameters stream
  = HypnosDemo.logs (HypnosDemo.run txs (HypnosDemo.constructor blk0 held)) ->
  N.of_nat (size (SubgraphDemo.CounterIncrementedEvents
                    (SubgraphDemo.reconcile stream SubgraphDemo.empty)))
  = HypnosDemo.counter
      (HypnosDemo.state (HypnosDemo.run txs (HypnosDemo.constructor blk0 held)))
  /\ size (SubgraphDemo.MessageUpdatedEvents
             (SubgraphDemo.reconcile stream SubgraphDemo.empty))
     = SubgraphDemo.count SubgraphDemo.is_MessageUpdated stream
  /\ size (SubgraphDemo.BalanceDepositedEvents
             (SubgraphDemo.reconcile stream SubgraphDemo.empty))
     = SubgraphDemo.count SubgraphDemo.is_BalanceDeposited stream
  /\ size (SubgraphDemo.BalanceWithdrawnEvents
             (SubgraphDemo.reconcile stream SubgraphDemo.empty))
     = SubgraphDemo.count SubgraphDemo.is_BalanceWithdrawn stream
  /\ size (SubgraphDemo.StateSnapshotEvents
             (SubgraphDemo.reconcile stream SubgraphDemo.empty))
     = SubgraphDemo.count SubgraphDemo.is_StateSnapshot stream.
Proof.
  intros Hkeys Hlog.
  destruct (subgraph_demo_tables stream Hkeys)
    as ([H1 _] & [H2 _] & [H3 _] & [H4 _] & [H5 _]).
  repeat split; try assumption.
  rewrite H1, demo_count_parameters, Hlog.
  pose proof (counter_tracks_increments txs (HypnosDemo.constructor blk0 held))
    as H.
  cbn [HypnosDemo.constructor HypnosDemo.state HypnosDemo.counter HypnosDemo.logs
       List.filter length] in H.
  lia.
Qed.

Lemma subgraph_demo_rows_count_the_events_witness :
  N.of_nat (size (SubgraphDemo.CounterIncrementedEvents
                    (SubgraphDemo.reconcile StreamCases.demo_stream
                       SubgraphDemo.empty)))
  = HypnosDemo.counter
      (HypnosDemo.state
         (HypnosDemo.run StreamCases.demo_calls
            (HypnosDemo.constructor Scenario.block 0))).
Proof.
  refine (proj1 (subgraph_demo_rows_count_the_events Scenario.block 0
                   StreamCases.demo_calls StreamCases.demo_stream _ _)).
  - apply (bool_decide_unpack _). vm_compute. reflexivity.
  - vm_compute. reflexivity.
Defined.

End DemoIndexers.


(** * The front end's check against the gate *)

Section FrontEnd.

Import HypnosExecutor.

#[local] Arguments be_bytes : simpl never.
#[local] Arguments bytes4_of_bytes : simpl never.

Lemma lower_hex_digit d : 0 <= d < 16 -> lower_ascii (hex_digit d) = hex_digit d.
Proof.
  intros Hd.
  assert (Hc : d = 0 \/ d = 1 \/ d = 2 \/ d = 3 \/ d = 4 \/ d = 5 \/ d = 6
               \/ d = 7 \/ d = 8 \/ d = 9 \/ d = 10 \/ d = 11 \/ d = 12
               \/ d = 13 \/ d = 14 \/ d = 15) by lia.
  repeat (destruct Hc as [-> | Hc]; [reflexivity |]). subst d. reflexivity.
Qed.

Lemma toLowerCase_hex_of_bytes bs :
  Forall Agreement.byte_range bs ->
  toLowerCase (hex_of_bytes bs) = hex_of_bytes bs.
Proof.
  induction 1 as [| b bs Hb _ IH]; [reflexivity |].
  unfold Agreement.byte_range in Hb.
  cbn [hex_of_bytes toLowerCase]. rewrite IH, !lower_hex_digit;
    [reflexivity | apply Z.mod_pos_bound; lia
     | split; [apply Z.div_pos | apply Z.div_lt_upper_bound]; lia].
Qed.

Lemma toLowerCase_toHexString_bytes n a :
  toLowerCase (toHexString (be_bytes n a)) = toHexString (be_bytes n a).
Proof.
  unfold toHexString.
  change (toLowerCase ("0x" ++ ?s)%string) with ("0x" ++ toLowerCase s)%string.
  rewrite toLowerCase_hex_of_bytes by apply be_bytes_range. reflexivity.
Qed.

Lemma toHexString_inj n a b :
  0 <= a < 256 ^ Z.of_nat n -> 0 <= b < 256 ^ Z.of_nat n ->
  toHexString (be_bytes n a) = toHexString (be_bytes n b) -> a = b.
Proof.
  intros Ha Hb H.
  assert (Hhex : hex_of_bytes (be_bytes n a) = hex_of_bytes (be_bytes n b)).
  { revert H. unfold toHexString. generalize (hex_of_bytes (be_bytes n a)).
    generalize (hex_of_bytes (be_bytes n b)). intros x y H.
    cbn [String.append] in H. injection H as H. exact H. }
  apply hex_of_bytes_inj in Hhex; [| apply be_bytes_range ..].
  apply (f_equal be_word) in Hhex. rewrite !be_word_be_bytes in Hhex.
  rewrite !Z.mod_small in Hhex by assumption. exact Hhex.
Qed.

(** X23. The front end's [hasValidPermission] is sound for the gate, and
    stricter. If an entry of the list shows a stored capability and the
    helper approves the entry for a target and the selector of a payload,
    then a gated execution of that payload on that target, with a value
    within the capability's limit and at any block time up to the
    helper's clock, passes all six checks of [executeWithPermission]. The
    helper approves only capabilities with an expiry in the future: one
    granted without expiry (expiry 0), which the gate admits at all
    times, is never approved. *)
Theorem frontend_check_is_sound_for_the_gate p perm now target data value t :
  UsePermissions.shows p perm ->
  0 < target < 2 ^ 160 ->
  0 <= Permission.target perm < 2 ^ 160 ->
  0 <= Permission.selector perm < 2 ^ 32 ->
  0 <= bytes4_of_bytes data < 2 ^ 32 ->
  value <= Permission.maxValue perm ->
  0 <= t <= now ->
  UsePermissions.hasValidPermission [p] now (UsePermissions.address_text target)
    (Some (UsePermissions.selector_text (bytes4_of_bytes data))) = true ->
  Spec.earliest_violation (Spec.preconditions perm target data value t) = None
  /\ Permission.expiry perm <> 0.
Proof.
  intros (Hact & Hexp & Htgt & Hsel) Ht Hpt Hps Hd Hv Hnow Hvalid.
  unfold UsePermissions.hasValidPermission in Hvalid. cbn [existsb] in Hvalid.
  rewrite orb_false_r in Hvalid.
  apply andb_prop in Hvalid. destruct Hvalid as [Hvalid Hs].
  apply andb_prop in Hvalid. destruct Hvalid as [Hvalid Hta].
  apply andb_prop in Hvalid. destruct Hvalid as [Ha He].
  apply Z.gtb_lt in He. apply String.eqb_eq in Hta.
  rewrite Htgt in Hta. unfold UsePermissions.address_text in Hta.
  rewrite toLowerCase_toHexString_bytes in Hta.
  apply (toHexString_inj 20) in Hta;
    [| change (256 ^ Z.of_nat 20) with (2 ^ 160); lia ..].
  assert (Hselector :
    (Permission.selector perm =? 0)
    || (Permission.selector perm =? bytes4_of_bytes data) = true).
  { apply orb_true_iff. apply orb_prop in Hs. destruct Hs as [Hs | Hs];
      apply String.eqb_eq in Hs; rewrite Hsel in Hs.
    - left. apply Z.eqb_eq.
      apply (toHexString_inj 4 _ 0);
        [change (256 ^ Z.of_nat 4) with (2 ^ 32); lia ..| exact Hs].
    - right. apply Z.eqb_eq.
      apply (toHexString_inj 4);
        [change (256 ^ Z.of_nat 4) with (2 ^ 32); lia ..| exact Hs]. }
  split; [| lia].
  unfold Spec.preconditions. cbn [Spec.earliest_violation].
  rewrite <- Hact, Ha, Hta, Z.eqb_refl, Hselector.
  assert (H0 : (target =? 0) = false) by (apply Z.eqb_neq; lia).
  assert (H1 : (Permission.expiry perm =? 0)
               || (Permission.expiry perm >=? t) = true).
  { apply orb_true_iff. right. apply Z.geb_le. lia. }
  assert (H2 : (value <=? Permission.maxValue perm) = true)
    by (apply Z.leb_le; exact Hv).
  rewrite H0, H1, H2. reflexivity.
Qed.

Lemma frontend_check_is_sound_for_the_gate_witness :
  Spec.earliest_violation
    (Spec.preconditions
       (getPermission Scenario.granted_until Scenario.grantee
          Scenario.capability_until)
       Scenario.target Scenario.payload 5 1000) = None
  /\ Permission.expiry
       (getPermission Scenario.granted_until Scenario.grantee
          Scenario.capability_until) <> 0.
Proof.
  apply (frontend_check_is_sound_for_the_gate FrontEndCases.entry
           (getPermission Scenario.granted_until Scenario.grantee
              Scenario.capability_until)
           1500 Scenario.target Scenario.payload 5 1000).
  - vm_compute. repeat split; reflexivity.
  - vm_compute. split; reflexivity.
  - vm_compute. split; [discriminate | reflexivity].
  - vm_compute. split; [discriminate | reflexivity].
  - vm_compute. split; [discriminate | reflexivity].
  - vm_compute. discriminate.
  - vm_compute. split; discriminate.
  - vm_compute. reflexivity.
Defined.

End FrontEnd.
